(** * Ant-colony foraging in a generated maze: a model of [scetch.js]

    The development embeds the simulation engine of [scetch.js] (maze
    generation, placement of colony and food, the two pheromone fields and
    the ant agent) and proves properties of it.

    Conventions of the embedding.
    - A JavaScript number that the program keeps integral (grid
      coordinates, charge, counters) is a [Z]; every other number is a
      rational [Q], with the arithmetic of the program read as exact
      arithmetic.  Evaporation is given a second time with the rounding
      of binary64 ([evaporate64], [updatePheromones64]), for the decay
      of a cell to 0, which the rounding decides.
    - A grid is the array of columns the program builds, [grid[x][y]].
    - The p5 library is not part of the program.  Its arithmetic helpers
      ([constrain], [map], [floor], [dist], ...) are written out; its
      trigonometry ([p5.Vector.fromAngle], [heading], [atan2]) is a
      parameter of the model, and [random] reads an oracle of draws from
      the unit interval.
    - Loops whose number of iterations is not a literal take fuel and
      answer [None] when it runs out. *)

From Stdlib Require Import ZArith QArith Qround Qabs Qminmax Qpower Lia Lqa Bool List.
From stdpp Require Import base option list.
Import ListNotations.

Local Open Scope Z_scope.

(** ** Numbers and p5 arithmetic *)

Module P5.

(** [Math.PI], the double nearest to pi, as the rational it is. *)
Definition PI : Q := (884279719003555 # 281474976710656)%Q.
Definition TWO_PI : Q := (2 * PI)%Q.

(** [constrain(n, low, high)] is [Math.max(Math.min(n, high), low)]. *)
Definition constrainZ (n low high : Z) : Z := Z.max (Z.min n high) low.
Definition constrain (n low high : Q) : Q := Qmax (Qmin n high) low.

(** [map(n, start1, stop1, start2, stop2)] without bounds clamping. *)
Definition map (n start1 stop1 start2 stop2 : Q) : Q :=
  ((n - start1) / (stop1 - start1) * (stop2 - start2) + start2)%Q.

(** [dist(x1, y1, x2, y2) <= r]: the distance is a square root, so the
    comparison is made on the squares. *)
Definition dist_le (x1 y1 x2 y2 r : Q) : bool :=
  Qle_bool 0 r &&
  Qle_bool ((x2 - x1) * (x2 - x1) + (y2 - y1) * (y2 - y1)) (r * r).

(** A two-dimensional [p5.Vector]. *)
Record Vector : Type := createVector { vx : Q; vy : Q }.

Definition add (a b : Vector) : Vector :=
  createVector (vx a + vx b)%Q (vy a + vy b)%Q.
Definition mult (v : Vector) (k : Q) : Vector :=
  createVector (vx v * k)%Q (vy v * k)%Q.

(** The trigonometric part of p5, left abstract. *)
Record Trig : Type := {
  fromAngle : Q -> Vector;   (* p5.Vector.fromAngle *)
  heading : Vector -> Q;     (* p5.Vector.prototype.heading *)
  atan2 : Q -> Q -> Q        (* atan2(y, x) *)
}.

(** The oracle behind [random]: draw number [k] of the run, in [0,1). *)
Definition Rng : Type := nat -> Q.

Definition rng_unit (rng : Rng) : Prop :=
  forall k, (0 <= rng k)%Q /\ (rng k < 1)%Q.

(** [random(max)] and [random(min, max)] on draw [u]; the latter swaps
    its bounds when they come in the wrong order. *)
Definition random1 (u max : Q) : Q := (u * max)%Q.
Definition random2 (u min max : Q) : Q :=
  if Qlt_le_dec max min
  then (u * (min - max) + max)%Q
  else (u * (max - min) + min)%Q.

(** [random(array)]: the element at [floor(u * array.length)]. *)
Definition randomChoice {A} (u : Q) (choices : list A) : option A :=
  let i := Qfloor (u * inject_Z (Z.of_nat (length choices))) in
  if 0 <=? i then choices !! Z.to_nat i else None.

(** [p5.Vector.random2D()]. *)
Definition random2D (t : Trig) (u : Q) : Vector :=
  fromAngle t (u * TWO_PI)%Q.

End P5.

(** ** Binary64 arithmetic *)

(** The numbers of the program are IEEE 754 binary64 numbers.  Where a
    claim turns on the rounding of a product or a difference, the
    operation is taken with its rounding: the exact result, rounded to
    the nearest number of 53 significant bits (of 2^-1074 as the smallest
    step), ties going to the even significand.  Overflow to [Infinity]
    is not represented; the pheromone arithmetic stays below
    [PHEROMONE_MAX]. *)
Module B64.

Definition pow2 (e : Z) : Q := (2 ^ e)%Q.

(** [floor(log2(x))] for a positive [x]. *)
Definition ilog2 (x : Q) : Z :=
  let k := Z.log2 (Qnum x) - Z.log2 (Zpos (Qden x)) in
  if Qlt_le_dec x (pow2 k) then k - 1 else k.

(** The nearest integer, the even one of two equally near. *)
Definition rne (s : Q) : Z :=
  let m := Qfloor s in
  match (s - inject_Z m ?= 1 # 2)%Q with
  | Lt => m
  | Gt => m + 1
  | Eq => if Z.even m then m else m + 1
  end.

Definition round_pos (x : Q) : Q :=
  let e := Z.max (ilog2 x - 52) (-1074) in
  (inject_Z (rne (x / pow2 e)) * pow2 e)%Q.

(** The binary64 number nearest to [x], as a reduced fraction. *)
Definition round (x : Q) : Q :=
  Qred match (x ?= 0)%Q with
       | Eq => 0%Q
       | Gt => round_pos x
       | Lt => (- round_pos (- x))%Q
       end.

(** [a * b] and [a - b] of two binary64 numbers. *)
Definition mul (a b : Q) : Q := round (a * b).
Definition sub (a b : Q) : Q := round (a - b).

End B64.

(** ** Loops *)

(** [for (i = lo; i < lo + n; i++) body], the counter left alone by the
    body. *)
Fixpoint for_up {S : Type} (n : nat) (i : Z) (body : Z -> S -> S) (s : S) : S :=
  match n with
  | O => s
  | S n' => for_up n' (i + 1) body (body i s)
  end.

Definition for_lt {S : Type} (lo hi : Z) (body : Z -> S -> S) (s : S) : S :=
  for_up (Z.to_nat (hi - lo)) lo body s.

(** The same loop when the body may leave the function: [Some r] is a
    [return r] (or a fault) inside the body, [None] falls through. *)
Fixpoint for_first {R : Type} (n : nat) (i : Z) (body : Z -> option R) : option R :=
  match n with
  | O => None
  | S n' =>
      match body i with
      | Some r => Some r
      | None => for_first n' (i + 1) body
      end
  end.

(** [for (i = lo; i <= hi; i++)] and [for (i = lo; i < hi; i++)]. *)
Definition for_le_first {R : Type} (lo hi : Z) (body : Z -> option R) : option R :=
  for_first (Z.to_nat (hi - lo + 1)) lo body.
Definition for_lt_first {R : Type} (lo hi : Z) (body : Z -> option R) : option R :=
  for_first (Z.to_nat (hi - lo)) lo body.

(** [for (i = n - 1; i >= 0; i--) body], where the body may fail. *)
Fixpoint for_down {S : Type} (n : nat) (body : Z -> S -> option S) (s : S)
  : option S :=
  match n with
  | O => Some s
  | S n' =>
      match body (Z.of_nat n') s with
      | Some s' => for_down n' body s'
      | None => None
      end
  end.

(** [for (x = start; x <= stop; x += step) body] on numbers. *)
Fixpoint for_float {S : Type} (fuel : nat) (x stop step : Q)
    (body : Q -> S -> option S) (s : S) : option S :=
  match fuel with
  | O => None
  | S f =>
      if Qle_bool x stop
      then match body x s with
           | Some s' => for_float f (x + step)%Q stop step body s'
           | None => None
           end
      else Some s
  end.

(** The values taken by the counter of
    [for (x = start; x <= stop; x += step)] on numbers. *)
Fixpoint float_range (fuel : nat) (x stop step : Q) : option (list Q) :=
  match fuel with
  | O => None
  | S f =>
      if Qle_bool x stop
      then cons x <$> float_range f (x + step)%Q stop step
      else Some []
  end.

(** ** Grids *)

Abbreviation grid A := (list (list A)) (only parsing).

(** [createGrid(cols, rows, defaultValue)]: every slot is filled. *)
Definition createGrid {A : Type} (cols rows : Z) (defaultValue : A) : grid A :=
  replicate (Z.to_nat cols) (replicate (Z.to_nat rows) defaultValue).

(** [g[x][y]] where the program has checked the indices: [None] outside. *)
Definition grid_lookup {A : Type} (g : grid A) (x y : Z) : option A :=
  if (0 <=? x) && (0 <=? y)
  then g !! Z.to_nat x ≫= fun col => col !! Z.to_nat y
  else None.

(** [g[x][y] = v] for indices inside the grid; other writes are not made by
    the program and leave the model's grid as it is. *)
Definition grid_set {A : Type} (g : grid A) (x y : Z) (v : A) : grid A :=
  if (0 <=? x) && (0 <=? y)
  then match g !! Z.to_nat x with
       | Some col => <[Z.to_nat x := <[Z.to_nat y := v]> col]> g
       | None => g
       end
  else g.

(** A grid of [cols] columns with [rows] entries each. *)
Definition grid_dims {A : Type} (cols rows : Z) (g : grid A) : Prop :=
  length g = Z.to_nat cols /\ Forall (fun col => length col = Z.to_nat rows) g.

(** Maze cells: the program stores the numbers 0 and 1. *)
Definition Path : Z := 0.
Definition Wall : Z := 1.

(** ** The simulation object *)

Inductive AntState : Type := searching | returning.

Record Ant : Type := mkAnt {
  pos : P5.Vector;
  vel : P5.Vector;
  state : AntState;
  gridPos : Z * Z;
  history : list (Z * Z);
  charge : Z
}.

(** The parameters of [simulationConfig]; [GRID_COLS], [GRID_ROWS] and
    [CELL_SIZE] are fixed by [setup]. *)
Record Config : Type := mkConfig {
  NUM_ANTS : Z;
  ANT_SPEED : Q;
  EVAPORATION_RATE : Q;
  DEPOSITION_RATE_EXPLORE : Q;
  DEPOSITION_RATE_RETURN : Q;
  PHEROMONE_MAX : Q;
  PHEROMONE_DURATION : Z;
  SENSE_RADIUS : Q;
  GOAL_SENSE_RADIUS : Q;
  SENSE_ANGLE : Q;
  TURN_ANGLE : Q;
  FOLLOW_STRENGTH_WEIGHT : Q;
  RANDOM_TURN_CHANCE : Q;
  FOOD_DETECTION_RADIUS : Q;
  COLONY_DETECTION_RADIUS : Q;
  ANT_HISTORY_LENGTH : Z;
  GRID_COLS : Z;
  GRID_ROWS : Z;
  CELL_SIZE : Q;
  SPAWN_INTERVAL : Q
}.

(** What [display] puts on the canvas for one ant: a triangle moved to
    the ant's position, turned to its heading, in the colour of its
    state. *)
Record Drawn : Type := mkDrawn {
  drawn_at : P5.Vector;
  drawn_angle : Q;
  drawn_colour : AntState
}.

(** The state kept in [simulationConfig], the index of the next draw of
    [random], and the ants drawn on the canvas since the last
    [background], oldest first. *)
Record Sim : Type := mkSim {
  maze : grid Z;
  explorePheromones : grid Q;
  returnPheromones : grid Q;
  ants : list Ant;
  colonyPos : Z * Z;
  foodPos : Z * Z;
  foodFoundCount : Z;
  lastAntSpawnTime : Q;
  draws : nat;
  canvas : list Drawn
}.

Definition set_pheromones (ex re : grid Q) (w : Sim) : Sim :=
  mkSim (maze w) ex re (ants w) (colonyPos w) (foodPos w) (foodFoundCount w)
        (lastAntSpawnTime w) (draws w) (canvas w).
Definition set_ants (l : list Ant) (w : Sim) : Sim :=
  mkSim (maze w) (explorePheromones w) (returnPheromones w) l (colonyPos w)
        (foodPos w) (foodFoundCount w) (lastAntSpawnTime w) (draws w) (canvas w).
Definition set_foodFoundCount (n : Z) (w : Sim) : Sim :=
  mkSim (maze w) (explorePheromones w) (returnPheromones w) (ants w) (colonyPos w)
        (foodPos w) n (lastAntSpawnTime w) (draws w) (canvas w).
Definition set_lastAntSpawnTime (t : Q) (w : Sim) : Sim :=
  mkSim (maze w) (explorePheromones w) (returnPheromones w) (ants w) (colonyPos w)
        (foodPos w) (foodFoundCount w) t (draws w) (canvas w).
Definition set_draws (k : nat) (w : Sim) : Sim :=
  mkSim (maze w) (explorePheromones w) (returnPheromones w) (ants w) (colonyPos w)
        (foodPos w) (foodFoundCount w) (lastAntSpawnTime w) k (canvas w).
Definition set_canvas (c : list Drawn) (w : Sim) : Sim :=
  mkSim (maze w) (explorePheromones w) (returnPheromones w) (ants w) (colonyPos w)
        (foodPos w) (foodFoundCount w) (lastAntSpawnTime w) (draws w) c.

(** The values of the literal [simulationConfig], on the grid that
    [generateMaze(20, 16)] yields and a cell of 40 pixels. *)
Definition simulationConfig : Config := {|
  NUM_ANTS := 600;
  ANT_SPEED := 1;
  EVAPORATION_RATE := 0.005;
  DEPOSITION_RATE_EXPLORE := 15;
  DEPOSITION_RATE_RETURN := 15;
  PHEROMONE_MAX := 255;
  PHEROMONE_DURATION := 5000;
  SENSE_RADIUS := 1.1;
  GOAL_SENSE_RADIUS := 2;
  SENSE_ANGLE := P5.PI / 2.5;
  TURN_ANGLE := P5.PI / 6;
  FOLLOW_STRENGTH_WEIGHT := 5;
  RANDOM_TURN_CHANCE := 0.1;
  FOOD_DETECTION_RADIUS := 1;
  COLONY_DETECTION_RADIUS := 1;
  ANT_HISTORY_LENGTH := 20;
  GRID_COLS := 19;
  GRID_ROWS := 15;
  CELL_SIZE := 40;
  SPAWN_INTERVAL := 100
|}.

(** ** Utility functions *)

Definition isValidGridPos (cfg : Config) (x y : Z) : bool :=
  (0 <=? x) && (x <? GRID_COLS cfg) && (0 <=? y) && (y <? GRID_ROWS cfg).

Definition gridToPixel (cfg : Config) (gridX gridY : Z) : P5.Vector :=
  P5.createVector ((inject_Z gridX + 0.5) * CELL_SIZE cfg)%Q
                  ((inject_Z gridY + 0.5) * CELL_SIZE cfg)%Q.

Definition pixelToGrid (cfg : Config) (pixelX pixelY : Q) : Z * Z :=
  (Qfloor (pixelX / CELL_SIZE cfg), Qfloor (pixelY / CELL_SIZE cfg)).

(** ** Maze generation (recursive backtracker) *)

Record MazeResult : Type := mkMazeResult {
  mr_grid : grid Z;
  finalCols : Z;
  finalRows : Z
}.

(** The locals of the carving loop; the head of [cv_stack] is the top of
    the stack. *)
Record Carver : Type := mkCarver {
  cv_maze : grid Z;
  cv_visited : grid bool;
  cv_stack : list (Z * Z);
  cv_draws : nat
}.

(** Odd dimensions, at least 3. *)
Definition mazeDimension (n : Z) : Z :=
  let m := if Z.rem n 2 =? 0 then n - 1 else n in
  if m <? 3 then 3 else m.

(** The starting cell, from the first two draws, with its fallback. *)
Definition mazeStart (rng : P5.Rng) (mazeCols mazeRows : Z) : Z * Z :=
  let startX := Qfloor (P5.random1 (rng 0%nat) (inject_Z (mazeCols - 1) / 2)) * 2 + 1 in
  let startY := Qfloor (P5.random1 (rng 1%nat) (inject_Z (mazeRows - 1) / 2)) * 2 + 1 in
  if (startX <? 0) || (startX >=? mazeCols) || (startY <? 0) || (startY >=? mazeRows)
  then (1, 1)
  else (startX, startY).

Definition potentialNeighbors (current : Z * Z) : list (Z * Z) :=
  [ (current.1, current.2 - 2);    (* North *)
    (current.1 + 2, current.2);    (* East *)
    (current.1, current.2 + 2);    (* South *)
    (current.1 - 2, current.2) ].  (* West *)

Definition unvisitedNeighbors (mazeCols mazeRows : Z) (visited : grid bool)
    (current : Z * Z) : list (Z * Z) :=
  List.filter
    (fun n => (0 <? n.1) && (n.1 <? mazeCols - 1) && (0 <? n.2) && (n.2 <? mazeRows - 1)
              && negb (bool_decide (grid_lookup visited n.1 n.2 = Some true)))
    (potentialNeighbors current).

(** One turn of [while (stack.length > 0)].  [None] is the fault of
    reading a field of a choice that is not there. *)
Definition carveStep (rng : P5.Rng) (mazeCols mazeRows : Z) (c : Carver) : option Carver :=
  match cv_stack c with
  | [] => Some c
  | current :: rest =>
      let neighbors := unvisitedNeighbors mazeCols mazeRows (cv_visited c) current in
      if (0 <? length neighbors)%nat then
        chosen ← P5.randomChoice (rng (cv_draws c)) neighbors;
        let wallX := current.1 + (chosen.1 - current.1) / 2 in
        let wallY := current.2 + (chosen.2 - current.2) / 2 in
        let maze := grid_set (cv_maze c) wallX wallY 0 in
        let visited := grid_set (cv_visited c) chosen.1 chosen.2 true in
        let maze := grid_set maze chosen.1 chosen.2 0 in
        Some (mkCarver maze visited (chosen :: current :: rest) (S (cv_draws c)))
      else
        Some (mkCarver (cv_maze c) (cv_visited c) rest (cv_draws c))
  end.

Fixpoint carve (fuel : nat) (rng : P5.Rng) (mazeCols mazeRows : Z) (c : Carver)
  : option Carver :=
  match cv_stack c with
  | [] => Some c
  | _ :: _ =>
      match fuel with
      | O => None
      | S f => c' ← carveStep rng mazeCols mazeRows c; carve f rng mazeCols mazeRows c'
      end
  end.

Definition generateMaze (fuel : nat) (rng : P5.Rng) (cols rows : Z) : option MazeResult :=
  let mazeCols := mazeDimension cols in
  let mazeRows := mazeDimension rows in
  let maze := createGrid mazeCols mazeRows 1 in
  let visited := createGrid mazeCols mazeRows false in
  let current := mazeStart rng mazeCols mazeRows in
  let visited := grid_set visited current.1 current.2 true in
  let maze := grid_set maze current.1 current.2 0 in
  c ← carve fuel rng mazeCols mazeRows (mkCarver maze visited [current] 2);
  let maze := grid_set (cv_maze c) 1 1 0 in
  let maze :=
    if (mazeCols >? 2) && (mazeRows >? 2)
    then grid_set maze (mazeCols - 2) (mazeRows - 2) 0
    else maze in
  Some (mkMazeResult maze mazeCols mazeRows).

(** ** Placing colony and food *)

(** How a read [maze[x][y]] ends: with a value, with [undefined] (a column
    that is there, an index that is not), or with the TypeError of
    indexing a column that is not there. *)
Inductive Completion (A : Type) : Type :=
  | Normal (a : A)
  | Throw.
Arguments Normal {A} a.
Arguments Throw {A}.

Definition readCell {A : Type} (g : grid A) (x y : Z) : Completion (option A) :=
  match (if 0 <=? x then g !! Z.to_nat x else None) with
  | None => Throw
  | Some col => Normal (if 0 <=? y then col !! Z.to_nat y else None)
  end.

(** The cell tested at offset [(i, j)] of the ring of [radius]: [None]
    goes on with the scan, [Some] leaves the function. *)
Definition checkRingCell (cfg : Config) (maze : grid Z) (targetX targetY radius i j : Z)
  : option (Completion (option (Z * Z))) :=
  if negb (Z.abs i =? radius) && negb (Z.abs j =? radius) then None
  else
    let checkX := targetX + i in
    let checkY := targetY + j in
    if isValidGridPos cfg checkX checkY then
      match readCell maze checkX checkY with
      | Throw => Some Throw
      | Normal (Some c) => if c =? 0 then Some (Normal (Some (checkX, checkY))) else None
      | Normal None => None
      end
    else None.

Definition findValidPosition (cfg : Config) (maze : grid Z) (targetX targetY : Z)
  : Completion (option (Z * Z)) :=
  let cols := GRID_COLS cfg in
  let rows := GRID_ROWS cfg in
  let targetX := P5.constrainZ targetX 0 (cols - 1) in
  let targetY := P5.constrainZ targetY 0 (rows - 1) in
  match readCell maze targetX targetY with
  | Throw => Throw
  | Normal c =>
      if bool_decide (c = Some 0) then Normal (Some (targetX, targetY))
      else
        match
          for_lt_first 1 (Z.max cols rows) (fun radius =>
            for_le_first (- radius) radius (fun i =>
              for_le_first (- radius) radius (fun j =>
                checkRingCell cfg maze targetX targetY radius i j)))
        with
        | Some r => r
        | None => Normal None
        end
  end.

(** ** Pheromone evaporation *)

(** One cell of [updatePheromones]: [v *= 1.0 - evapRate] and then
    [if (v < 0.01) v = 0], the arithmetic read as exact; [evaporate64]
    below has it with its rounding. *)
Definition evaporate (evapRate v : Q) : Q :=
  let v' := (v * (1.0 - evapRate))%Q in
  if Qlt_le_dec v' 0.01 then 0%Q else v'.

(** [g[i][j] = f(g[i][j])]. *)
Definition grid_modify (f : Q -> Q) (i j : Z) (g : grid Q) : grid Q :=
  match grid_lookup g i j with
  | Some v => grid_set g i j (f v)
  | None => g
  end.

Definition updatePheromones (cfg : Config) (w : Sim) : Sim :=
  let cols := GRID_COLS cfg in
  let rows := GRID_ROWS cfg in
  let evapRate := EVAPORATION_RATE cfg in
  let '(explore, returnPher) :=
    for_lt 0 cols (fun i =>
      for_lt 0 rows (fun j '(explore, returnPher) =>
        (grid_modify (evaporate evapRate) i j explore,
         grid_modify (evaporate evapRate) i j returnPher)))
      (explorePheromones w, returnPheromones w) in
  set_pheromones explore returnPher w.

(** The same cell and the same pass with the arithmetic of the program:
    [1.0 - evapRate] and the product are binary64 operations, and [0.01]
    is the binary64 number nearest to it.  The cell and the rate are
    binary64 numbers; the pass reads the configured rate as the binary64
    number nearest to it, which is what the literal of the configuration
    denotes. *)
Definition evaporate64 (evapRate v : Q) : Q :=
  let v' := B64.mul v (B64.sub 1 evapRate) in
  if Qlt_le_dec v' (B64.round 0.01) then 0%Q else v'.

Definition updatePheromones64 (cfg : Config) (w : Sim) : Sim :=
  let cols := GRID_COLS cfg in
  let rows := GRID_ROWS cfg in
  let evapRate := B64.round (EVAPORATION_RATE cfg) in
  let '(explore, returnPher) :=
    for_lt 0 cols (fun i =>
      for_lt 0 rows (fun j '(explore, returnPher) =>
        (grid_modify (evaporate64 evapRate) i j explore,
         grid_modify (evaporate64 evapRate) i j returnPher)))
      (explorePheromones w, returnPheromones w) in
  set_pheromones explore returnPher w.

(** ** The [Ant] class *)

Definition set_pos (p : P5.Vector) (a : Ant) : Ant :=
  mkAnt p (vel a) (state a) (gridPos a) (history a) (charge a).
Definition set_vel (v : P5.Vector) (a : Ant) : Ant :=
  mkAnt (pos a) v (state a) (gridPos a) (history a) (charge a).
Definition set_state (s : AntState) (a : Ant) : Ant :=
  mkAnt (pos a) (vel a) s (gridPos a) (history a) (charge a).
Definition set_gridPos (g : Z * Z) (a : Ant) : Ant :=
  mkAnt (pos a) (vel a) (state a) g (history a) (charge a).
Definition set_history (h : list (Z * Z)) (a : Ant) : Ant :=
  mkAnt (pos a) (vel a) (state a) (gridPos a) h (charge a).
Definition set_charge (c : Z) (a : Ant) : Ant :=
  mkAnt (pos a) (vel a) (state a) (gridPos a) (history a) c.

(** [while (angleDiff > PI) angleDiff -= TWO_PI] and
    [while (angleDiff < -PI) angleDiff += TWO_PI]. *)
Fixpoint wrap_down (fuel : nat) (angleDiff : Q) : option Q :=
  if Qlt_le_dec P5.PI angleDiff
  then match fuel with
       | O => None
       | S f => wrap_down f (angleDiff - P5.TWO_PI)%Q
       end
  else Some angleDiff.

Fixpoint wrap_up (fuel : nat) (angleDiff : Q) : option Q :=
  if Qlt_le_dec angleDiff (- P5.PI)
  then match fuel with
       | O => None
       | S f => wrap_up f (angleDiff + P5.TWO_PI)%Q
       end
  else Some angleDiff.

(** The heading after steering from [currentAngle] towards
    [desiredAngle], before the random turn: lines 526-530 of [move]. *)
Definition steer (cfg : Config) (fuel : nat) (currentAngle desiredAngle : Q) : option Q :=
  let angleDiff := (desiredAngle - currentAngle)%Q in
  angleDiff ← wrap_down fuel angleDiff;
  angleDiff ← wrap_up fuel angleDiff;
  let turn := P5.constrain angleDiff (- TURN_ANGLE cfg) (TURN_ANGLE cfg) in
  Some (currentAngle + turn)%Q.

Section AntClass.

Variable cfg : Config.
Variable trig : P5.Trig.
Variable rng : P5.Rng.

(** [new Ant(gridX, gridY)]; the heading comes from the next draw. *)
Definition newAnt (gridX gridY : Z) (w : Sim) : Ant * Sim :=
  ({| pos := gridToPixel cfg gridX gridY;
      vel := P5.mult (P5.random2D trig (rng (draws w))) (ANT_SPEED cfg);
      state := searching;
      gridPos := (gridX, gridY);
      history := [];
      charge := PHEROMONE_DURATION cfg |},
   set_draws (S (draws w)) w).

Definition updateGridPos (a : Ant) : Ant :=
  let currentGrid := pixelToGrid cfg (P5.vx (pos a)) (P5.vy (pos a)) in
  set_gridPos (P5.constrainZ currentGrid.1 0 (GRID_COLS cfg - 1),
               P5.constrainZ currentGrid.2 0 (GRID_ROWS cfg - 1)) a.

(** The history is kept oldest first: [push] adds at the end, [shift]
    drops the head. *)
Definition addToHistory (a : Ant) : Ant :=
  let differs :=
    match last (history a) with
    | None => true
    | Some l => negb (l.1 =? (gridPos a).1) || negb (l.2 =? (gridPos a).2)
    end in
  if differs then
    let h := history a ++ [gridPos a] in
    if Z.of_nat (length h) >? ANT_HISTORY_LENGTH cfg
    then set_history (tail h) a
    else set_history h a
  else a.

(** Every entry but the newest is looked at. *)
Definition wasRecentlyVisited (a : Ant) (gridX gridY : Z) : bool :=
  existsb (fun h => (h.1 =? gridX) && (h.2 =? gridY)) (removelast (history a)).

Definition checkEnvironment (a : Ant) (w : Sim) : Ant * Sim :=
  let gx := inject_Z (gridPos a).1 in
  let gy := inject_Z (gridPos a).2 in
  match state a with
  | searching =>
      if P5.dist_le gx gy (inject_Z (foodPos w).1) (inject_Z (foodPos w).2)
                    (FOOD_DETECTION_RADIUS cfg)
      then (set_charge (PHEROMONE_DURATION cfg)
              (set_vel (P5.mult (vel a) (-1)) (set_state returning a)), w)
      else (a, w)
  | returning =>
      if P5.dist_le gx gy (inject_Z (colonyPos w).1) (inject_Z (colonyPos w).2)
                    (COLONY_DETECTION_RADIUS cfg)
      then (set_charge (PHEROMONE_DURATION cfg)
              (set_vel (P5.mult (P5.random2D trig (rng (draws w))) (ANT_SPEED cfg))
                 (set_state searching a)),
            set_foodFoundCount (foodFoundCount w + 1) (set_draws (S (draws w)) w))
      else (a, w)
  end.

(** The body of the inner loop of [senseAndDecideAngle] splits in two.
    First the probe: [senseVec.mult(senseDist)] scales [senseVec] itself
    and hands the same vector back, so the scaled vector is also the one
    the next turn of the loop starts from. *)
Definition senseDist (distMultiplier : Q) : Q :=
  (CELL_SIZE cfg * SENSE_RADIUS cfg * distMultiplier)%Q.

Definition probe (a : Ant) (senseVec : P5.Vector) (distMultiplier : Q)
  : P5.Vector * (Z * Z) :=
  let senseVec := P5.mult senseVec (senseDist distMultiplier) in
  let checkPos := P5.add (pos a) senseVec in
  (senseVec, pixelToGrid cfg (P5.vx checkPos) (P5.vy checkPos)).

(** Then the score of the probed cell.  The running state is
    [maxPheromone], [bestAngle] and the index of the next draw. *)
Definition score (a : Ant) (w : Sim) (targetPheromones : grid Q)
    (checkAngle : Q) (checkGrid : Z * Z) (acc : Q * Q * nat) : Q * Q * nat :=
  let '(maxPheromone, bestAngle, k) := acc in
  let '(x, y) := checkGrid in
  if isValidGridPos cfg x y
     && bool_decide (grid_lookup (maze w) x y = Some 0)
     && negb (wasRecentlyVisited a x y)
  then
    let pheromoneLevel := default 0%Q (grid_lookup targetPheromones x y) in
    let weightedLevel := (pheromoneLevel * FOLLOW_STRENGTH_WEIGHT cfg)%Q in
    let weightedLevel :=
      (weightedLevel + P5.random2 (rng k) 0 (PHEROMONE_MAX cfg * 0.1))%Q in
    if Qlt_le_dec maxPheromone weightedLevel
    then (weightedLevel, checkAngle, S k)
    else (maxPheromone, bestAngle, S k)
  else acc.

Definition senseAndDecideAngle (fuel : nat) (a : Ant) (w : Sim) : option (Q * Sim) :=
  let targetGridPos :=
    match state a with searching => foodPos w | returning => colonyPos w end in
  if P5.dist_le (inject_Z (gridPos a).1) (inject_Z (gridPos a).2)
                (inject_Z targetGridPos.1) (inject_Z targetGridPos.2)
                (GOAL_SENSE_RADIUS cfg)
  then
    let targetPixelPos := gridToPixel cfg targetGridPos.1 targetGridPos.2 in
    let directAngle :=
      P5.atan2 trig (P5.vy targetPixelPos - P5.vy (pos a))%Q
                    (P5.vx targetPixelPos - P5.vx (pos a))%Q in
    Some (directAngle, w)
  else
    let currentAngle := P5.heading trig (vel a) in
    let targetPheromones :=
      match state a with
      | searching => returnPheromones w
      | returning => explorePheromones w
      end in
    r ← for_float fuel (- SENSE_ANGLE cfg / 2)%Q (SENSE_ANGLE cfg / 2)%Q
          (SENSE_ANGLE cfg / 4)%Q
          (fun angleOffset acc =>
             let checkAngle := (currentAngle + angleOffset)%Q in
             let senseVec := P5.fromAngle trig checkAngle in
             snd <$> for_float fuel 0.5%Q 1.5%Q 0.5%Q
               (fun distMultiplier '(senseVec, acc) =>
                  let '(senseVec, checkGrid) := probe a senseVec distMultiplier in
                  Some (senseVec, score a w targetPheromones checkAngle checkGrid acc))
               (senseVec, acc))
          ((-1)%Q, currentAngle, draws w);
    let '(maxPheromone, bestAngle, k) := r in
    if Qle_bool maxPheromone 0
    then Some ((currentAngle
                + P5.random2 (rng k) (- TURN_ANGLE cfg * 0.5) (TURN_ANGLE cfg * 0.5))%Q,
               set_draws (S k) w)
    else Some (bestAngle, set_draws k w).

Definition move (fuel : nat) (a : Ant) (w : Sim) : option (Ant * Sim) :=
  '(desiredAngle, w) ← senseAndDecideAngle fuel a w;
  let currentAngle := P5.heading trig (vel a) in
  newAngle ← steer cfg fuel currentAngle desiredAngle;
  let '(newAngle, w) :=
    if Qlt_le_dec (P5.random1 (rng (draws w)) 1) (RANDOM_TURN_CHANCE cfg)
    then ((newAngle + P5.random2 (rng (S (draws w)))
                        (- TURN_ANGLE cfg * 0.5) (TURN_ANGLE cfg * 0.5))%Q,
          set_draws (S (S (draws w))) w)
    else (newAngle, set_draws (S (draws w)) w) in
  let a := set_vel (P5.mult (P5.fromAngle trig newAngle) (ANT_SPEED cfg)) a in
  let nextPos := P5.add (pos a) (vel a) in
  let nextGrid := pixelToGrid cfg (P5.vx nextPos) (P5.vy nextPos) in
  let '(a, w) :=
    if isValidGridPos cfg nextGrid.1 nextGrid.2
       && negb (bool_decide (grid_lookup (maze w) nextGrid.1 nextGrid.2 = Some 1))
    then (set_pos nextPos a, w)
    else (set_vel (P5.mult (P5.random2D trig (rng (draws w))) (ANT_SPEED cfg)) a,
          set_draws (S (draws w)) w) in
  (* [width] and [height] are the canvas sizes [setup] made. *)
  let width := (CELL_SIZE cfg * inject_Z (GRID_COLS cfg))%Q in
  let height := (CELL_SIZE cfg * inject_Z (GRID_ROWS cfg))%Q in
  Some (set_pos (P5.createVector (P5.constrain (P5.vx (pos a)) 0 width)
                                 (P5.constrain (P5.vy (pos a)) 0 height)) a,
        w).

(** The amount laid for a charge, and the cell after the deposit. *)
Definition depositionRate (charge : Z) (rate : Q) : Q :=
  Qmax 0 (P5.map (inject_Z charge) 0 (inject_Z (PHEROMONE_DURATION cfg)) 0 rate).

Definition deposit (amount v : Q) : Q :=
  Qmin (v + amount) (PHEROMONE_MAX cfg).

Definition depositPheromone (a : Ant) (w : Sim) : Sim :=
  let '(gridX, gridY) := gridPos a in
  if charge a <=? 0 then w
  else if isValidGridPos cfg gridX gridY then
    match state a with
    | searching =>
        let currentDepositionRate :=
          depositionRate (charge a) (DEPOSITION_RATE_EXPLORE cfg) in
        set_pheromones
          (grid_modify (deposit currentDepositionRate) gridX gridY
             (explorePheromones w))
          (returnPheromones w) w
    | returning =>
        let currentDepositionRate :=
          depositionRate (charge a) (DEPOSITION_RATE_RETURN cfg) in
        set_pheromones
          (explorePheromones w)
          (grid_modify (deposit currentDepositionRate) gridX gridY
             (returnPheromones w)) w
    end
  else w.

Definition update (fuel : nat) (a : Ant) (w : Sim) : option (Ant * Sim) :=
  let a := updateGridPos a in
  let '(a, w) := checkEnvironment a w in
  let a := set_charge (Z.max 0 (charge a - 1)) a in
  '(a, w) ← move fuel a w;
  let w := depositPheromone a w in
  let a := addToHistory a in
  Some (a, w).

Definition drawing (a : Ant) : Drawn :=
  mkDrawn (pos a) (P5.heading trig (vel a)) (state a).

Definition display (a : Ant) (w : Sim) : Sim :=
  set_canvas (canvas w ++ [drawing a]) w.

(** ** The frame *)

(** [ants[i].update(); ants[i].display()], written back to slot [i]. *)
Definition updateAndDrawAnt (fuel : nat) (i : Z) (w : Sim) : option Sim :=
  a ← ants w !! Z.to_nat i;
  '(a, w) ← update fuel a w;
  let w := set_ants (<[Z.to_nat i := a]> (ants w)) w in
  Some (display a w).

Definition updateAndDrawAnts (fuel : nat) (w : Sim) : option Sim :=
  for_down (length (ants w)) (updateAndDrawAnt fuel) w.

(** [millis()] is the argument [now]. *)
Definition spawnNewAnts (now : Q) (w : Sim) : Sim :=
  if (Z.of_nat (length (ants w)) <? NUM_ANTS cfg)
     && (if Qlt_le_dec (SPAWN_INTERVAL cfg) (now - lastAntSpawnTime w) then true else false)
  then
    let '(a, w) := newAnt (colonyPos w).1 (colonyPos w).2 w in
    set_lastAntSpawnTime now (set_ants (ants w ++ [a]) w)
  else w.

(** One frame.  [background] wipes the canvas; the drawing of the
    pheromones, the maze, the colony, the food and the two lines of text
    reads the state and is left out. *)
Definition draw (fuel : nat) (now : Q) (w : Sim) : option Sim :=
  let w := set_canvas [] w in
  let w := updatePheromones cfg w in
  w ← updateAndDrawAnts fuel w;
  Some (spawnNewAnts now w).

End AntClass.

(** ** Setup *)

(** The index of the next draw when [generateMaze] returns: its two draws
    for the start and one for each move of the carving loop. *)
Definition generateMazeDraws (fuel : nat) (rng : P5.Rng) (cols rows : Z) : option nat :=
  let mazeCols := mazeDimension cols in
  let mazeRows := mazeDimension rows in
  let maze := createGrid mazeCols mazeRows 1 in
  let visited := createGrid mazeCols mazeRows false in
  let current := mazeStart rng mazeCols mazeRows in
  let visited := grid_set visited current.1 current.2 true in
  let maze := grid_set maze current.1 current.2 0 in
  cv_draws <$> carve fuel rng mazeCols mazeRows (mkCarver maze visited [current] 2).

(** [simulationConfig] with the three fields [setup] assigns. *)
Definition set_geometry (cols rows : Z) (cellSize : Q) (cfg : Config) : Config :=
  mkConfig (NUM_ANTS cfg) (ANT_SPEED cfg) (EVAPORATION_RATE cfg)
           (DEPOSITION_RATE_EXPLORE cfg) (DEPOSITION_RATE_RETURN cfg)
           (PHEROMONE_MAX cfg) (PHEROMONE_DURATION cfg) (SENSE_RADIUS cfg)
           (GOAL_SENSE_RADIUS cfg) (SENSE_ANGLE cfg) (TURN_ANGLE cfg)
           (FOLLOW_STRENGTH_WEIGHT cfg) (RANDOM_TURN_CHANCE cfg)
           (FOOD_DETECTION_RADIUS cfg) (COLONY_DETECTION_RADIUS cfg)
           (ANT_HISTORY_LENGTH cfg) cols rows cellSize (SPAWN_INTERVAL cfg).

(** How [setup] ends: with the simulation ready, with the error of a
    colony or food that could not be placed (after which nothing is
    drawn), or with a fault. *)
Inductive SetupOutcome : Type :=
  | SetupReady (cfg : Config) (w : Sim)
  | SetupFailed (cfg : Config) (w : Sim)
  | SetupFault.

Section SetupCode.

Variable trig : P5.Trig.
Variable rng : P5.Rng.

(** [for (let i = 0; i < NUM_ANTS / 10; i++) ants.push(new Ant(...))]. *)
Fixpoint spawnLoop (cfg : Config) (fuel : nat) (i : Z) (w : Sim) : option Sim :=
  if Qlt_le_dec (inject_Z i) (inject_Z (NUM_ANTS cfg) / 10)
  then match fuel with
       | O => None
       | S f =>
           let '(a, w) := newAnt cfg trig rng (colonyPos w).1 (colonyPos w).2 w in
           spawnLoop cfg f (i + 1) (set_ants (ants w ++ [a]) w)
       end
  else Some w.

Definition spawnInitialAnts (cfg : Config) (fuel : nat) (now : Q) (w : Sim) : option Sim :=
  w ← spawnLoop cfg fuel 0 (set_ants [] w);
  Some (set_lastAntSpawnTime now w).

(** [setup], with the window's size and [millis()] as arguments; the
    canvas and the colours are left out.  The draws of the run start
    here.  The quotients are exact; for a window of height 0 the source
    divides by zero, and the [CELL_SIZE] computed here is then not the
    one of the source. *)
Definition setup (fuel : nat) (windowWidth windowHeight now : Q)
    (cfg : Config) (w : Sim) : option SetupOutcome :=
  mazeResult ← generateMaze fuel rng (GRID_COLS cfg) (GRID_ROWS cfg);
  k ← generateMazeDraws fuel rng (GRID_COLS cfg) (GRID_ROWS cfg);
  let cols := finalCols mazeResult in
  let rows := finalRows mazeResult in
  let aspectRatio := (inject_Z cols / inject_Z rows)%Q in
  let canvasWidth := (windowWidth * 0.9)%Q in
  let canvasHeight := (windowHeight * 0.9)%Q in
  let canvasWidth :=
    if Qlt_le_dec aspectRatio (canvasWidth / canvasHeight)
    then (windowHeight * 0.9 * aspectRatio)%Q
    else (windowWidth * 0.9)%Q in
  let cfg := set_geometry cols rows
               (inject_Z (Qfloor (canvasWidth / inject_Z cols))) cfg in
  let w := mkSim (mr_grid mazeResult)
                 (createGrid cols rows 0%Q) (createGrid cols rows 0%Q)
                 (ants w) (colonyPos w) (foodPos w) (foodFoundCount w)
                 (lastAntSpawnTime w) k (canvas w) in
  match findValidPosition cfg (maze w) 1 1,
        findValidPosition cfg (maze w) (cols - 2) (rows - 2) with
  | Normal (Some colony), Normal (Some food) =>
      let w := mkSim (maze w) (explorePheromones w) (returnPheromones w) (ants w)
                     colony food (foodFoundCount w) (lastAntSpawnTime w)
                     (draws w) (canvas w) in
      SetupReady cfg <$> spawnInitialAnts cfg fuel now w
  | Normal _, Normal _ => Some (SetupFailed cfg w)
  | _, _ => Some SetupFault
  end.

End SetupCode.

(* ================================================================== *)
(** * Notions used to state the properties *)

(** Every cell of a field lies between 0 and [PHEROMONE_MAX]. *)
Definition field_bounded (cfg : Config) (g : grid Q) : Prop :=
  forall x y v, grid_lookup g x y = Some v -> (0 <= v <= PHEROMONE_MAX cfg)%Q.

Definition fields_bounded (cfg : Config) (w : Sim) : Prop :=
  field_bounded cfg (explorePheromones w) /\ field_bounded cfg (returnPheromones w).

(** ** Placement, as the ring search is described *)

(** [n] consecutive integers from [lo]. *)
Fixpoint zseq (lo : Z) (n : nat) : list Z :=
  match n with
  | O => []
  | S n' => lo :: zseq (lo + 1) n'
  end.

(** Chebyshev distance of two cells. *)
Definition chebyshev (a b : Z * Z) : Z :=
  Z.max (Z.abs (a.1 - b.1)) (Z.abs (a.2 - b.2)).

(** The square of cells within [radius] of [target], column by column. *)
Definition square (target : Z * Z) (radius : Z) : list (Z * Z) :=
  flat_map (fun x => List.map (fun y => (x, y))
                       (zseq (target.2 - radius) (Z.to_nat (2 * radius + 1))))
           (zseq (target.1 - radius) (Z.to_nat (2 * radius + 1))).

(** The perimeter of that square: the cells at distance exactly
    [radius]. *)
Definition ring (target : Z * Z) (radius : Z) : list (Z * Z) :=
  List.filter (fun c => chebyshev c target =? radius) (square target radius).

(** An in-bounds [Path] cell. *)
Definition isOpen (cfg : Config) (maze : grid Z) (c : Z * Z) : bool :=
  isValidGridPos cfg c.1 c.2 && bool_decide (grid_lookup maze c.1 c.2 = Some 0).

(** The rings of radius 1, 2, ... below the larger grid dimension, one
    after the other. *)
Definition scanOrder (cfg : Config) (target : Z * Z) : list (Z * Z) :=
  flat_map (ring target)
           (zseq 1 (Z.to_nat (Z.max (GRID_COLS cfg) (GRID_ROWS cfg) - 1))).

(** [placeNear]: the target if it is open, else the first open cell in
    the order of the rings. *)
Definition placeNear (cfg : Config) (maze : grid Z) (target : Z * Z) : option (Z * Z) :=
  if bool_decide (grid_lookup maze target.1 target.2 = Some 0) then Some target
  else List.find (isOpen cfg maze) (scanOrder cfg target).

(** The first answer a function gives along a list. *)
Fixpoint first_some {A R : Type} (f : A -> option R) (l : list A) : option R :=
  match l with
  | [] => None
  | x :: l' =>
      match f x with
      | Some r => Some r
      | None => first_some f l'
      end
  end.

(** ** Mazes *)

Definition isPath (maze : grid Z) (p : Z * Z) : Prop :=
  grid_lookup maze p.1 p.2 = Some Path.

Definition isWall (maze : grid Z) (p : Z * Z) : Prop :=
  grid_lookup maze p.1 p.2 = Some Wall.

(** Strictly inside the border of a [cols] by [rows] grid, and on it. *)
Definition interior (cols rows : Z) (p : Z * Z) : Prop :=
  0 < p.1 < cols - 1 /\ 0 < p.2 < rows - 1.

Definition onBorder (cols rows : Z) (p : Z * Z) : Prop :=
  (0 <= p.1 < cols /\ 0 <= p.2 < rows) /\
  (p.1 = 0 \/ p.1 = cols - 1 \/ p.2 = 0 \/ p.2 = rows - 1).

(** Orthogonal neighbours. *)
Definition adjacent (p q : Z * Z) : Prop :=
  Z.abs (p.1 - q.1) + Z.abs (p.2 - q.2) = 1.

(** The cells a breadth-first search from [start] visits: [start] if it
    is [Path], and every [Path] cell next to a visited one. *)
Inductive reached (maze : grid Z) (start : Z * Z) : Z * Z -> Prop :=
  | reached_start : isPath maze start -> reached maze start start
  | reached_step p q :
      reached maze start p -> adjacent p q -> isPath maze q -> reached maze start q.

(** The cells of the carving loop's [visited] grid still [false]. *)
Definition unvisitedCount (visited : grid bool) : nat :=
  length (List.filter negb (concat visited)).

Definition isVisited (visited : grid bool) (p : Z * Z) : Prop :=
  grid_lookup visited p.1 p.2 = Some true.

(** What holds of the locals each time the carving loop tests its
    condition. *)
Record CarveInv (cols rows : Z) (start : Z * Z) (c : Carver) : Prop := {
  inv_maze_dims : grid_dims cols rows (cv_maze c);
  inv_visited_dims : grid_dims cols rows (cv_visited c);
  inv_cells : forall x y v, grid_lookup (cv_maze c) x y = Some v -> v = Path \/ v = Wall;
  inv_path : forall p, isPath (cv_maze c) p ->
                       interior cols rows p /\ reached (cv_maze c) start p;
  inv_visited : forall p, isVisited (cv_visited c) p -> isPath (cv_maze c) p;
  inv_stack : forall p, In p (cv_stack c) -> isVisited (cv_visited c) p;
  inv_done : forall p n, isVisited (cv_visited c) p -> ~ In p (cv_stack c) ->
                         In n (potentialNeighbors p) -> interior cols rows n ->
                         isVisited (cv_visited c) n;
  inv_start : isVisited (cv_visited c) start
}.

(** Fuel that lets the carving loop of [generateMaze(cols, rows)] end. *)
Definition mazeFuel (cols rows : Z) : nat :=
  S (2 * Z.to_nat (mazeDimension cols * mazeDimension rows)).

(** ** Sensing *)

(** One probe of the sensing loops: the angle offset and the distance
    multiplier of the turn, and the cell tested. *)
Record Probe : Type := mkProbe {
  probe_offset : Q;
  probe_multiplier : Q;
  probe_cell : Z * Z
}.

(** The probes made by the two loops of [senseAndDecideAngle], in the
    order in which they are made: the same loops, with the scoring of the
    cell replaced by a note of the probe. *)
Definition senseProbes (cfg : Config) (trig : P5.Trig) (fuel : nat) (a : Ant)
  : option (list Probe) :=
  let currentAngle := P5.heading trig (vel a) in
  for_float fuel (- SENSE_ANGLE cfg / 2)%Q (SENSE_ANGLE cfg / 2)%Q
    (SENSE_ANGLE cfg / 4)%Q
    (fun angleOffset log =>
       let checkAngle := (currentAngle + angleOffset)%Q in
       let senseVec := P5.fromAngle trig checkAngle in
       snd <$> for_float fuel 0.5%Q 1.5%Q 0.5%Q
         (fun distMultiplier '(senseVec, log) =>
            let '(senseVec, checkGrid) := probe cfg a senseVec distMultiplier in
            Some (senseVec, log ++ [mkProbe angleOffset distMultiplier checkGrid]))
         (senseVec, log))
    [].

(** The heading chosen from the probes: each is scored in turn, and the
    best is kept unless nothing scored above 0. *)
Definition decideAngle (cfg : Config) (trig : P5.Trig) (rng : P5.Rng)
    (a : Ant) (w : Sim) (probes : list Probe) : Q * Sim :=
  let currentAngle := P5.heading trig (vel a) in
  let targetPheromones :=
    match state a with
    | searching => returnPheromones w
    | returning => explorePheromones w
    end in
  let '(maxPheromone, bestAngle, k) :=
    fold_left (fun acc p =>
                 score cfg rng a w targetPheromones
                       (currentAngle + probe_offset p)%Q (probe_cell p) acc)
              probes ((-1)%Q, currentAngle, draws w) in
  if Qle_bool maxPheromone 0
  then ((currentAngle
         + P5.random2 (rng k) (- TURN_ANGLE cfg * 0.5) (TURN_ANGLE cfg * 0.5))%Q,
        set_draws (S k) w)
  else (bestAngle, set_draws k w).

(** The agent is farther than [GOAL_SENSE_RADIUS] from its goal. *)
Definition farFromGoal (cfg : Config) (a : Ant) (w : Sim) : Prop :=
  let targetGridPos :=
    match state a with searching => foodPos w | returning => colonyPos w end in
  P5.dist_le (inject_Z (gridPos a).1) (inject_Z (gridPos a).2)
             (inject_Z targetGridPos.1) (inject_Z targetGridPos.2)
             (GOAL_SENSE_RADIUS cfg) = false.

(** The five offsets and three multipliers the loop counters run
    through, as the additions of the loops produce them. *)
Definition coneOffsets (cfg : Config) : list Q :=
  let o := (- SENSE_ANGLE cfg / 2)%Q in
  let d := (SENSE_ANGLE cfg / 4)%Q in
  [o; o + d; o + d + d; o + d + d + d; o + d + d + d + d]%Q.

Definition coneMultipliers : list Q := [0.5; 0.5 + 0.5; 0.5 + 0.5 + 0.5]%Q.

(** The probes of one call when the loops run their full course: along
    each offset in turn, one probe per multiplier, each starting from the
    vector the probe before it left behind. *)
Definition coneProbes (cfg : Config) (trig : P5.Trig) (a : Ant) : list Probe :=
  let currentAngle := P5.heading trig (vel a) in
  fold_left
    (fun log angleOffset =>
       snd (fold_left
              (fun '(senseVec, log) distMultiplier =>
                 let '(senseVec, checkGrid) := probe cfg a senseVec distMultiplier in
                 (senseVec, log ++ [mkProbe angleOffset distMultiplier checkGrid]))
              coneMultipliers
              (P5.fromAngle trig (currentAngle + angleOffset)%Q, log)))
    (coneOffsets cfg) [].

(** An option-valued step folded along a list. *)
Fixpoint foldM {A St : Type} (step : A -> St -> option St) (l : list A) (s : St)
  : option St :=
  match l with
  | [] => Some s
  | x :: l' =>
      match step x s with
      | Some s' => foldM step l' s'
      | None => None
      end
  end.

(** ** A small world to run the program on *)

(** Trigonometry that is exact along the positive x axis, which is all
    the runs below use: [atan2(0, x) = 0] and [heading] 0 for [x > 0],
    and [fromAngle(0) = (1, 0)].  Off the axis it answers the angle 1000
    and the zero vector, which stand for "not known". *)
Definition axisTrig : P5.Trig := {|
  P5.fromAngle := fun angle =>
    if Qeq_bool angle 0 then P5.createVector 1 0 else P5.createVector 0 0;
  P5.heading := fun v =>
    if Qeq_bool (P5.vy v) 0 && negb (Qle_bool (P5.vx v) 0) then 0%Q else 1000%Q;
  P5.atan2 := fun y x =>
    if Qeq_bool y 0 && negb (Qle_bool x 0) then 0%Q else 1000%Q
|}.

(** Draws of [random] that are all one half. *)
Definition halfRng : P5.Rng := fun _ => 0.5%Q.

(** [simulationConfig] on a grid of 7 by 3 cells of 40 pixels. *)
Definition corridorConfig : Config := {|
  NUM_ANTS := 600;
  ANT_SPEED := 1;
  EVAPORATION_RATE := 0.005;
  DEPOSITION_RATE_EXPLORE := 15;
  DEPOSITION_RATE_RETURN := 15;
  PHEROMONE_MAX := 255;
  PHEROMONE_DURATION := 5000;
  SENSE_RADIUS := 1.1;
  GOAL_SENSE_RADIUS := 2;
  SENSE_ANGLE := P5.PI / 2.5;
  TURN_ANGLE := P5.PI / 6;
  FOLLOW_STRENGTH_WEIGHT := 5;
  RANDOM_TURN_CHANCE := 0.1;
  FOOD_DETECTION_RADIUS := 1;
  COLONY_DETECTION_RADIUS := 1;
  ANT_HISTORY_LENGTH := 20;
  GRID_COLS := 7;
  GRID_ROWS := 3;
  CELL_SIZE := 40;
  SPAWN_INTERVAL := 100
|}.

(** The maze of that size: the corridor from (1,1) to (5,1) inside the
    border wall. *)
Definition corridorMaze : grid Z :=
  [[1; 1; 1]; [1; 0; 1]; [1; 0; 1]; [1; 0; 1]; [1; 0; 1]; [1; 0; 1]; [1; 1; 1]].

(** Two searching agents in cell (3,1), heading east: the first half a
    pixel before the edge of the cell, the second nine pixels behind
    it. *)
Definition firstAnt : Ant := {|
  pos := P5.createVector 159.5 60;
  vel := P5.createVector 1 0;
  state := searching;
  gridPos := (3, 1);
  history := [];
  charge := 100
|}.

Definition secondAnt : Ant := {|
  pos := P5.createVector 150.5 60;
  vel := P5.createVector 1 0;
  state := searching;
  gridPos := (3, 1);
  history := [];
  charge := 100
|}.

(** A searching agent at the colony, four cells from the food. *)
Definition farAnt : Ant := {|
  pos := P5.createVector 60 60;
  vel := P5.createVector 1 0;
  state := searching;
  gridPos := (1, 1);
  history := [];
  charge := 100
|}.

(** Colony at (1,1), food at (5,1), no pheromone yet, explore cell (3,1)
    apart, which holds 200. *)
Definition corridorWorld : Sim := {|
  maze := corridorMaze;
  explorePheromones := grid_set (createGrid 7 3 0%Q) 3 1 200%Q;
  returnPheromones := createGrid 7 3 0%Q;
  ants := [firstAnt; secondAnt];
  colonyPos := (1, 1);
  foodPos := (5, 1);
  foodFoundCount := 0;
  lastAntSpawnTime := 0;
  draws := 0;
  canvas := []
|}.

(** A test that decides [field_bounded]. *)
Definition field_boundedb (cfg : Config) (g : grid Q) : bool :=
  forallb (forallb (fun v => Qle_bool 0 v && Qle_bool v (PHEROMONE_MAX cfg))) g.

(** ** Agents *)

(** The agent's position lies over a cell of the grid that is not a
    wall. *)
Definition standsOnOpen (cfg : Config) (w : Sim) (a : Ant) : Prop :=
  let g := pixelToGrid cfg (P5.vx (pos a)) (P5.vy (pos a)) in
  isValidGridPos cfg g.1 g.2 = true /\ grid_lookup (maze w) g.1 g.2 <> Some Wall.

(** No two neighbouring entries of a history are the same cell. *)
Definition noRepeat (h : list (Z * Z)) : Prop :=
  forall i x y, h !! i = Some x -> h !! S i = Some y -> x <> y.

(** The test a probed cell has to pass to be scored. *)
Definition eligible (cfg : Config) (a : Ant) (w : Sim) (c : Z * Z) : bool :=
  isValidGridPos cfg c.1 c.2
  && bool_decide (grid_lookup (maze w) c.1 c.2 = Some 0)
  && negb (wasRecentlyVisited a c.1 c.2).

(** The tests of [checkEnvironment], on the cell under the agent. *)
Definition atFood (cfg : Config) (w : Sim) (a : Ant) : bool :=
  let g := gridPos (updateGridPos cfg a) in
  P5.dist_le (inject_Z g.1) (inject_Z g.2)
             (inject_Z (foodPos w).1) (inject_Z (foodPos w).2)
             (FOOD_DETECTION_RADIUS cfg).

Definition atColony (cfg : Config) (w : Sim) (a : Ant) : bool :=
  let g := gridPos (updateGridPos cfg a) in
  P5.dist_le (inject_Z g.1) (inject_Z g.2)
             (inject_Z (colonyPos w).1) (inject_Z (colonyPos w).2)
             (COLONY_DETECTION_RADIUS cfg).

(** The agent changes its state in this step. *)
Definition transits (cfg : Config) (w : Sim) (a : Ant) : bool :=
  match state a with
  | searching => atFood cfg w a
  | returning => atColony cfg w a
  end.

(** The agents [spawnInitialAnts] creates. *)
Definition spawnCount (cfg : Config) : nat :=
  Z.to_nat (Qceiling (inject_Z (NUM_ANTS cfg) / 10)).

(** Cells of the carving loop by the parity of their coordinates: the
    stack holds cells with both coordinates odd, and no cell with both
    coordinates even is opened. *)
Definition carveParity (c : Carver) : Prop :=
  (forall p, In p (cv_stack c) -> Z.Odd p.1 /\ Z.Odd p.2) /\
  (forall p, isPath (cv_maze c) p -> Z.Odd p.1 \/ Z.Odd p.2).

(** Fuel for [setup]: for the carving loop and for the loop of
    [spawnInitialAnts]. *)
Definition setupFuel (cfg : Config) : nat :=
  Nat.max (mazeFuel (GRID_COLS cfg) (GRID_ROWS cfg)) (spawnCount cfg).

(** An agent as the constructor leaves it, at the cell [c]. *)
Definition freshAt (cfg : Config) (c : Z * Z) (a : Ant) : Prop :=
  pos a = gridToPixel cfg c.1 c.2 /\ gridPos a = c /\ state a = searching /\
  charge a = PHEROMONE_DURATION cfg /\ history a = [].

(** ** Binary64 numbers *)

(** A binary64 number that is not negative: 0, or a significand below
    2^53 times a power of two, the significand at least 2^52 unless the
    exponent is the least one.  No upper limit is put on the exponent:
    the largest binary64 number is not part of the notion. *)
Definition binary64 (v : Q) : Prop :=
  (v == 0)%Q \/
  exists m e, (v == inject_Z m * B64.pow2 e)%Q /\ 0 < m < 2 ^ 53 /\ -1074 <= e /\
              (e = -1074 \/ 2 ^ 52 <= m).

Definition field_binary64 (g : grid Q) : Prop :=
  forall x y v, grid_lookup g x y = Some v -> binary64 v.

Definition fields_binary64 (w : Sim) : Prop :=
  field_binary64 (explorePheromones w) /\ field_binary64 (returnPheromones w).

(** A test that decides [binary64]: rounding leaves the number as it
    is. *)
Definition binary64b (v : Q) : bool :=
  Qle_bool 0 v && Qeq_bool (B64.round v) v.

Definition field_binary64b (g : grid Q) : bool :=
  forallb (forallb binary64b) g.

(* ================================================================== *)
(** * Properties *)

(** ** Loops *)

Lemma for_up_ind {St : Type} (I : Z -> St -> Prop) (body : Z -> St -> St) :
  forall n lo s,
    I lo s ->
    (forall i s, lo <= i < lo + Z.of_nat n -> I i s -> I (i + 1) (body i s)) ->
    I (lo + Z.of_nat n) (for_up n lo body s).
Proof.
  induction n as [|n IH]; intros lo s H0 Hstep; simpl.
  - by replace (lo + Z.of_nat 0) with lo by lia.
  - replace (lo + Z.of_nat (S n)) with ((lo + 1) + Z.of_nat n) by lia.
    apply IH.
    + apply Hstep; [lia | done].
    + intros i s' Hi. apply Hstep. lia.
Qed.

Lemma for_lt_ind {St : Type} (I : Z -> St -> Prop) (body : Z -> St -> St) lo hi s :
  lo <= hi ->
  I lo s ->
  (forall i s, lo <= i < hi -> I i s -> I (i + 1) (body i s)) ->
  I hi (for_lt lo hi body s).
Proof.
  intros Hle H0 Hstep. unfold for_lt.
  replace hi with (lo + Z.of_nat (Z.to_nat (hi - lo))) at 1 by lia.
  apply for_up_ind; [done|].
  intros i s' Hi. apply Hstep. lia.
Qed.

Lemma for_lt_empty {St : Type} (body : Z -> St -> St) lo hi s :
  hi <= lo -> for_lt lo hi body s = s.
Proof.
  intros H. unfold for_lt. by replace (Z.to_nat (hi - lo)) with 0%nat by lia.
Qed.

(** ** Grids *)

Section GridFacts.

Context {A : Type}.
Implicit Types (g : grid A) (x y : Z) (v : A).

Lemma grid_lookup_Some g x y v :
  grid_lookup g x y = Some v <->
  0 <= x /\ 0 <= y /\
  exists col, g !! Z.to_nat x = Some col /\ col !! Z.to_nat y = Some v.
Proof.
  unfold grid_lookup.
  destruct (Z.leb_spec 0 x), (Z.leb_spec 0 y); simpl;
    try (split; [done | intros (? & ? & _); lia]).
  destruct (g !! Z.to_nat x) as [col|] eqn:E; simpl.
  - split; [intros; eauto 6 | intros (_ & _ & c & [= <-] & ?); done].
  - split; [done | intros (_ & _ & c & ? & _); done].
Qed.

Lemma grid_lookup_dims cols rows g x y :
  grid_dims cols rows g ->
  is_Some (grid_lookup g x y) <-> 0 <= x < cols /\ 0 <= y < rows.
Proof.
  intros [Hlen Hall]. split.
  - intros [v Hv]. apply grid_lookup_Some in Hv as (Hx & Hy & col & Hc & Hv).
    pose proof (lookup_lt_Some _ _ _ Hc) as Hlx.
    pose proof (lookup_lt_Some _ _ _ Hv) as Hly.
    rewrite Forall_lookup in Hall. specialize (Hall _ _ Hc). lia.
  - intros [Hx Hy].
    destruct (lookup_lt_is_Some_2 g (Z.to_nat x)) as [col Hc]; [lia|].
    rewrite Forall_lookup in Hall. pose proof (Hall _ _ Hc) as Hl.
    destruct (lookup_lt_is_Some_2 col (Z.to_nat y)) as [v Hv]; [lia|].
    exists v. apply grid_lookup_Some. eauto 6 with lia.
Qed.

Lemma grid_set_dims cols rows g x y v :
  grid_dims cols rows g -> grid_dims cols rows (grid_set g x y v).
Proof.
  intros [Hlen Hall]. unfold grid_set.
  destruct ((0 <=? x) && (0 <=? y)); [|done].
  destruct (g !! Z.to_nat x) as [col|] eqn:E; [|done].
  split; [by rewrite length_insert|].
  apply Forall_insert; [done|]. rewrite length_insert.
  rewrite Forall_lookup in Hall. eauto.
Qed.

Lemma grid_lookup_set_eq g x y v :
  is_Some (grid_lookup g x y) -> grid_lookup (grid_set g x y v) x y = Some v.
Proof.
  intros [u Hu]. apply grid_lookup_Some in Hu as (Hx & Hy & col & Hc & Hu).
  apply grid_lookup_Some. do 2 (split; [done|]).
  unfold grid_set.
  replace ((0 <=? x) && (0 <=? y)) with true
    by (symmetry; apply andb_true_iff; split; by apply Z.leb_le).
  rewrite Hc. exists (<[Z.to_nat y := v]> col). split.
  - apply list_lookup_insert_eq. by eapply lookup_lt_Some.
  - apply list_lookup_insert_eq. by eapply lookup_lt_Some.
Qed.

Lemma grid_lookup_set_ne g x y v x' y' :
  (x, y) <> (x', y') ->
  grid_lookup (grid_set g x y v) x' y' = grid_lookup g x' y'.
Proof.
  intros Hne. unfold grid_set.
  destruct (Z.leb_spec 0 x), (Z.leb_spec 0 y); simpl; try done.
  destruct (g !! Z.to_nat x) as [col|] eqn:E; [|done].
  unfold grid_lookup.
  destruct (Z.leb_spec 0 x'), (Z.leb_spec 0 y'); simpl; try done.
  destruct (decide (x = x')) as [->|Hx].
  - rewrite list_lookup_insert_eq by (by eapply lookup_lt_Some).
    rewrite E. simpl. apply list_lookup_insert_ne. intros ?.
    apply Hne. f_equal. lia.
  - rewrite list_lookup_insert_ne by lia. done.
Qed.

Lemma grid_lookup_set g x y v x' y' :
  grid_lookup (grid_set g x y v) x' y' =
  if decide ((x, y) = (x', y') /\ is_Some (grid_lookup g x y))
  then Some v else grid_lookup g x' y'.
Proof.
  case_decide as H.
  - destruct H as [[= <- <-] H]. by apply grid_lookup_set_eq.
  - destruct (decide ((x, y) = (x', y'))) as [[= <- <-]|Hne].
    + unfold grid_set. destruct ((0 <=? x) && (0 <=? y)) eqn:Hb; [|done].
      destruct (g !! Z.to_nat x) as [col|] eqn:E; [|done].
      destruct (grid_lookup g x y) as [u|] eqn:Hu; [exfalso; eauto|].
      unfold grid_lookup in *. rewrite Hb in *. rewrite E in Hu. simpl in Hu.
      apply lookup_ge_None in Hu.
      rewrite list_lookup_insert_eq by (by eapply lookup_lt_Some). simpl.
      rewrite list_insert_ge by done. by apply lookup_ge_None.
    + by apply grid_lookup_set_ne.
Qed.

Lemma createGrid_dims cols rows v :
  grid_dims cols rows (createGrid cols rows v).
Proof.
  unfold createGrid. split; [by rewrite length_replicate|].
  apply Forall_replicate. by rewrite length_replicate.
Qed.

Lemma createGrid_lookup cols rows v x y u :
  grid_lookup (createGrid cols rows v) x y = Some u -> u = v.
Proof.
  intros H. apply grid_lookup_Some in H as (_ & _ & col & Hc & Hu).
  apply lookup_replicate in Hc as [-> _].
  by apply lookup_replicate in Hu as [-> _].
Qed.

End GridFacts.

(** ** The pheromone fields *)

Lemma evaporate_cases rate v :
  (evaporate rate v = 0%Q /\ (v * (1 - rate) < 0.01)%Q) \/
  (evaporate rate v = (v * (1.0 - rate))%Q /\ (0.01 <= v * (1 - rate))%Q).
Proof.
  unfold evaporate. destruct (Qlt_le_dec _ _) as [H|H]; [left | right]; split; try done; lra.
Qed.

Lemma evaporate_bounded rate m v :
  (0 <= rate <= 1)%Q -> (0 <= v <= m)%Q -> (0 <= evaporate rate v <= m)%Q.
Proof.
  intros Hr Hv. destruct (evaporate_cases rate v) as [[-> _]|[-> _]]; [lra | nra].
Qed.

Lemma evaporate_le rate v :
  (0 <= rate <= 1)%Q -> (0 <= v)%Q -> (evaporate rate v <= v)%Q.
Proof.
  intros Hr Hv. destruct (evaporate_cases rate v) as [[-> _]|[-> _]]; [lra | nra].
Qed.

Lemma evaporate_zero rate : evaporate rate 0 = 0%Q.
Proof.
  destruct (evaporate_cases rate 0) as [[-> _]|[_ H]]; [done | lra].
Qed.

Lemma depositionRate_nonneg cfg c rate : (0 <= depositionRate cfg c rate)%Q.
Proof. unfold depositionRate. apply Q.le_max_l. Qed.

Lemma deposit_bounded cfg amount v :
  (0 <= PHEROMONE_MAX cfg)%Q -> (0 <= amount)%Q -> (0 <= v)%Q ->
  (0 <= deposit cfg amount v <= PHEROMONE_MAX cfg)%Q.
Proof.
  intros Hm Ha Hv. unfold deposit. split.
  - apply Q.min_glb; lra.
  - apply Q.le_min_r.
Qed.

Lemma grid_modify_lookup f i j g x y :
  grid_lookup (grid_modify f i j g) x y =
  if decide ((i, j) = (x, y)) then f <$> grid_lookup g x y else grid_lookup g x y.
Proof.
  unfold grid_modify. destruct (grid_lookup g i j) as [v|] eqn:E.
  - rewrite grid_lookup_set. rewrite E.
    destruct (decide ((i, j) = (x, y))) as [[= <- <-]|Hne].
    + rewrite decide_True by eauto. by rewrite E.
    + rewrite decide_False; [done | by intros [? _]].
  - case_decide as H; [|done]. injection H as <- <-. by rewrite E.
Qed.

Lemma grid_modify_dims f i j g cols rows :
  grid_dims cols rows g -> grid_dims cols rows (grid_modify f i j g).
Proof.
  intros H. unfold grid_modify. destruct (grid_lookup g i j); [|done].
  by apply grid_set_dims.
Qed.

Lemma grid_modify_bounded cfg f i j g :
  (forall v, (0 <= v <= PHEROMONE_MAX cfg)%Q -> (0 <= f v <= PHEROMONE_MAX cfg)%Q) ->
  field_bounded cfg g -> field_bounded cfg (grid_modify f i j g).
Proof.
  intros Hf Hg x y v. rewrite grid_modify_lookup. case_decide.
  - destruct (grid_lookup g x y) as [u|] eqn:E; [|done].
    intros [= <-]. apply Hf. by eapply Hg.
  - apply Hg.
Qed.

(** What [updatePheromones] leaves in a cell of either field. *)
Lemma updatePheromones_lookup cfg w x y :
  0 <= x < GRID_COLS cfg -> 0 <= y < GRID_ROWS cfg ->
  grid_lookup (explorePheromones (updatePheromones cfg w)) x y
    = evaporate (EVAPORATION_RATE cfg) <$> grid_lookup (explorePheromones w) x y
  /\ grid_lookup (returnPheromones (updatePheromones cfg w)) x y
    = evaporate (EVAPORATION_RATE cfg) <$> grid_lookup (returnPheromones w) x y.
Proof.
  intros Hx Hy. unfold updatePheromones.
  set (f := evaporate (EVAPORATION_RATE cfg)).
  match goal with |- context [for_lt 0 (GRID_COLS cfg) ?b _] => set (body := b) end.
  pose (I := fun (i : Z) (p : grid Q * grid Q) =>
    forall x' y', 0 <= y' < GRID_ROWS cfg ->
      grid_lookup p.1 x' y' =
        (if decide (0 <= x' < i) then f <$> grid_lookup (explorePheromones w) x' y'
         else grid_lookup (explorePheromones w) x' y') /\
      grid_lookup p.2 x' y' =
        (if decide (0 <= x' < i) then f <$> grid_lookup (returnPheromones w) x' y'
         else grid_lookup (returnPheromones w) x' y')).
  assert (I (GRID_COLS cfg)
            (for_lt 0 (GRID_COLS cfg) body (explorePheromones w, returnPheromones w)))
    as HI.
  { apply for_lt_ind; [lia | |].
    - intros x' y' _. simpl. by rewrite !decide_False by lia.
    - intros i p Hi Hp. subst body. simpl.
      pose (J := fun (j : Z) (q : grid Q * grid Q) =>
        forall x' y', 0 <= y' < GRID_ROWS cfg ->
          grid_lookup q.1 x' y' =
            (if decide (x' = i /\ y' < j) then f <$> grid_lookup p.1 x' y'
             else grid_lookup p.1 x' y') /\
          grid_lookup q.2 x' y' =
            (if decide (x' = i /\ y' < j) then f <$> grid_lookup p.2 x' y'
             else grid_lookup p.2 x' y')).
      match goal with |- I _ (for_lt 0 ?h ?b ?s) =>
        assert (J h (for_lt 0 h b s)) as HJ end.
      { apply for_lt_ind; [lia | |].
        - intros x' y' Hy'. by rewrite !decide_False by lia.
        - intros j [q1 q2] Hj Hq x' y' Hy'. simpl.
          destruct (Hq x' y' Hy') as [E1 E2]. simpl in E1, E2.
          rewrite !grid_modify_lookup, E1, E2.
          repeat case_decide; simplify_eq; try lia; try done.
          exfalso. match goal with H : (_, _) <> (_, _) |- _ => apply H end.
          f_equal; lia. }
      intros x' y' Hy'. destruct (HJ x' y' Hy') as [-> ->].
      destruct (Hp x' y' Hy') as [-> ->].
      repeat case_decide; try lia; try done. }
  destruct (for_lt 0 (GRID_COLS cfg) body _) as [ex re]. simpl.
  destruct (HI x y Hy) as [E1 E2]. simpl in E1, E2.
  rewrite E1, E2. by rewrite !decide_True by lia.
Qed.

(** ** What a step of an ant touches *)

Lemma set_draws_draws w : set_draws (draws w) w = w.
Proof. by destruct w. Qed.

Lemma set_draws_twice k k' w : set_draws k (set_draws k' w) = set_draws k w.
Proof. done. Qed.

Section AntFacts.

Variable cfg : Config.
Variable trig : P5.Trig.
Variable rng : P5.Rng.

Lemma senseAndDecideAngle_frame fuel a w angle w' :
  senseAndDecideAngle cfg trig rng fuel a w = Some (angle, w') ->
  exists k, w' = set_draws k w.
Proof.
  unfold senseAndDecideAngle. intros H.
  destruct (P5.dist_le _ _ _ _ _).
  - injection H as _ <-. exists (draws w). by rewrite set_draws_draws.
  - destruct (for_float _ _ _ _ _ _) as [[[m b] k]|]; [|done]. simpl in H.
    destruct (Qle_bool m 0); injection H as _ <-; eauto.
Qed.

Lemma move_frame fuel a w a' w' :
  move cfg trig rng fuel a w = Some (a', w') ->
  (exists k, w' = set_draws k w) /\
  gridPos a' = gridPos a /\ state a' = state a /\
  charge a' = charge a /\ history a' = history a.
Proof.
  unfold move. intros H.
  destruct (senseAndDecideAngle _ _ _ _ _ _) as [[angle w1]|] eqn:Hs; [|done].
  apply senseAndDecideAngle_frame in Hs as [k ->]. simpl in H.
  destruct (steer _ _ _ _) as [newAngle|]; [|done]. simpl in H.
  destruct (Qlt_le_dec _ _); simpl in H;
    destruct (isValidGridPos _ _ _ && _); simpl in H;
    injection H as <- <-; simpl; eauto 10.
Qed.

Lemma checkEnvironment_frame a w :
  let '(a', w') := checkEnvironment cfg trig rng a w in
  explorePheromones w' = explorePheromones w /\
  returnPheromones w' = returnPheromones w /\
  maze w' = maze w /\ ants w' = ants w /\
  gridPos a' = gridPos a /\ pos a' = pos a /\ history a' = history a.
Proof.
  unfold checkEnvironment.
  destruct (state a); destruct (P5.dist_le _ _ _ _ _); simpl; done.
Qed.

(** A step of an ant leaves the list of agents and the canvas alone. *)
Lemma update_keeps fuel a w a' w' :
  update cfg trig rng fuel a w = Some (a', w') ->
  ants w' = ants w /\ canvas w' = canvas w.
Proof.
  unfold update. intros H.
  assert (ants (checkEnvironment cfg trig rng (updateGridPos cfg a) w).2 = ants w /\
          canvas (checkEnvironment cfg trig rng (updateGridPos cfg a) w).2 = canvas w)
    as Hc.
  { unfold checkEnvironment.
    destruct (state (updateGridPos cfg a)); destruct (P5.dist_le _ _ _ _ _); done. }
  destruct (checkEnvironment cfg trig rng (updateGridPos cfg a) w) as [a1 w1].
  destruct Hc as [Hca Hcc]. simpl in *.
  destruct (move _ _ _ _ _ _) as [[a3 w3]|] eqn:Hm; [|done]. simpl in H.
  apply move_frame in Hm as ([k ->] & _).
  injection H as _ <-. rewrite <- Hca, <- Hcc. unfold depositPheromone.
  destruct (gridPos a3) as [gx gy], (charge a3 <=? 0), (isValidGridPos cfg gx gy),
    (state a3); done.
Qed.

(** The fields after [update] are the fields before it with one deposit
    made, at the [gridPos] that [updateGridPos] computed when the step
    began. *)
Lemma update_fields fuel a w a' w' :
  update cfg trig rng fuel a w = Some (a', w') ->
  let a0 := updateGridPos cfg a in
  let a1 := (checkEnvironment cfg trig rng a0 w).1 in
  let a2 := set_charge (Z.max 0 (charge a1 - 1)) a1 in
  explorePheromones w' = explorePheromones (depositPheromone cfg a2 w) /\
  returnPheromones w' = returnPheromones (depositPheromone cfg a2 w) /\
  gridPos a2 = gridPos a0 /\ state a' = state a2 /\ charge a' = charge a2 /\
  gridPos a' = gridPos a0.
Proof.
  unfold update. intros H.
  pose proof (checkEnvironment_frame (updateGridPos cfg a) w) as Hc.
  destruct (checkEnvironment cfg trig rng (updateGridPos cfg a) w) as [a1 w1].
  destruct Hc as (He & Hr & _ & _ & Hg & _). simpl in *.
  destruct (move _ _ _ _ _ _) as [[a3 w3]|] eqn:Hm; [|done]. simpl in H.
  apply move_frame in Hm as ([k ->] & Hg3 & Hs3 & Hc3 & Hh3).
  injection H as <- <-. simpl in *.
  assert (forall b v, explorePheromones (depositPheromone cfg b v)
                      = explorePheromones (depositPheromone cfg b (set_draws k v))
                   /\ returnPheromones (depositPheromone cfg b v)
                      = returnPheromones (depositPheromone cfg b (set_draws k v)))
    as Hd.
  { intros b v. unfold depositPheromone.
    destruct (gridPos b) as [gx gy], (charge b <=? 0), (isValidGridPos cfg gx gy),
      (state b); done. }
  assert (forall b b' v, gridPos b = gridPos b' -> state b = state b' ->
             charge b = charge b' ->
             depositPheromone cfg b v = depositPheromone cfg b' v) as Hd'.
  { intros b b' v Hg' Hs' Hc'. unfold depositPheromone. by rewrite Hg', Hs', Hc'. }
  rewrite (Hd' a3 (set_charge (Z.max 0 (charge a1 - 1)) a1)) by done.
  destruct (Hd (set_charge (Z.max 0 (charge a1 - 1)) a1) w1) as [<- <-].
  assert (forall b, explorePheromones (depositPheromone cfg b w1)
                    = explorePheromones (depositPheromone cfg b w)
                 /\ returnPheromones (depositPheromone cfg b w1)
                    = returnPheromones (depositPheromone cfg b w)) as Hw.
  { intros b. unfold depositPheromone.
    destruct (gridPos b) as [gx gy], (charge b <=? 0), (isValidGridPos cfg gx gy),
      (state b); simpl; rewrite ?He, ?Hr; done. }
  destruct (Hw (set_charge (Z.max 0 (charge a1 - 1)) a1)) as [-> ->].
  unfold addToHistory.
  repeat split; try done;
    repeat (match goal with |- context [if ?b then _ else _] => destruct b end);
    simpl; congruence.
Qed.

End AntFacts.

(** ** The fields stay between 0 and [PHEROMONE_MAX] *)

Lemma createGrid_bounded cfg cols rows :
  (0 <= PHEROMONE_MAX cfg)%Q -> field_bounded cfg (createGrid cols rows 0%Q).
Proof.
  intros Hm x y v Hv. apply createGrid_lookup in Hv as ->. lra.
Qed.

Lemma updatePheromones_bounded cfg w :
  (0 <= EVAPORATION_RATE cfg <= 1)%Q ->
  fields_bounded cfg w -> fields_bounded cfg (updatePheromones cfg w).
Proof.
  intros Hr [He Hre]. unfold updatePheromones.
  match goal with |- context [for_lt 0 (GRID_COLS cfg) ?b ?s] =>
    assert (fields_bounded cfg (set_pheromones (for_lt 0 (GRID_COLS cfg) b s).1
                                               (for_lt 0 (GRID_COLS cfg) b s).2 w)) as H
  end.
  { destruct (Z.le_gt_cases 0 (GRID_COLS cfg)) as [Hc|Hc];
      [|rewrite for_lt_empty by lia; by split].
    apply (for_lt_ind (fun _ p => fields_bounded cfg (set_pheromones p.1 p.2 w)));
      [done | by split |].
    intros i p _ Hp.
    destruct (Z.le_gt_cases 0 (GRID_ROWS cfg)) as [Hrw|Hrw];
      [|by rewrite for_lt_empty by lia].
    apply (for_lt_ind (fun _ p => fields_bounded cfg (set_pheromones p.1 p.2 w)));
      [done | done |].
    intros j [q1 q2] _ [Hq1 Hq2].
    split; simpl; apply grid_modify_bounded; try done;
      intros v Hv; by apply evaporate_bounded. }
  by destruct (for_lt _ _ _ _).
Qed.

Lemma depositPheromone_bounded cfg a w :
  (0 <= PHEROMONE_MAX cfg)%Q ->
  fields_bounded cfg w -> fields_bounded cfg (depositPheromone cfg a w).
Proof.
  intros Hm [He Hr]. unfold depositPheromone.
  destruct (gridPos a) as [gx gy], (charge a <=? 0); [by split|].
  destruct (isValidGridPos cfg gx gy); [|by split].
  destruct (state a); split; simpl; try done;
    apply grid_modify_bounded; try done;
    intros v Hv; apply deposit_bounded; try done;
    try apply depositionRate_nonneg; lra.
Qed.

Lemma update_bounded cfg trig rng fuel a w a' w' :
  (0 <= PHEROMONE_MAX cfg)%Q ->
  update cfg trig rng fuel a w = Some (a', w') ->
  fields_bounded cfg w -> fields_bounded cfg w'.
Proof.
  intros Hm Hu Hw. apply update_fields in Hu as (He & Hr & _).
  unfold fields_bounded. rewrite He, Hr.
  by apply depositPheromone_bounded.
Qed.

Lemma for_down_ind {St : Type} (I : St -> Prop) (body : Z -> St -> option St) :
  (forall i s s', I s -> body i s = Some s' -> I s') ->
  forall n s s', I s -> for_down n body s = Some s' -> I s'.
Proof.
  intros Hstep. induction n as [|n IH]; intros s s' Hs H; simpl in H.
  - by injection H as <-.
  - destruct (body (Z.of_nat n) s) as [s1|] eqn:E; [|done]. eauto.
Qed.

Lemma updateAndDrawAnts_bounded cfg trig rng fuel w w' :
  (0 <= PHEROMONE_MAX cfg)%Q ->
  updateAndDrawAnts cfg trig rng fuel w = Some w' ->
  fields_bounded cfg w -> fields_bounded cfg w'.
Proof.
  intros Hm H Hw. unfold updateAndDrawAnts in H.
  eapply (for_down_ind (fields_bounded cfg)); [|exact Hw|exact H].
  intros i s s' Hs Hb. unfold updateAndDrawAnt in Hb.
  destruct (ants s !! Z.to_nat i) as [a|]; [|done]. simpl in Hb.
  destruct (update _ _ _ _ _ _) as [[a1 s1]|] eqn:Hu; [|done]. simpl in Hb.
  injection Hb as <-. by eapply update_bounded in Hu.
Qed.

Lemma draw_bounded cfg trig rng fuel now w w' :
  (0 <= EVAPORATION_RATE cfg <= 1)%Q -> (0 <= PHEROMONE_MAX cfg)%Q ->
  draw cfg trig rng fuel now w = Some w' ->
  fields_bounded cfg w -> fields_bounded cfg w'.
Proof.
  intros Hr Hm H Hw. unfold draw in H.
  destruct (updateAndDrawAnts _ _ _ _ _) as [w1|] eqn:Hu; [|done]. simpl in H.
  injection H as <-.
  eapply updateAndDrawAnts_bounded in Hu; [|done|].
  - unfold spawnNewAnts. destruct (_ && _); [|done]. done.
  - apply (updatePheromones_bounded cfg (set_canvas [] w)); done.
Qed.

(** C5.  With [0 <= EVAPORATION_RATE <= 1] and [0 <= PHEROMONE_MAX], every
    cell of both pheromone grids lies in [[0, PHEROMONE_MAX]] at all times:
    the grids that [createGrid] fills with 0 do, and evaporation
    ([updatePheromones]), deposition ([depositPheromone], whatever the ant)
    and hence a whole frame ([draw]) keep it so; in particular a deposit
    [min(v + amount, PHEROMONE_MAX)], however often it is made, never
    lifts a cell above [PHEROMONE_MAX]. *)
Theorem pheromones_within_bounds (cfg : Config) :
  (0 <= EVAPORATION_RATE cfg <= 1)%Q ->
  (0 <= PHEROMONE_MAX cfg)%Q ->
  field_bounded cfg (createGrid (GRID_COLS cfg) (GRID_ROWS cfg) 0%Q)
  /\ (forall w, fields_bounded cfg w -> fields_bounded cfg (updatePheromones cfg w))
  /\ (forall a w, fields_bounded cfg w -> fields_bounded cfg (depositPheromone cfg a w))
  /\ (forall amount v, (0 <= amount)%Q -> (0 <= v <= PHEROMONE_MAX cfg)%Q ->
        (0 <= deposit cfg amount v <= PHEROMONE_MAX cfg)%Q)
  /\ (forall trig rng fuel now w w',
        draw cfg trig rng fuel now w = Some w' ->
        fields_bounded cfg w -> fields_bounded cfg w').
Proof.
  intros Hr Hm. split; [|split; [|split; [|split]]].
  - by apply createGrid_bounded.
  - intros w. by apply updatePheromones_bounded.
  - intros a w. by apply depositPheromone_bounded.
  - intros amount v Ha Hv. apply deposit_bounded; lra.
  - intros trig rng fuel now w w'. by apply draw_bounded.
Qed.

(** ** Decay without deposition *)

Lemma inject_Z_S n : (inject_Z (Z.of_nat (S n)) == inject_Z (Z.of_nat n) + 1)%Q.
Proof. rewrite Nat2Z.inj_succ. unfold Z.succ. by rewrite inject_Z_plus. Qed.

Lemma iter_S {A : Type} (f : A -> A) n x : Nat.iter (S n) f x = f (Nat.iter n f x).
Proof. done. Qed.

(** Powers of two. *)

Lemma pow2_pos e : (0 < B64.pow2 e)%Q.
Proof. apply Qpower_0_lt. reflexivity. Qed.

Lemma pow2_plus a b : (B64.pow2 (a + b) == B64.pow2 a * B64.pow2 b)%Q.
Proof. apply Qpower_plus. discriminate. Qed.

Lemma pow2_lt a b : a < b -> (B64.pow2 a < B64.pow2 b)%Q.
Proof. intros H. apply Qpower_lt_compat_l; [done | reflexivity]. Qed.

Lemma pow2_le a b : a <= b -> (B64.pow2 a <= B64.pow2 b)%Q.
Proof. intros H. apply Qpower_le_compat_l; [done | discriminate]. Qed.

Lemma pow2_lt_inv a b : (B64.pow2 a < B64.pow2 b)%Q -> a < b.
Proof. intros H. eapply Qpower_lt_compat_l_inv; [exact H | reflexivity]. Qed.

Lemma pow2_Z e : 0 <= e -> (B64.pow2 e == inject_Z (2 ^ e))%Q.
Proof. intros H. unfold B64.pow2. by rewrite Zpower_Qpower. Qed.

Lemma inject_Z_pos (n : Z) : 0 < n -> (0 < inject_Z n)%Q.
Proof. intros H. change 0%Q with (inject_Z 0). by rewrite <- Zlt_Qlt. Qed.

(** The binary logarithm. *)

Lemma ilog2_spec x :
  (0 < x)%Q -> (B64.pow2 (B64.ilog2 x) <= x < B64.pow2 (B64.ilog2 x + 1))%Q.
Proof.
  intros Hx. destruct x as [n d].
  assert (0 < n) as Hn by (unfold Qlt in Hx; simpl in Hx; lia).
  unfold B64.ilog2. cbn [Qnum Qden].
  set (a := Z.log2 n). set (b := Z.log2 (Z.pos d)).
  pose proof (Z.log2_spec n Hn) as Ha. fold a in Ha.
  pose proof (Z.log2_spec (Z.pos d) ltac:(lia)) as Hb. fold b in Hb.
  pose proof (Z.log2_nonneg n) as Ha0. fold a in Ha0.
  pose proof (Z.log2_nonneg (Z.pos d)) as Hb0. fold b in Hb0.
  assert (n # d == inject_Z n / inject_Z (Z.pos d))%Q as Hq by apply Qmake_Qdiv.
  assert (0 < inject_Z (Z.pos d))%Q as Hd by (apply inject_Z_pos; lia).
  assert (inject_Z (2 ^ a) <= inject_Z n < inject_Z (2 ^ Z.succ a))%Q as Ha'
    by (rewrite <- Zle_Qle, <- Zlt_Qlt; lia).
  assert (inject_Z (2 ^ b) <= inject_Z (Z.pos d) < inject_Z (2 ^ Z.succ b))%Q as Hb'
    by (rewrite <- Zle_Qle, <- Zlt_Qlt; lia).
  rewrite <- !pow2_Z in Ha', Hb' by lia.
  assert (B64.pow2 (a - b - 1) < n # d)%Q as Hlo.
  { rewrite Hq. apply Qlt_shift_div_l; [done|].
    apply Qlt_le_trans with (B64.pow2 (a - b - 1) * B64.pow2 (Z.succ b))%Q.
    - apply Qmult_lt_l; [apply pow2_pos | apply Hb'].
    - rewrite <- pow2_plus. replace (a - b - 1 + Z.succ b) with a by lia. apply Ha'. }
  assert (n # d < B64.pow2 (a - b + 1))%Q as Hhi.
  { rewrite Hq. apply Qlt_shift_div_r; [done|].
    apply Qlt_le_trans with (B64.pow2 (Z.succ a)); [apply Ha'|].
    replace (Z.succ a) with (a - b + 1 + b) by lia. rewrite pow2_plus.
    apply Qmult_le_l; [apply pow2_pos | apply Hb']. }
  destruct (Qlt_le_dec (n # d) (B64.pow2 (a - b))) as [Hlt|Hge].
  - replace (a - b - 1 + 1) with (a - b) by lia. split; [by apply Qlt_le_weak | done].
  - done.
Qed.

Lemma ilog2_unique x k :
  (B64.pow2 k <= x < B64.pow2 (k + 1))%Q -> B64.ilog2 x = k.
Proof.
  intros [Hlo Hhi].
  assert (0 < x)%Q as Hx by (eapply Qlt_le_trans; [apply (pow2_pos k) | done]).
  destruct (ilog2_spec x Hx) as [Hlo' Hhi'].
  assert (B64.ilog2 x < k + 1) by (apply pow2_lt_inv; lra).
  assert (k < B64.ilog2 x + 1) by (apply pow2_lt_inv; lra).
  lia.
Qed.

Lemma ilog2_mono x y : (0 < x)%Q -> (x <= y)%Q -> B64.ilog2 x <= B64.ilog2 y.
Proof.
  intros Hx Hxy.
  destruct (ilog2_spec x Hx) as [Hlo _].
  destruct (ilog2_spec y ltac:(lra)) as [_ Hhi].
  assert (B64.ilog2 x < B64.ilog2 y + 1) by (apply pow2_lt_inv; lra).
  lia.
Qed.

(** Rounding to the nearest integer, ties to even. *)

Lemma rne_bounds s :
  (inject_Z (B64.rne s) - (1 # 2) <= s <= inject_Z (B64.rne s) + (1 # 2))%Q.
Proof.
  unfold B64.rne. pose proof (Qfloor_le s) as H1. pose proof (Qlt_floor s) as H2.
  rewrite inject_Z_plus in H2. change (inject_Z 1) with 1%Q in H2.
  destruct (Qcompare_spec (s - inject_Z (Qfloor s)) (1 # 2)) as [E|E|E].
  - destruct (Z.even (Qfloor s)); rewrite ?inject_Z_plus;
      change (inject_Z 1) with 1%Q; lra.
  - lra.
  - rewrite inject_Z_plus. change (inject_Z 1) with 1%Q. lra.
Qed.

Lemma rne_proper s t : (s == t)%Q -> B64.rne s = B64.rne t.
Proof.
  intros H. unfold B64.rne.
  assert (Qfloor s = Qfloor t) as -> by (by apply Qfloor_comp).
  assert ((s - inject_Z (Qfloor t) ?= 1 # 2)%Q = (t - inject_Z (Qfloor t) ?= 1 # 2)%Q)
    as ->; [|done].
  apply Qcompare_comp; [|reflexivity]. apply Qplus_comp; [done | reflexivity].
Qed.

Lemma Z_le_Q (a b : Z) : (inject_Z a < inject_Z b + 1)%Q -> a <= b.
Proof.
  intros H. assert (a < b + 1); [|lia].
  rewrite Zlt_Qlt, inject_Z_plus. exact H.
Qed.

Lemma rne_Z k : B64.rne (inject_Z k) = k.
Proof.
  pose proof (rne_bounds (inject_Z k)) as [H1 H2].
  assert (B64.rne (inject_Z k) <= k) by (apply Z_le_Q; lra).
  assert (k <= B64.rne (inject_Z k)) by (apply Z_le_Q; lra).
  lia.
Qed.

Lemma rne_below s k : (s < inject_Z k + (1 # 2))%Q -> B64.rne s <= k.
Proof. intros H. pose proof (rne_bounds s) as [H1 _]. apply Z_le_Q. lra. Qed.

Lemma rne_above s k : (inject_Z k - (1 # 2) < s)%Q -> k <= B64.rne s.
Proof. intros H. pose proof (rne_bounds s) as [_ H2]. apply Z_le_Q. lra. Qed.

Lemma rne_mono s t : (s <= t)%Q -> B64.rne s <= B64.rne t.
Proof.
  intros H. destruct (Qlt_le_dec s t) as [Hlt|Hge].
  - pose proof (rne_bounds s) as [H1 _]. pose proof (rne_bounds t) as [_ H2].
    apply Z_le_Q. lra.
  - assert (s == t)%Q as E by lra. rewrite (rne_proper _ _ E). lia.
Qed.

(** Rounding a positive number: it is monotone, leaves binary64 numbers
    as they are and answers with one. *)

Lemma scaled x e :
  (x / B64.pow2 e * B64.pow2 e == x)%Q.
Proof. pose proof (pow2_pos e). field. lra. Qed.

Lemma scaled_lt x :
  (0 < x)%Q ->
  (x / B64.pow2 (Z.max (B64.ilog2 x - 52) (-1074)) < inject_Z (2 ^ 53))%Q.
Proof.
  intros Hx. destruct (ilog2_spec x Hx) as [_ Hhi].
  set (e := Z.max _ _). apply Qlt_shift_div_r; [apply pow2_pos|].
  rewrite <- pow2_Z by lia. rewrite <- pow2_plus.
  eapply Qlt_le_trans; [exact Hhi|]. apply pow2_le. lia.
Qed.

Lemma scaled_ge x :
  (0 < x)%Q -> -1074 <= B64.ilog2 x - 52 ->
  (inject_Z (2 ^ 52) <= x / B64.pow2 (Z.max (B64.ilog2 x - 52) (-1074)))%Q.
Proof.
  intros Hx Hn. destruct (ilog2_spec x Hx) as [Hlo _].
  rewrite Z.max_l by lia. apply Qle_shift_div_l; [apply pow2_pos|].
  rewrite <- pow2_Z by lia. rewrite <- pow2_plus.
  replace (52 + (B64.ilog2 x - 52)) with (B64.ilog2 x) by lia. done.
Qed.

Lemma round_pos_mono x y :
  (0 < x)%Q -> (x <= y)%Q -> (B64.round_pos x <= B64.round_pos y)%Q.
Proof.
  intros Hx Hxy. assert (0 < y)%Q as Hy by lra.
  pose proof (ilog2_mono x y Hx Hxy) as Hl.
  unfold B64.round_pos. cbv zeta.
  set (ex := Z.max (B64.ilog2 x - 52) (-1074)).
  set (ey := Z.max (B64.ilog2 y - 52) (-1074)).
  destruct (decide (ex = ey)) as [E|E].
  - rewrite <- E. apply Qmult_le_compat_r; [|apply Qlt_le_weak, pow2_pos].
    rewrite <- Zle_Qle. apply rne_mono.
    apply Qmult_le_r with (B64.pow2 ex); [apply pow2_pos|]. by rewrite !scaled.
  - assert (ex < ey) as Hlt by lia.
    assert (-1074 <= B64.ilog2 y - 52) as Hny by lia.
    pose proof (scaled_lt x Hx) as Hsx. fold ex in Hsx.
    pose proof (scaled_ge y Hy Hny) as Hsy. fold ey in Hsy.
    assert (B64.rne (x / B64.pow2 ex) <= 2 ^ 53) as Hrx.
    { apply rne_below. lra. }
    assert (2 ^ 52 <= B64.rne (y / B64.pow2 ey)) as Hry.
    { apply rne_above. lra. }
    apply Qle_trans with (inject_Z (2 ^ 53) * B64.pow2 ex)%Q.
    { apply Qmult_le_compat_r; [|apply Qlt_le_weak, pow2_pos]. by rewrite <- Zle_Qle. }
    apply Qle_trans with (inject_Z (2 ^ 52) * B64.pow2 ey)%Q.
    2:{ apply Qmult_le_compat_r; [|apply Qlt_le_weak, pow2_pos]. by rewrite <- Zle_Qle. }
    apply Qle_trans with (inject_Z (2 ^ 52) * B64.pow2 (ex + 1))%Q.
    + rewrite pow2_plus. change (B64.pow2 1) with 2%Q.
      change (inject_Z (2 ^ 53)) with (inject_Z (2 ^ 52) * 2)%Q.
      pose proof (pow2_pos ex). lra.
    + apply Qmult_le_l; [by apply inject_Z_pos|]. apply pow2_le. lia.
Qed.

Lemma round_pos_fixed m e :
  0 < m < 2 ^ 53 -> -1074 <= e -> (e = -1074 \/ 2 ^ 52 <= m) ->
  (B64.round_pos (inject_Z m * B64.pow2 e) == inject_Z m * B64.pow2 e)%Q.
Proof.
  intros Hm He Hn. set (v := (inject_Z m * B64.pow2 e)%Q).
  assert (0 < v)%Q as Hv.
  { unfold v. apply Qmult_lt_0_compat; [apply inject_Z_pos; lia | apply pow2_pos]. }
  assert (v < B64.pow2 (53 + e))%Q as Hhi.
  { unfold v. rewrite pow2_plus. apply Qmult_lt_r; [apply pow2_pos|].
    rewrite pow2_Z by lia. rewrite <- Zlt_Qlt. lia. }
  assert (Z.max (B64.ilog2 v - 52) (-1074) = e) as E.
  { destruct (ilog2_spec v Hv) as [Hlo' Hhi'].
    assert (B64.ilog2 v < 53 + e) by (apply pow2_lt_inv; lra).
    destruct Hn as [-> | Hn]; [lia|].
    assert (B64.pow2 (52 + e) <= v)%Q as Hlo.
    { unfold v. rewrite pow2_plus. apply Qmult_le_compat_r;
        [|apply Qlt_le_weak, pow2_pos].
      rewrite pow2_Z by lia. by rewrite <- Zle_Qle. }
    rewrite (ilog2_unique v (52 + e)); [lia|].
    split; [done|]. by replace (52 + e + 1) with (53 + e) by lia. }
  unfold B64.round_pos. cbv zeta. rewrite E.
  assert (v / B64.pow2 e == inject_Z m)%Q as Es.
  { unfold v. pose proof (pow2_pos e). field. lra. }
  rewrite (rne_proper _ _ Es), rne_Z. done.
Qed.

Lemma round_pos_binary64 x : (0 < x)%Q -> binary64 (B64.round_pos x).
Proof.
  intros Hx. unfold B64.round_pos. cbv zeta.
  set (e := Z.max (B64.ilog2 x - 52) (-1074)).
  pose proof (scaled_lt x Hx) as Hlt. fold e in Hlt.
  assert (0 <= x / B64.pow2 e)%Q as Hs0.
  { apply Qle_shift_div_l; [apply pow2_pos | lra]. }
  set (m := B64.rne (x / B64.pow2 e)).
  assert (0 <= m <= 2 ^ 53) as Hm.
  { split; [apply rne_above; change (inject_Z 0) with 0%Q; lra | apply rne_below; lra]. }
  destruct (decide (m = 0)) as [->|Hm0]; [left; change (inject_Z 0) with 0%Q; lra|].
  right. destruct (decide (m = 2 ^ 53)) as [Em|Em].
  - exists (2 ^ 52), (e + 1). split; [|lia]. rewrite Em, pow2_plus.
    change (B64.pow2 1) with 2%Q.
    change (inject_Z (2 ^ 53)) with (inject_Z (2 ^ 52) * 2)%Q. ring.
  - exists m, e. split; [done|]. split; [lia|]. split; [lia|].
    destruct (decide (e = -1074)) as [?|He]; [by left | right].
    assert (-1074 <= B64.ilog2 x - 52) as Hn by lia.
    pose proof (scaled_ge x Hx Hn) as Hge. fold e in Hge.
    apply rne_above. lra.
Qed.

(** Below the middle of two neighbours the lower one is the answer, or
    less. *)
Lemma round_pos_below m e x :
  2 ^ 52 < m <= 2 ^ 53 -> -1074 <= e ->
  (0 < x)%Q -> (x < (inject_Z m - (1 # 2)) * B64.pow2 e)%Q ->
  (B64.round_pos x <= inject_Z (m - 1) * B64.pow2 e)%Q.
Proof.
  intros Hm He Hx Hlt. pose proof (pow2_pos e) as Hp.
  destruct (Qlt_le_dec x (inject_Z (2 ^ 52) * B64.pow2 e)) as [Hlow|Hhigh].
  - apply Qle_trans with (B64.round_pos (inject_Z (2 ^ 52) * B64.pow2 e)).
    + apply round_pos_mono; [done | lra].
    + rewrite round_pos_fixed by lia.
      apply Qmult_le_compat_r; [|lra]. rewrite <- Zle_Qle. lia.
  - assert (B64.ilog2 x = 52 + e) as El.
    { apply ilog2_unique. split.
      - rewrite pow2_plus, (pow2_Z 52) by lia. done.
      - eapply Qlt_le_trans; [exact Hlt|].
        replace (52 + e + 1) with (53 + e) by lia. rewrite pow2_plus, (pow2_Z 53) by lia.
        apply Qmult_le_compat_r; [|lra].
        assert (inject_Z m <= inject_Z (2 ^ 53))%Q by (rewrite <- Zle_Qle; lia). lra. }
    unfold B64.round_pos. cbv zeta. rewrite El.
    replace (Z.max (52 + e - 52) (-1074)) with e by lia.
    apply Qmult_le_compat_r; [|lra]. rewrite <- Zle_Qle. apply rne_below.
    replace (m - 1) with (m + -1) by lia. rewrite inject_Z_plus.
    change (inject_Z (-1)) with (- (1))%Q.
    apply Qlt_shift_div_r; [done|]. lra.
Qed.

(** Rounding a number that is not negative. *)

Lemma round_zero x : (x == 0)%Q -> B64.round x = 0%Q.
Proof. intros H. unfold B64.round. apply Qeq_alt in H. by rewrite H. Qed.

Lemma round_positive x : (0 < x)%Q -> (B64.round x == B64.round_pos x)%Q.
Proof.
  intros H. unfold B64.round. apply Qgt_alt in H. rewrite H. apply Qred_correct.
Qed.

Lemma round_pos_nonneg x : (0 < x)%Q -> (0 <= B64.round_pos x)%Q.
Proof.
  intros Hx. unfold B64.round_pos. cbv zeta.
  set (e := Z.max (B64.ilog2 x - 52) (-1074)).
  pose proof (pow2_pos e) as Hp.
  apply Qmult_le_0_compat; [|lra].
  change 0%Q with (inject_Z 0). rewrite <- Zle_Qle. apply rne_above.
  change (inject_Z 0) with 0%Q.
  assert (0 <= x / B64.pow2 e)%Q by (apply Qle_shift_div_l; [done | lra]). lra.
Qed.

Lemma round_nonneg x : (0 <= x)%Q -> (0 <= B64.round x)%Q.
Proof.
  intros H. destruct (Qlt_le_dec 0 x) as [Hx|Hx].
  - rewrite round_positive by done. by apply round_pos_nonneg.
  - rewrite round_zero by lra. lra.
Qed.

Lemma round_mono x y : (0 <= x)%Q -> (x <= y)%Q -> (B64.round x <= B64.round y)%Q.
Proof.
  intros H0 Hxy. destruct (Qlt_le_dec 0 x) as [Hx|Hx].
  - rewrite !round_positive by lra. by apply round_pos_mono.
  - rewrite (round_zero x) by lra. apply round_nonneg. lra.
Qed.

Lemma binary64_pos v :
  binary64 v -> (0 < v)%Q ->
  exists m e, (v == inject_Z m * B64.pow2 e)%Q /\ 0 < m < 2 ^ 53 /\ -1074 <= e /\
              (e = -1074 \/ 2 ^ 52 <= m).
Proof. intros [H|H] Hv; [lra | done]. Qed.

Lemma binary64_nonneg v : binary64 v -> (0 <= v)%Q.
Proof.
  intros [H|(m & e & -> & Hm & _)]; [lra|].
  apply Qmult_le_0_compat; [|apply Qlt_le_weak, pow2_pos].
  apply Qlt_le_weak, inject_Z_pos. lia.
Qed.

Lemma binary64_proper v v' : (v == v')%Q -> binary64 v -> binary64 v'.
Proof.
  intros E [H|(m & e & H & Hm)]; [left; lra|].
  right. exists m, e. split; [lra | done].
Qed.

Lemma round_fixed v : binary64 v -> (B64.round v == v)%Q.
Proof.
  intros [H|(m & e & H & Hm & He & Hn)].
  - rewrite round_zero by done. lra.
  - assert (0 < v)%Q as Hv.
    { rewrite H. apply Qmult_lt_0_compat; [apply inject_Z_pos; lia | apply pow2_pos]. }
    rewrite round_positive by done.
    assert (B64.round_pos v == B64.round_pos (inject_Z m * B64.pow2 e))%Q as ->.
    { apply Qle_antisym; apply round_pos_mono; lra. }
    rewrite round_pos_fixed by done. lra.
Qed.

Lemma round_binary64 x : (0 <= x)%Q -> binary64 (B64.round x).
Proof.
  intros H. destruct (Qlt_le_dec 0 x) as [Hx|Hx].
  - eapply binary64_proper; [symmetry; by apply round_positive|].
    by apply round_pos_binary64.
  - rewrite round_zero by lra. by left.
Qed.

Lemma round_below m e x :
  2 ^ 52 < m <= 2 ^ 53 -> -1074 <= e ->
  (0 <= x)%Q -> (x < (inject_Z m - (1 # 2)) * B64.pow2 e)%Q ->
  (B64.round x <= inject_Z (m - 1) * B64.pow2 e)%Q.
Proof.
  intros Hm He H0 Hlt. destruct (Qlt_le_dec 0 x) as [Hx|Hx].
  - rewrite round_positive by done. by apply round_pos_below.
  - rewrite round_zero by lra.
    apply Qmult_le_0_compat; [|apply Qlt_le_weak, pow2_pos].
    apply Qlt_le_weak, inject_Z_pos. lia.
Qed.

(** Evaporation in binary64: the factor [1.0 - rate] is below 1 by at
    least [2^-53], and a cell never rises. *)

Section Decay.

Variable rate : Q.
Hypothesis rate_range : (B64.pow2 (-54) < rate <= 1)%Q.

Lemma factor_range :
  (0 <= B64.sub 1 rate <= 1 - B64.pow2 (-53))%Q.
Proof.
  unfold B64.sub. split; [apply round_nonneg; lra|].
  pose proof (round_below (2 ^ 53) (-53) (1 - rate) ltac:(lia) ltac:(lia)) as H.
  assert (B64.pow2 (-53) == 1 # 9007199254740992)%Q as E53 by reflexivity.
  assert (B64.pow2 (-54) == 1 # 18014398509481984)%Q as E54 by reflexivity.
  rewrite E53 in *. rewrite E54 in rate_range.
  assert (inject_Z (2 ^ 53) == 9007199254740992)%Q as Ei by reflexivity.
  assert (inject_Z (2 ^ 53 - 1) == 9007199254740991)%Q as Ei' by reflexivity.
  rewrite Ei, Ei' in H.
  specialize (H ltac:(lra) ltac:(lra)). lra.
Qed.

Lemma evaporate64_le v :
  binary64 v -> (evaporate64 rate v <= v)%Q.
Proof.
  intros Hb. pose proof (binary64_nonneg v Hb) as Hv.
  pose proof factor_range as [Hf0 Hf1]. pose proof (pow2_pos (-53)).
  unfold evaporate64. cbv zeta. destruct (Qlt_le_dec _ _); [done|].
  unfold B64.mul. rewrite <- (round_fixed v Hb) at 2.
  apply round_mono; [apply Qmult_le_0_compat; lra|]. nra.
Qed.

Lemma evaporate64_binary64 v :
  binary64 v -> binary64 (evaporate64 rate v).
Proof.
  intros Hb. pose proof (binary64_nonneg v Hb) as Hv.
  pose proof factor_range as [Hf0 Hf1].
  unfold evaporate64. cbv zeta. destruct (Qlt_le_dec _ _); [by left|].
  apply round_binary64. apply Qmult_le_0_compat; lra.
Qed.

Lemma evaporate64_zero v : (v == 0)%Q -> evaporate64 rate v = 0%Q.
Proof.
  intros Hv. unfold evaporate64, B64.mul. cbv zeta.
  rewrite (round_zero (v * B64.sub 1 rate)) by (rewrite Hv; ring).
  destruct (Qlt_le_dec _ _) as [_|H]; [done|]. exfalso.
  assert (0 < B64.round 0.01)%Q by (by vm_compute). lra.
Qed.

(** A cell that is not cleared loses at least [2^-60]. *)
Lemma evaporate64_progress v :
  binary64 v ->
  evaporate64 rate v = 0%Q \/ (evaporate64 rate v <= v - B64.pow2 (-60))%Q.
Proof.
  intros Hb. pose proof (binary64_nonneg v Hb) as Hv.
  pose proof factor_range as [Hf0 Hf1].
  pose proof (evaporate64_le v Hb) as Hle.
  unfold evaporate64 in *. cbv zeta in *.
  destruct (Qlt_le_dec _ _) as [_|Hc]; [by left | right].
  assert (B64.pow2 (-7) <= B64.round 0.01)%Q as Hc7 by (by vm_compute).
  assert (B64.pow2 (-7) <= v)%Q as Hv7 by lra.
  pose proof (pow2_pos (-7)) as Hp7.
  destruct (binary64_pos v Hb ltac:(lra)) as (m & e & E & Hm & He & Hn).
  assert (-60 < e) as He60.
  { assert (B64.pow2 (-7) < B64.pow2 (53 + e))%Q as Hlt; [|apply pow2_lt_inv in Hlt; lia].
    eapply Qle_lt_trans; [exact Hv7|]. rewrite E, pow2_plus.
    apply Qmult_lt_r; [apply pow2_pos|].
    rewrite (pow2_Z 53) by lia. rewrite <- Zlt_Qlt. lia. }
  destruct Hn as [->|Hn]; [lia|].
  assert (exists m' e', (v == inject_Z m' * B64.pow2 e')%Q /\
            2 ^ 52 < m' <= 2 ^ 53 /\ -60 <= e') as (m' & e' & E' & Hm' & He').
  { destruct (decide (m = 2 ^ 52)) as [->|Hne].
    - exists (2 ^ 53), (e - 1). split; [|lia]. rewrite E.
      replace e with (e - 1 + 1) at 1 by lia. rewrite pow2_plus.
      change (B64.pow2 1) with 2%Q.
      change (inject_Z (2 ^ 53)) with (inject_Z (2 ^ 52) * 2)%Q. ring.
    - exists m, e. split; [done | lia]. }
  pose proof (pow2_pos e') as Hpe.
  assert (B64.pow2 (-53) == 1 # 9007199254740992)%Q as E53 by reflexivity.
  assert (inject_Z (2 ^ 52) < inject_Z m')%Q as Hmq by (rewrite <- Zlt_Qlt; lia).
  change (inject_Z (2 ^ 52)) with (4503599627370496)%Q in Hmq.
  pose proof (round_below m' e' (v * B64.sub 1 rate) Hm' ltac:(lia)) as H.
  unfold B64.mul.
  assert (v * B64.sub 1 rate <= v * (1 - B64.pow2 (-53)))%Q as Hx by nra.
  assert (v * (1 - B64.pow2 (-53)) < (inject_Z m' - (1 # 2)) * B64.pow2 e')%Q as Hmid.
  { assert (v * (1 - B64.pow2 (-53))
            == (inject_Z m' - inject_Z m' * (1 # 9007199254740992)) * B64.pow2 e')%Q
      as -> by (rewrite E', E53; ring).
    apply Qmult_lt_r; [done|]. lra. }
  specialize (H ltac:(apply Qmult_le_0_compat; lra) ltac:(lra)).
  eapply Qle_trans; [exact H|].
  replace (m' - 1) with (m' + -1) by lia. rewrite inject_Z_plus.
  change (inject_Z (-1)) with (- (1))%Q.
  assert (B64.pow2 (-60) <= B64.pow2 e')%Q by (apply pow2_le; lia).
  rewrite E'. lra.
Qed.

Lemma evaporate64_iter_inv n v :
  binary64 v -> binary64 (Nat.iter n (evaporate64 rate) v).
Proof.
  intros Hb. induction n as [|n IH]; [done|]. simpl. by apply evaporate64_binary64.
Qed.

Lemma evaporate64_iter_zero n v :
  (v == 0)%Q -> (0 < n)%nat -> Nat.iter n (evaporate64 rate) v = 0%Q.
Proof.
  intros Hv Hn. destruct n as [|n]; [lia|]. clear Hn.
  induction n as [|n IH]; simpl in *.
  - by apply evaporate64_zero.
  - rewrite IH. by apply evaporate64_zero.
Qed.

Lemma evaporate64_iter_decay n v :
  binary64 v ->
  (0 < n)%nat ->
  Nat.iter n (evaporate64 rate) v = 0%Q \/
  (Nat.iter n (evaporate64 rate) v
   <= v - inject_Z (Z.of_nat n) * B64.pow2 (-60))%Q.
Proof.
  intros Hb Hn. destruct n as [|n]; [lia|]. clear Hn.
  pose proof (pow2_pos (-60)) as Hp.
  induction n as [|n IH].
  - simpl Nat.iter. destruct (evaporate64_progress v Hb) as [H|H]; [by left | right].
    change (inject_Z (Z.of_nat 1)) with 1%Q. lra.
  - change (Nat.iter (S (S n)) (evaporate64 rate) v)
      with (evaporate64 rate (Nat.iter (S n) (evaporate64 rate) v)).
    destruct IH as [IH|IH].
    + left. rewrite IH. by apply evaporate64_zero.
    + destruct (evaporate64_progress _ (evaporate64_iter_inv (S n) v Hb)) as [H|H];
        [by left | right].
      rewrite (Nat2Z.inj_succ (S n)), <- Z.add_1_r, inject_Z_plus.
      change (inject_Z 1) with 1%Q. lra.
Qed.

End Decay.

Lemma binary64b_sound v : binary64b v = true -> binary64 v.
Proof.
  unfold binary64b. intros H. apply andb_true_iff in H as [H0 Hr].
  apply Qle_bool_iff in H0. apply Qeq_bool_iff in Hr.
  eapply binary64_proper; [exact Hr|]. by apply round_binary64.
Qed.

Lemma field_binary64b_sound g : field_binary64b g = true -> field_binary64 g.
Proof.
  intros H x y v Hv. apply grid_lookup_Some in Hv as (_ & _ & col & Hc & Hv).
  unfold field_binary64b in H. rewrite forallb_forall in H.
  specialize (H col). rewrite forallb_forall in H.
  assert (In col g) as Hin1 by (apply list_elem_of_In; by eapply list_elem_of_lookup_2).
  assert (In v col) as Hin2 by (apply list_elem_of_In; by eapply list_elem_of_lookup_2).
  by apply binary64b_sound, H.
Qed.

(** Beyond [m / 2^-60] passes a cell that started at most [m] is 0. *)
Lemma evaporate64_iter_ends rate m v n :
  (B64.pow2 (-54) < rate <= 1)%Q ->
  binary64 v -> (v <= m)%Q ->
  (Z.to_nat (Qceiling (m / B64.pow2 (-60))) < n)%nat ->
  Nat.iter n (evaporate64 rate) v = 0%Q.
Proof.
  intros Hr Hb Hm Hn.
  destruct (evaporate64_iter_decay rate Hr n v Hb ltac:(lia)) as [H|H]; [done|].
  exfalso.
  pose proof (binary64_nonneg _ (evaporate64_iter_inv rate Hr n v Hb)) as Hnn.
  pose proof (pow2_pos (-60)) as Hp.
  pose proof (Qle_ceiling (m / B64.pow2 (-60))) as Hc.
  assert (inject_Z (Qceiling (m / B64.pow2 (-60)) + 1) <= inject_Z (Z.of_nat n))%Q as Hle.
  { rewrite <- Zle_Qle. lia. }
  rewrite inject_Z_plus in Hle. change (inject_Z 1) with 1%Q in Hle.
  assert (m / B64.pow2 (-60) * B64.pow2 (-60) == m)%Q as Hdiv by (field; lra).
  assert (m < inject_Z (Z.of_nat n) * B64.pow2 (-60))%Q; [nra | lra].
Qed.

(** What [updatePheromones64] leaves in a cell of either field. *)
Lemma updatePheromones64_lookup cfg w x y :
  0 <= x < GRID_COLS cfg -> 0 <= y < GRID_ROWS cfg ->
  grid_lookup (explorePheromones (updatePheromones64 cfg w)) x y
    = evaporate64 (B64.round (EVAPORATION_RATE cfg)) <$> grid_lookup (explorePheromones w) x y
  /\ grid_lookup (returnPheromones (updatePheromones64 cfg w)) x y
    = evaporate64 (B64.round (EVAPORATION_RATE cfg)) <$> grid_lookup (returnPheromones w) x y.
Proof.
  intros Hx Hy. unfold updatePheromones64.
  set (f := evaporate64 (B64.round (EVAPORATION_RATE cfg))).
  match goal with |- context [for_lt 0 (GRID_COLS cfg) ?b _] => set (body := b) end.
  pose (I := fun (i : Z) (p : grid Q * grid Q) =>
    forall x' y', 0 <= y' < GRID_ROWS cfg ->
      grid_lookup p.1 x' y' =
        (if decide (0 <= x' < i) then f <$> grid_lookup (explorePheromones w) x' y'
         else grid_lookup (explorePheromones w) x' y') /\
      grid_lookup p.2 x' y' =
        (if decide (0 <= x' < i) then f <$> grid_lookup (returnPheromones w) x' y'
         else grid_lookup (returnPheromones w) x' y')).
  assert (I (GRID_COLS cfg)
            (for_lt 0 (GRID_COLS cfg) body (explorePheromones w, returnPheromones w)))
    as HI.
  { apply for_lt_ind; [lia | |].
    - intros x' y' _. simpl. by rewrite !decide_False by lia.
    - intros i p Hi Hp. subst body. simpl.
      pose (J := fun (j : Z) (q : grid Q * grid Q) =>
        forall x' y', 0 <= y' < GRID_ROWS cfg ->
          grid_lookup q.1 x' y' =
            (if decide (x' = i /\ y' < j) then f <$> grid_lookup p.1 x' y'
             else grid_lookup p.1 x' y') /\
          grid_lookup q.2 x' y' =
            (if decide (x' = i /\ y' < j) then f <$> grid_lookup p.2 x' y'
             else grid_lookup p.2 x' y')).
      match goal with |- I _ (for_lt 0 ?h ?b ?s) =>
        assert (J h (for_lt 0 h b s)) as HJ end.
      { apply for_lt_ind; [lia | |].
        - intros x' y' Hy'. by rewrite !decide_False by lia.
        - intros j [q1 q2] Hj Hq x' y' Hy'. simpl.
          destruct (Hq x' y' Hy') as [E1 E2]. simpl in E1, E2.
          rewrite !grid_modify_lookup, E1, E2.
          repeat case_decide; simplify_eq; try lia; try done.
          exfalso. match goal with H : (_, _) <> (_, _) |- _ => apply H end.
          f_equal; lia. }
      intros x' y' Hy'. destruct (HJ x' y' Hy') as [-> ->].
      destruct (Hp x' y' Hy') as [-> ->].
      repeat case_decide; try lia; try done. }
  destruct (for_lt 0 (GRID_COLS cfg) body _) as [ex re]. simpl.
  destruct (HI x y Hy) as [E1 E2]. simpl in E1, E2.
  rewrite E1, E2. by rewrite !decide_True by lia.
Qed.

Lemma updatePheromones64_iter_lookup cfg w n x y :
  0 <= x < GRID_COLS cfg -> 0 <= y < GRID_ROWS cfg ->
  grid_lookup (explorePheromones (Nat.iter n (updatePheromones64 cfg) w)) x y
    = Nat.iter n (evaporate64 (B64.round (EVAPORATION_RATE cfg)))
        <$> grid_lookup (explorePheromones w) x y
  /\ grid_lookup (returnPheromones (Nat.iter n (updatePheromones64 cfg) w)) x y
    = Nat.iter n (evaporate64 (B64.round (EVAPORATION_RATE cfg)))
        <$> grid_lookup (returnPheromones w) x y.
Proof.
  intros Hx Hy. induction n as [|n [IHe IHr]].
  - split; by rewrite option_fmap_id.
  - rewrite !iter_S.
    destruct (updatePheromones64_lookup cfg (Nat.iter n (updatePheromones64 cfg) w) x y
                Hx Hy) as [-> ->].
    rewrite IHe, IHr. split; by rewrite <- option_fmap_compose.
Qed.

(** C8 (as the code has it).  With no deposit made, for a rate, as the
    binary64 number it is, with [2^-54 < rate <= 1] (the rates for which
    the factor [1.0 - rate] of the program is below 1) and fields whose
    cells are binary64 numbers in [[0, PHEROMONE_MAX]]: under repeated
    evaporation, the arithmetic being that of the program, every cell of
    either grid stays where it is, the values it takes never increase,
    and from some number of passes on (one bound for both fields) every
    cell is exactly 0; a cell that is not there never appears. *)
Theorem evaporation_decays_to_zero (cfg : Config) (w : Sim) :
  (B64.pow2 (-54) < B64.round (EVAPORATION_RATE cfg) <= 1)%Q ->
  fields_bounded cfg w -> fields_binary64 w ->
  let after n := Nat.iter n (updatePheromones64 cfg) w in
  exists steps : nat,
    forall field : Sim -> grid Q,
      field = explorePheromones \/ field = returnPheromones ->
      forall x y, 0 <= x < GRID_COLS cfg -> 0 <= y < GRID_ROWS cfg ->
        match grid_lookup (field w) x y with
        | None => forall n, grid_lookup (field (after n)) x y = None
        | Some v =>
            (forall n, exists v_n v_n',
               grid_lookup (field (after n)) x y = Some v_n /\
               grid_lookup (field (after (S n))) x y = Some v_n' /\
               (v_n' <= v_n)%Q)
            /\ (forall n, (steps <= n)%nat ->
                  grid_lookup (field (after n)) x y = Some 0%Q)
        end.
Proof.
  intros Hr [He Hre] [Hbe Hbr] after.
  exists (S (Z.to_nat (Qceiling (PHEROMONE_MAX cfg / B64.pow2 (-60))))).
  intros field Hfield x y Hx Hy.
  assert (forall n, grid_lookup (field (after n)) x y
                    = Nat.iter n (evaporate64 (B64.round (EVAPORATION_RATE cfg)))
                        <$> grid_lookup (field w) x y) as Hf.
  { intros n. destruct Hfield as [-> | ->];
      apply (updatePheromones64_iter_lookup cfg w n x y Hx Hy). }
  assert (forall v, grid_lookup (field w) x y = Some v ->
            binary64 v /\ (v <= PHEROMONE_MAX cfg)%Q) as Hcell.
  { intros v Hv. destruct Hfield as [-> | ->].
    - split; [by eapply Hbe | by eapply He].
    - split; [by eapply Hbr | by eapply Hre]. }
  destruct (grid_lookup (field w) x y) as [v|] eqn:Ev.
  - destruct (Hcell v eq_refl) as [Hb Hm]. split.
    + intros n. exists (Nat.iter n (evaporate64 (B64.round (EVAPORATION_RATE cfg))) v),
        (Nat.iter (S n) (evaporate64 (B64.round (EVAPORATION_RATE cfg))) v).
      rewrite !Hf. split; [done|]. split; [done|]. rewrite iter_S.
      apply evaporate64_le; [done|]. by apply evaporate64_iter_inv.
    + intros n Hn. rewrite Hf. simpl. f_equal.
      apply (evaporate64_iter_ends _ (PHEROMONE_MAX cfg)); [done | done | done | lia].
  - intros n. by rewrite Hf.
Qed.

(** ** Steering *)

Lemma PI_pos : (0 < P5.PI)%Q.
Proof. reflexivity. Qed.

Lemma TWO_PI_eq : (P5.TWO_PI == 2 * P5.PI)%Q.
Proof. reflexivity. Qed.

(** The first loop ends once the fuel covers the number of turns the
    difference lies above [PI]; it takes whole turns off and stops at or
    below [PI], above [-PI] if it ran at all. *)
Lemma wrap_down_spec (m : nat) :
  forall angleDiff fuel,
    (angleDiff <= P5.PI + inject_Z (Z.of_nat m) * P5.TWO_PI)%Q ->
    (m <= fuel)%nat ->
    exists d (k : Z),
      wrap_down fuel angleDiff = Some d /\
      (d == angleDiff - inject_Z k * P5.TWO_PI)%Q /\
      (d <= P5.PI)%Q /\
      (angleDiff <= P5.PI -> d = angleDiff)%Q /\
      (- P5.PI <= angleDiff -> - P5.PI <= d)%Q.
Proof.
  pose proof PI_pos as Hpi. pose proof TWO_PI_eq as H2pi.
  induction m as [|m IH]; intros angleDiff fuel Hd Hf.
  - change (inject_Z (Z.of_nat 0)) with 0%Q in Hd.
    exists angleDiff, 0. change (inject_Z 0) with 0%Q.
    assert (wrap_down fuel angleDiff = Some angleDiff) as ->.
    { destruct fuel; simpl; destruct (Qlt_le_dec _ _); try done; lra. }
    repeat split; try done; lra.
  - destruct (Qlt_le_dec P5.PI angleDiff) as [Hlt|Hle].
    + destruct fuel as [|fuel]; [lia|].
      rewrite inject_Z_S in Hd.
      destruct (IH (angleDiff - P5.TWO_PI)%Q fuel) as (d & k & Hw & Hk & Hle & Hid & Hlow);
        [lra | lia |].
      exists d, (k + 1). simpl.
      destruct (Qlt_le_dec P5.PI angleDiff); [|lra].
      rewrite inject_Z_plus. change (inject_Z 1) with 1%Q.
      repeat split; try done; try lra.
    + exists angleDiff, 0. change (inject_Z 0) with 0%Q.
      assert (wrap_down fuel angleDiff = Some angleDiff) as ->.
      { destruct fuel; simpl; destruct (Qlt_le_dec _ _); try done; lra. }
      repeat split; try done; lra.
Qed.

Lemma wrap_up_spec (m : nat) :
  forall angleDiff fuel,
    (- P5.PI - inject_Z (Z.of_nat m) * P5.TWO_PI <= angleDiff)%Q ->
    (m <= fuel)%nat ->
    exists d (k : Z),
      wrap_up fuel angleDiff = Some d /\
      (d == angleDiff + inject_Z k * P5.TWO_PI)%Q /\
      (- P5.PI <= d)%Q /\
      (- P5.PI <= angleDiff -> d = angleDiff)%Q /\
      (angleDiff <= P5.PI -> d <= P5.PI)%Q.
Proof.
  pose proof PI_pos as Hpi. pose proof TWO_PI_eq as H2pi.
  induction m as [|m IH]; intros angleDiff fuel Hd Hf.
  - change (inject_Z (Z.of_nat 0)) with 0%Q in Hd.
    exists angleDiff, 0. change (inject_Z 0) with 0%Q.
    assert (wrap_up fuel angleDiff = Some angleDiff) as ->.
    { destruct fuel; simpl; destruct (Qlt_le_dec _ _); try done; lra. }
    repeat split; try done; lra.
  - destruct (Qlt_le_dec angleDiff (- P5.PI)) as [Hlt|Hle].
    + destruct fuel as [|fuel]; [lia|].
      rewrite inject_Z_S in Hd.
      destruct (IH (angleDiff + P5.TWO_PI)%Q fuel) as (d & k & Hw & Hk & Hle & Hid & Hhigh);
        [lra | lia |].
      exists d, (k + 1). simpl.
      destruct (Qlt_le_dec angleDiff (- P5.PI)); [|lra].
      rewrite inject_Z_plus. change (inject_Z 1) with 1%Q.
      repeat split; try done; try lra.
    + exists angleDiff, 0. change (inject_Z 0) with 0%Q.
      assert (wrap_up fuel angleDiff = Some angleDiff) as ->.
      { destruct fuel; simpl; destruct (Qlt_le_dec _ _); try done; lra. }
      repeat split; try done; lra.
Qed.

(** Some number of whole turns reaches any angle from [PI]. *)
Lemma turns_above (x : Q) :
  exists m : nat, (x <= P5.PI + inject_Z (Z.of_nat m) * P5.TWO_PI)%Q.
Proof.
  pose proof PI_pos as Hpi. pose proof TWO_PI_eq as H2pi.
  exists (Z.to_nat (Qfloor (x / P5.TWO_PI) + 1)).
  pose proof (Qlt_floor (x / P5.TWO_PI)) as Hfl.
  assert (x / P5.TWO_PI * P5.TWO_PI == x)%Q as Hdiv by (field; lra).
  destruct (Z.le_gt_cases 0 (Qfloor (x / P5.TWO_PI) + 1)) as [H|H].
  - rewrite Z2Nat.id by done. nra.
  - replace (Z.to_nat _) with 0%nat by lia. change (inject_Z (Z.of_nat 0)) with 0%Q.
    assert (inject_Z (Qfloor (x / P5.TWO_PI) + 1) <= 0)%Q
      by (change 0%Q with (inject_Z 0); rewrite <- Zle_Qle; lia).
    nra.
Qed.

Lemma constrain_spec n low high :
  (low <= high)%Q ->
  (low <= P5.constrain n low high <= high)%Q /\
  (low <= n <= high -> P5.constrain n low high == n)%Q /\
  (n <= low -> P5.constrain n low high == low)%Q /\
  (high <= n -> P5.constrain n low high == high)%Q.
Proof.
  intros H. unfold P5.constrain.
  destruct (Q.max_spec (Qmin n high) low) as [[? ->]|[? ->]];
    destruct (Q.min_spec n high) as [[? E]|[? E]]; rewrite ?E in *;
    repeat split; intros; try lra.
Qed.

(** The steering ends, given fuel for its two loops, on the current
    heading plus the clamped difference of the headings, the difference
    first brought into [[-PI, PI]] by whole turns. *)
Lemma steer_spec (cfg : Config) (currentAngle desiredAngle : Q) :
  exists enough : nat, forall fuel, (enough <= fuel)%nat ->
    exists (angleDiff : Q) (k : Z),
      steer cfg fuel currentAngle desiredAngle
        = Some (currentAngle
                + P5.constrain angleDiff (- TURN_ANGLE cfg) (TURN_ANGLE cfg))%Q /\
      (angleDiff == desiredAngle - currentAngle + inject_Z k * P5.TWO_PI)%Q /\
      (- P5.PI <= angleDiff <= P5.PI)%Q /\
      (- P5.PI <= desiredAngle - currentAngle <= P5.PI ->
         angleDiff = desiredAngle - currentAngle)%Q.
Proof.
  pose proof PI_pos as Hpi. pose proof TWO_PI_eq as H2pi.
  destruct (turns_above (desiredAngle - currentAngle)) as [m1 Hm1].
  destruct (turns_above (- (desiredAngle - currentAngle))) as [m2 Hm2].
  exists (m1 + m2)%nat. intros fuel Hfuel.
  destruct (wrap_down_spec m1 (desiredAngle - currentAngle)%Q fuel)
    as (d1 & k1 & Hw1 & Hk1 & Hle1 & Hid1 & Hlow1); [done | lia |].
  destruct (wrap_up_spec m2 d1 fuel) as (d2 & k2 & Hw2 & Hk2 & Hle2 & Hid2 & Hhigh2);
    [|lia|].
  { destruct (Qlt_le_dec P5.PI (desiredAngle - currentAngle)) as [H|H].
    - assert (0 <= inject_Z (Z.of_nat m2) * P5.TWO_PI)%Q.
      { apply Qmult_le_0_compat; [|lra].
        change 0%Q with (inject_Z 0). rewrite <- Zle_Qle. lia. }
      assert (- P5.PI <= d1)%Q by (apply Hlow1; lra). lra.
    - rewrite (Hid1 H). lra. }
  exists d2, (k2 - k1).
  unfold steer. rewrite Hw1. cbn [mbind option_bind]. rewrite Hw2.
  cbn [mbind option_bind].
  split; [done|]. split.
  { unfold Zminus. rewrite inject_Z_plus, inject_Z_opp. lra. }
  split; [split; [done | apply Hhigh2; lra]|].
  intros [Hlo Hhi]. rewrite Hid2; rewrite Hid1; done.
Qed.

(** C6.  For any current and any desired heading, with [TURN_ANGLE] not
    negative, the steering of [move] ends (given fuel for its two loops)
    and the heading it reaches before the random turn differs from the
    current one by at most [TURN_ANGLE]: the difference of the headings,
    brought into [[-PI, PI]] by whole turns, is clamped to
    [[-TURN_ANGLE, TURN_ANGLE]], so the turn has the sign of the shorter
    way round and never goes past the desired heading. *)
Theorem turn_is_clamped (cfg : Config) (currentAngle desiredAngle : Q) :
  (0 <= TURN_ANGLE cfg)%Q ->
  exists enough : nat, forall fuel, (enough <= fuel)%nat ->
    exists (newAngle angleDiff : Q) (k : Z),
      steer cfg fuel currentAngle desiredAngle = Some newAngle /\
      (angleDiff == desiredAngle - currentAngle + inject_Z k * P5.TWO_PI)%Q /\
      (- P5.PI <= angleDiff <= P5.PI)%Q /\
      (newAngle - currentAngle
         == P5.constrain angleDiff (- TURN_ANGLE cfg) (TURN_ANGLE cfg))%Q /\
      (Qabs (newAngle - currentAngle) <= TURN_ANGLE cfg)%Q /\
      (0 <= angleDiff -> 0 <= newAngle - currentAngle <= angleDiff)%Q /\
      (angleDiff <= 0 -> angleDiff <= newAngle - currentAngle <= 0)%Q.
Proof.
  intros Ht.
  destruct (steer_spec cfg currentAngle desiredAngle) as [enough Hs].
  exists enough. intros fuel Hfuel.
  destruct (Hs fuel Hfuel) as (d & k & Hst & Hk & Hd & _).
  exists (currentAngle + P5.constrain d (- TURN_ANGLE cfg) (TURN_ANGLE cfg))%Q, d, k.
  destruct (constrain_spec d (- TURN_ANGLE cfg) (TURN_ANGLE cfg)) as (Hc & Hin & Hlo & Hhi);
    [lra|].
  do 3 (split; [done|]).
  split; [lra|].
  split; [apply Qabs_Qle_condition; lra|].
  split; intros Hsgn.
  - destruct (Qlt_le_dec d (TURN_ANGLE cfg)) as [H|H].
    + rewrite (Qplus_comm currentAngle). unfold Qminus. rewrite <- Qplus_assoc, Qplus_opp_r.
      rewrite Hin by lra. lra.
    + rewrite (Qplus_comm currentAngle). unfold Qminus. rewrite <- Qplus_assoc, Qplus_opp_r.
      rewrite Hhi by lra. lra.
  - destruct (Qlt_le_dec (- TURN_ANGLE cfg) d) as [H|H].
    + rewrite (Qplus_comm currentAngle). unfold Qminus. rewrite <- Qplus_assoc, Qplus_opp_r.
      rewrite Hin by lra. lra.
    + rewrite (Qplus_comm currentAngle). unfold Qminus. rewrite <- Qplus_assoc, Qplus_opp_r.
      rewrite Hlo by lra. lra.
Qed.

(** ** Early-exit loops as searches along a list *)

Lemma for_first_zseq {R : Type} (body : Z -> option R) n lo :
  for_first n lo body = first_some body (zseq lo n).
Proof.
  revert lo. induction n as [|n IH]; intros lo; simpl; [done|].
  by rewrite IH.
Qed.

Lemma elem_of_zseq z lo n : In z (zseq lo n) <-> lo <= z < lo + Z.of_nat n.
Proof.
  revert lo. induction n as [|n IH]; intros lo; simpl; [lia|].
  rewrite IH. lia.
Qed.

Lemma zseq_shift d lo n : zseq (d + lo) n = List.map (Z.add d) (zseq lo n).
Proof.
  revert lo. induction n as [|n IH]; intros lo; simpl; [done|].
  f_equal. rewrite <- IH. f_equal. lia.
Qed.

Lemma first_some_app {A R : Type} (f : A -> option R) l1 l2 :
  first_some f (l1 ++ l2) =
  match first_some f l1 with Some r => Some r | None => first_some f l2 end.
Proof.
  induction l1 as [|x l1 IH]; simpl; [done|]. by destruct (f x).
Qed.

Lemma first_some_ext {A R : Type} (f g : A -> option R) l :
  (forall x, In x l -> f x = g x) -> first_some f l = first_some g l.
Proof.
  induction l as [|x l IH]; intros H; simpl; [done|].
  rewrite (H x) by (by left). rewrite IH; [done|]. intros y Hy. apply H. by right.
Qed.

Lemma first_some_map {A B R : Type} (f : B -> option R) (h : A -> B) l :
  first_some f (List.map h l) = first_some (fun x => f (h x)) l.
Proof.
  induction l as [|x l IH]; simpl; [done|]. by rewrite IH.
Qed.

Lemma first_some_filter {A R : Type} (f : A -> option R) (p : A -> bool) l :
  first_some f (List.filter p l) = first_some (fun x => if p x then f x else None) l.
Proof.
  induction l as [|x l IH]; simpl; [done|]. destruct (p x); simpl; by rewrite IH.
Qed.

Lemma first_some_flat_map {A B R : Type} (f : B -> option R) (g : A -> list B) l :
  first_some f (flat_map g l) = first_some (fun x => first_some f (g x)) l.
Proof.
  induction l as [|x l IH]; simpl; [done|]. by rewrite first_some_app, IH.
Qed.

Lemma first_some_find {A R : Type} (p : A -> bool) (h : A -> R) l :
  first_some (fun x => if p x then Some (h x) else None) l = h <$> List.find p l.
Proof.
  induction l as [|x l IH]; simpl; [done|]. by destruct (p x).
Qed.

Lemma first_some_fmap {A B R : Type} (k : A -> option B) (h : B -> R) l :
  first_some (fun x => h <$> k x) l = h <$> first_some k l.
Proof.
  induction l as [|x l IH]; simpl; [done|]. by destruct (k x).
Qed.


Lemma find_append {A : Type} (p : A -> bool) l1 l2 :
  List.find p (l1 ++ l2) =
  match List.find p l1 with Some x => Some x | None => List.find p l2 end.
Proof.
  induction l1 as [|x l1 IH]; simpl; [done|]. by destruct (p x).
Qed.

Lemma find_flat_map {A B : Type} (p : B -> bool) (g : A -> list B) l :
  List.find p (flat_map g l) = first_some (fun x => List.find p (g x)) l.
Proof.
  induction l as [|x l IH]; simpl; [done|].
  rewrite find_append. by rewrite IH.
Qed.

(** ** Placing colony and food *)

Lemma readCell_valid {A : Type} cols rows (g : grid A) x y :
  grid_dims cols rows g -> 0 <= x < cols -> 0 <= y < rows ->
  exists c, readCell g x y = Normal (Some c) /\ grid_lookup g x y = Some c.
Proof.
  intros Hd Hx Hy.
  destruct (proj2 (grid_lookup_dims cols rows g x y Hd)) as [c Hc]; [done|].
  exists c. split; [|done].
  apply grid_lookup_Some in Hc as (_ & _ & col & Hcol & Hc).
  unfold readCell.
  replace (0 <=? x) with true by (symmetry; apply Z.leb_le; lia).
  replace (0 <=? y) with true by (symmetry; apply Z.leb_le; lia).
  by rewrite Hcol, Hc.
Qed.

Lemma isValidGridPos_spec cfg x y :
  isValidGridPos cfg x y = true <-> 0 <= x < GRID_COLS cfg /\ 0 <= y < GRID_ROWS cfg.
Proof.
  unfold isValidGridPos. rewrite !andb_true_iff, !Z.leb_le, !Z.ltb_lt. lia.
Qed.

Lemma constrainZ_range n hi : 0 <= hi -> 0 <= P5.constrainZ n 0 hi <= hi.
Proof. unfold P5.constrainZ. lia. Qed.

Lemma constrainZ_id n hi : 0 <= n <= hi -> P5.constrainZ n 0 hi = n.
Proof. unfold P5.constrainZ. lia. Qed.

(** One ring of the scan is the search for the first open cell of the
    perimeter. *)
Lemma ring_scan cfg maze tx ty radius :
  grid_dims (GRID_COLS cfg) (GRID_ROWS cfg) maze ->
  0 <= radius ->
  for_le_first (- radius) radius (fun i =>
    for_le_first (- radius) radius (fun j =>
      checkRingCell cfg maze tx ty radius i j))
  = (fun c => Normal (Some c)) <$> List.find (isOpen cfg maze) (ring (tx, ty) radius).
Proof.
  intros Hd Hr. unfold for_le_first, ring, square.
  rewrite <- first_some_find, first_some_filter, first_some_flat_map.
  rewrite for_first_zseq. simpl.
  replace (tx - radius) with (tx + - radius) by lia.
  replace (ty - radius) with (ty + - radius) by lia.
  rewrite (zseq_shift tx), first_some_map.
  replace (Z.to_nat (radius - - radius + 1)) with (Z.to_nat (2 * radius + 1)) by lia.
  apply first_some_ext. intros i Hi. apply elem_of_zseq in Hi.
  rewrite for_first_zseq, (zseq_shift ty), !first_some_map.
  apply first_some_ext. intros j Hj. apply elem_of_zseq in Hj.
  unfold checkRingCell, chebyshev, isOpen. simpl.
  destruct (Z.eqb_spec (Z.abs i) radius), (Z.eqb_spec (Z.abs j) radius); simpl;
    destruct (Z.eqb_spec (Z.max (Z.abs (tx + i - tx)) (Z.abs (ty + j - ty))) radius);
    try lia; try done.
  all: destruct (isValidGridPos cfg (tx + i) (ty + j)) eqn:Hv; simpl; try done.
  all: apply isValidGridPos_spec in Hv as [Hx Hy].
  all: destruct (readCell_valid _ _ maze (tx + i) (ty + j) Hd Hx Hy) as (c & -> & ->).
  all: destruct (Z.eqb_spec c 0) as [->|Hc]; [by rewrite bool_decide_eq_true_2|].
  all: rewrite bool_decide_eq_false_2; [done | congruence].
Qed.

(** The program's search is [placeNear] at the clamped target. *)
Lemma findValidPosition_placeNear cfg maze targetX targetY :
  grid_dims (GRID_COLS cfg) (GRID_ROWS cfg) maze ->
  0 < GRID_COLS cfg -> 0 < GRID_ROWS cfg ->
  findValidPosition cfg maze targetX targetY
  = Normal (placeNear cfg maze (P5.constrainZ targetX 0 (GRID_COLS cfg - 1),
                                P5.constrainZ targetY 0 (GRID_ROWS cfg - 1))).
Proof.
  intros Hd Hc Hr. unfold findValidPosition, placeNear. simpl.
  set (tx := P5.constrainZ targetX 0 (GRID_COLS cfg - 1)).
  set (ty := P5.constrainZ targetY 0 (GRID_ROWS cfg - 1)).
  pose proof (constrainZ_range targetX (GRID_COLS cfg - 1)) as Hx.
  pose proof (constrainZ_range targetY (GRID_ROWS cfg - 1)) as Hy.
  destruct (readCell_valid _ _ maze tx ty Hd) as (c & -> & ->);
    [subst tx; lia | subst ty; lia |].
  destruct (bool_decide (Some c = Some 0)); [done|].
  unfold for_lt_first, scanOrder. rewrite for_first_zseq, find_flat_map.
  rewrite (first_some_ext _
    (fun radius => (fun c => Normal (Some c)) <$> List.find (isOpen cfg maze) (ring (tx, ty) radius))).
  - rewrite first_some_fmap. by destruct (first_some _ _).
  - intros radius Hrad. apply elem_of_zseq in Hrad. apply ring_scan; [done | lia].
Qed.

Lemma elem_of_ring c target radius :
  0 <= radius -> In c (ring target radius) <-> chebyshev c target = radius.
Proof.
  intros Hr. unfold ring, square. rewrite filter_In, in_flat_map.
  destruct c as [x y], target as [tx ty]. unfold chebyshev. simpl. split.
  - intros [_ H]. by apply Z.eqb_eq in H.
  - intros H. split; [|by apply Z.eqb_eq].
    exists x. rewrite in_map_iff. split.
    + apply elem_of_zseq. lia.
    + exists y. split; [done|]. apply elem_of_zseq. lia.
Qed.

(** Searching the rings from radius [lo] upwards finds an open cell of
    least distance among those at distance [lo] or more, and finds none
    only if no ring of the scan holds one. *)
Lemma find_rings (p : Z * Z -> bool) target n :
  forall lo, 0 <= lo ->
    match List.find p (flat_map (ring target) (zseq lo n)) with
    | Some c =>
        p c = true /\ lo <= chebyshev c target < lo + Z.of_nat n /\
        forall c', p c' = true -> lo <= chebyshev c' target ->
                   chebyshev c target <= chebyshev c' target
    | None =>
        forall c', p c' = true -> ~ (lo <= chebyshev c' target < lo + Z.of_nat n)
    end.
Proof.
  induction n as [|n IH]; intros lo Hlo; simpl; [intros; lia|].
  rewrite find_append.
  destruct (List.find p (ring target lo)) as [c|] eqn:E.
  - apply find_some in E as [Hin Hp]. apply elem_of_ring in Hin; [|done].
    split; [done|]. split; [lia|]. intros; lia.
  - specialize (IH (lo + 1)). pose proof (find_none _ _ E) as Hnone.
    assert (forall c', p c' = true -> chebyshev c' target <> lo) as Hlo'.
    { intros c' Hp Hc. rewrite (Hnone c') in Hp; [done|]. by apply elem_of_ring. }
    destruct (List.find p (flat_map (ring target) (zseq (lo + 1) n))) as [c|].
    + destruct IH as (Hp & Hr & Hmin); [lia|].
      split; [done|]. split; [lia|]. intros c' Hp' Hc'.
      apply Hmin; [done|]. specialize (Hlo' c' Hp'). lia.
    + intros c' Hp' Hc'. specialize (Hlo' c' Hp').
      apply (IH ltac:(lia) c' Hp'). lia.
Qed.

Lemma isOpen_spec cfg maze c :
  isOpen cfg maze c = true <->
  (0 <= c.1 < GRID_COLS cfg /\ 0 <= c.2 < GRID_ROWS cfg) /\
  grid_lookup maze c.1 c.2 = Some Path.
Proof.
  unfold isOpen. by rewrite andb_true_iff, isValidGridPos_spec, bool_decide_eq_true.
Qed.

Lemma chebyshev_in_grid cfg c target :
  0 <= c.1 < GRID_COLS cfg -> 0 <= c.2 < GRID_ROWS cfg ->
  0 <= target.1 < GRID_COLS cfg -> 0 <= target.2 < GRID_ROWS cfg ->
  chebyshev c target < Z.max (GRID_COLS cfg) (GRID_ROWS cfg).
Proof. unfold chebyshev. lia. Qed.

Lemma chebyshev_zero c target : chebyshev c target = 0 -> c = target.
Proof.
  destruct c, target. unfold chebyshev. simpl. intros H. f_equal; lia.
Qed.

(** What [placeNear] answers, for a target inside the grid. *)
Lemma placeNear_spec cfg maze target :
  grid_dims (GRID_COLS cfg) (GRID_ROWS cfg) maze ->
  0 <= target.1 < GRID_COLS cfg -> 0 <= target.2 < GRID_ROWS cfg ->
  match placeNear cfg maze target with
  | Some c =>
      isOpen cfg maze c = true /\
      forall c', isOpen cfg maze c' = true ->
                 chebyshev c target <= chebyshev c' target
  | None => forall c', isOpen cfg maze c' = false
  end.
Proof.
  intros Hd Hx Hy. unfold placeNear. case_bool_decide as Ht.
  - split.
    + apply isOpen_spec. done.
    + intros c' _. destruct target. unfold chebyshev. simpl. lia.
  - unfold scanOrder.
    pose proof (find_rings (isOpen cfg maze) target
                  (Z.to_nat (Z.max (GRID_COLS cfg) (GRID_ROWS cfg) - 1)) 1 ltac:(lia)) as H.
    assert (forall c', isOpen cfg maze c' = true ->
              1 <= chebyshev c' target < Z.max (GRID_COLS cfg) (GRID_ROWS cfg)) as Hrange.
    { intros c' Hc'. apply isOpen_spec in Hc' as [[Hx' Hy'] Hp].
      pose proof (chebyshev_in_grid cfg c' target Hx' Hy' Hx Hy).
      destruct (decide (chebyshev c' target = 0)) as [E|E].
      - apply chebyshev_zero in E as ->. done.
      - unfold chebyshev in *. lia. }
    destruct (List.find _ _) as [c|].
    + destruct H as (Hp & _ & Hmin). split; [done|].
      intros c' Hc'. apply Hmin; [done|]. apply Hrange in Hc'. lia.
    + intros c'. destruct (isOpen cfg maze c') eqn:Hc'; [|done].
      exfalso. apply (H c' Hc'). apply Hrange in Hc'. lia.
Qed.

(** C7.  On a maze of the configured size, with the target clamped into
    the grid: a target whose cell is [Path] is returned as it is; a
    target whose cell is not [Path] gets the first in-bounds [Path] cell
    along the rings of radius 1, 2, ... (each ring only its perimeter, in
    the order of the two inner loops), which is an open cell of least
    Chebyshev distance from the target; and the answer is none if no open
    cell lies nearer than the larger grid dimension, which happens only
    when the maze has no open cell at all. *)
Theorem findValidPosition_ring_search (cfg : Config) (maze : grid Z) (targetX targetY : Z) :
  grid_dims (GRID_COLS cfg) (GRID_ROWS cfg) maze ->
  0 < GRID_COLS cfg -> 0 < GRID_ROWS cfg ->
  let target := (P5.constrainZ targetX 0 (GRID_COLS cfg - 1),
                 P5.constrainZ targetY 0 (GRID_ROWS cfg - 1)) in
  (grid_lookup maze targetX targetY = Some Path ->
     findValidPosition cfg maze targetX targetY = Normal (Some (targetX, targetY)))
  /\ (grid_lookup maze target.1 target.2 <> Some Path ->
        findValidPosition cfg maze targetX targetY
        = Normal (List.find (isOpen cfg maze) (scanOrder cfg target)))
  /\ (forall c, findValidPosition cfg maze targetX targetY = Normal (Some c) ->
        isOpen cfg maze c = true /\
        forall c', isOpen cfg maze c' = true ->
                   chebyshev c target <= chebyshev c' target)
  /\ ((forall c', isOpen cfg maze c' = true ->
                  ~ chebyshev c' target < Z.max (GRID_COLS cfg) (GRID_ROWS cfg)) ->
        findValidPosition cfg maze targetX targetY = Normal None)
  /\ (findValidPosition cfg maze targetX targetY = Normal None ->
        forall c', isOpen cfg maze c' = false).
Proof.
  intros Hd Hc Hr target.
  pose proof (findValidPosition_placeNear cfg maze targetX targetY Hd Hc Hr) as Hf.
  fold target in Hf.
  pose proof (constrainZ_range targetX (GRID_COLS cfg - 1) ltac:(lia)) as Hx.
  pose proof (constrainZ_range targetY (GRID_ROWS cfg - 1) ltac:(lia)) as Hy.
  pose proof (placeNear_spec cfg maze target Hd) as Hs. simpl in Hs.
  specialize (Hs ltac:(lia) ltac:(lia)).
  rewrite Hf. split; [|split; [|split; [|split]]].
  - intros Hp.
    assert (is_Some (grid_lookup maze targetX targetY)) as Hin by eauto.
    apply (grid_lookup_dims _ _ _ _ _ Hd) in Hin as [Hx' Hy'].
    subst target. rewrite !constrainZ_id by lia.
    unfold placeNear. simpl. by rewrite bool_decide_eq_true_2.
  - intros Hp. unfold placeNear. by rewrite bool_decide_eq_false_2.
  - intros c [= Hc']. by rewrite Hc' in Hs.
  - intros Hnone. destruct (placeNear cfg maze target) as [c|]; [|done].
    destruct Hs as [Ho _]. exfalso. apply (Hnone c Ho).
    apply isOpen_spec in Ho as [[? ?] _].
    apply (chebyshev_in_grid cfg); simpl; lia.
  - intros [= Hn]. by rewrite Hn in Hs.
Qed.

(** C10.  For any integer target, on a maze of the configured size with
    at least one column and one row: the clamped target lies inside the
    grid; reading a cell that [isValidGridPos] accepts always yields a
    stored cell (so no read of the function leaves the maze); and the
    function never faults: it answers none or a cell that is inside the
    grid and is [Path]. *)
Theorem findValidPosition_is_safe (cfg : Config) (maze : grid Z) (targetX targetY : Z) :
  grid_dims (GRID_COLS cfg) (GRID_ROWS cfg) maze ->
  0 < GRID_COLS cfg -> 0 < GRID_ROWS cfg ->
  (0 <= P5.constrainZ targetX 0 (GRID_COLS cfg - 1) < GRID_COLS cfg /\
   0 <= P5.constrainZ targetY 0 (GRID_ROWS cfg - 1) < GRID_ROWS cfg)
  /\ (forall x y, isValidGridPos cfg x y = true ->
        exists c, readCell maze x y = Normal (Some c))
  /\ findValidPosition cfg maze targetX targetY <> Throw
  /\ (findValidPosition cfg maze targetX targetY = Normal None \/
      exists x y,
        findValidPosition cfg maze targetX targetY = Normal (Some (x, y)) /\
        0 <= x < GRID_COLS cfg /\ 0 <= y < GRID_ROWS cfg /\
        grid_lookup maze x y = Some Path).
Proof.
  intros Hd Hc Hr.
  pose proof (constrainZ_range targetX (GRID_COLS cfg - 1) ltac:(lia)) as Hx.
  pose proof (constrainZ_range targetY (GRID_ROWS cfg - 1) ltac:(lia)) as Hy.
  split; [lia|]. split.
  { intros x y Hv. apply isValidGridPos_spec in Hv as [Hx' Hy'].
    destruct (readCell_valid _ _ maze x y Hd Hx' Hy') as (c & E & _). eauto. }
  rewrite (findValidPosition_placeNear cfg maze targetX targetY Hd Hc Hr).
  split; [done|].
  pose proof (placeNear_spec cfg maze
                (P5.constrainZ targetX 0 (GRID_COLS cfg - 1),
                 P5.constrainZ targetY 0 (GRID_ROWS cfg - 1)) Hd
                ltac:(simpl; lia) ltac:(simpl; lia)) as Hs.
  destruct (placeNear cfg maze _) as [[x y]|]; [right | by left].
  destruct Hs as [Ho _]. apply isOpen_spec in Ho as [[? ?] ?].
  exists x, y. done.
Qed.

(** ** Maze generation *)

Lemma mazeDimension_odd n :
  exists m, 1 <= m /\ mazeDimension n = 2 * m + 1.
Proof.
  unfold mazeDimension.
  pose proof (Z.quot_rem' n 2) as Hq.
  assert (-1 <= Z.rem n 2 <= 1) as Hb.
  { pose proof (Z.rem_bound_abs n 2 ltac:(lia)). lia. }
  destruct (Z.eqb_spec (Z.rem n 2) 0) as [E|E]; cbv zeta iota beta.
  - destruct (Z.ltb_spec (n - 1) 3); [exists 1; lia|].
    exists (Z.quot n 2 - 1). lia.
  - destruct (Z.ltb_spec n 3); [exists 1; lia|].
    destruct (decide (Z.rem n 2 = 1)); [exists (Z.quot n 2); lia|].
    exists (Z.quot n 2 - 1). lia.
Qed.

Lemma Qfloor_range (x : Q) (n : Z) :
  (0 <= x)%Q -> (x < inject_Z n)%Q -> 0 <= Qfloor x < n.
Proof.
  intros H0 Hn. split.
  - change 0 with (Qfloor 0). by apply Qfloor_resp_le.
  - rewrite Zlt_Qlt. eapply Qle_lt_trans; [apply Qfloor_le | done].
Qed.

Lemma randomChoice_In {A : Type} (u : Q) (choices : list A) :
  (0 <= u)%Q -> (u < 1)%Q -> choices <> [] ->
  exists x, P5.randomChoice u choices = Some x /\ In x choices.
Proof.
  intros H0 H1 Hne. unfold P5.randomChoice.
  assert (0 < Z.of_nat (length choices)) as Hlen by (destruct choices; simpl; [done | lia]).
  assert (0 < inject_Z (Z.of_nat (length choices)))%Q as HlenQ
    by (change 0%Q with (inject_Z 0); by rewrite <- Zlt_Qlt).
  destruct (Qfloor_range (u * inject_Z (Z.of_nat (length choices)))
              (Z.of_nat (length choices))) as [Hlo Hhi]; [nra | nra |].
  replace (0 <=? _) with true by (symmetry; by apply Z.leb_le).
  destruct (lookup_lt_is_Some_2 choices
              (Z.to_nat (Qfloor (u * inject_Z (Z.of_nat (length choices))))))
    as [x Hx]; [lia|].
  exists x. split; [done|]. apply list_elem_of_In. by eapply list_elem_of_lookup_2.
Qed.

(** The starting cell has odd coordinates inside the border, whatever the
    draws. *)
Lemma mazeStart_odd rng m1 m2 :
  1 <= m1 -> 1 <= m2 ->
  exists k1 k2,
    mazeStart rng (2 * m1 + 1) (2 * m2 + 1) = (2 * k1 + 1, 2 * k2 + 1) /\
    0 <= k1 < m1 /\ 0 <= k2 < m2.
Proof.
  intros H1 H2. unfold mazeStart.
  set (sx := Qfloor _ * 2 + 1). set (sy := Qfloor _ * 2 + 1).
  destruct (_ || _) eqn:E.
  - exists 0, 0. split; [done | lia].
  - rewrite !orb_false_iff in E. destruct E as [[[Ex1 Ex2] Ey1] Ey2].
    apply Z.ltb_ge in Ex1, Ey1. rewrite Z.geb_leb in Ex2, Ey2.
    apply Z.leb_gt in Ex2, Ey2.
    exists (Qfloor (P5.random1 (rng 0%nat) (inject_Z (2 * m1 + 1 - 1) / 2))),
           (Qfloor (P5.random1 (rng 1%nat) (inject_Z (2 * m2 + 1 - 1) / 2))).
    split; [subst sx sy; f_equal; lia | subst sx sy; lia].
Qed.

Lemma unvisitedCount_set visited x y :
  grid_lookup visited x y = Some false ->
  (unvisitedCount (grid_set visited x y true) + 1 = unvisitedCount visited)%nat.
Proof.
  intros H. apply grid_lookup_Some in H as (Hx & Hy & col & Hcol & Hc).
  unfold grid_set, unvisitedCount.
  replace ((0 <=? x) && (0 <=? y)) with true
    by (symmetry; apply andb_true_iff; split; by apply Z.leb_le).
  rewrite Hcol.
  rewrite (insert_take_drop visited) by (by eapply lookup_lt_Some).
  rewrite (insert_take_drop col) by (by eapply lookup_lt_Some).
  rewrite <- (take_drop_middle visited _ _ Hcol) at 3.
  rewrite <- (take_drop_middle col _ _ Hc) at 3.
  rewrite !concat_app. simpl. rewrite !List.filter_app. simpl.
  rewrite !length_app. simpl. lia.
Qed.

Lemma reached_mono maze maze' start p :
  (forall q, isPath maze q -> isPath maze' q) ->
  reached maze start p -> reached maze' start p.
Proof.
  intros Hm H. induction H as [Hs|p q _ IH Hadj Hq].
  - apply reached_start. by apply Hm.
  - eapply reached_step; [exact IH | done | by apply Hm].
Qed.

Lemma reached_isPath maze start p : reached maze start p -> isPath maze p.
Proof. by destruct 1. Qed.

Lemma interior_in_grid cols rows p :
  interior cols rows p -> 0 <= p.1 < cols /\ 0 <= p.2 < rows.
Proof. unfold interior. lia. Qed.

Lemma grid_lookup_interior {A : Type} cols rows (g : grid A) p :
  grid_dims cols rows g -> interior cols rows p -> is_Some (grid_lookup g p.1 p.2).
Proof.
  intros Hd Hp. apply (grid_lookup_dims cols rows); [done|].
  by apply interior_in_grid.
Qed.

(** The neighbours the loop may move to: inside the border and not yet
    visited. *)
Lemma elem_of_unvisitedNeighbors cols rows visited current n :
  grid_dims cols rows visited ->
  In n (unvisitedNeighbors cols rows visited current) <->
  In n (potentialNeighbors current) /\ interior cols rows n /\
  grid_lookup visited n.1 n.2 = Some false.
Proof.
  intros Hd. unfold unvisitedNeighbors. rewrite filter_In.
  rewrite !andb_true_iff, !Z.ltb_lt, negb_true_iff, bool_decide_eq_false.
  unfold interior. split.
  - intros (Hin & (((? & ?) & ?) & ?) & Hv). split; [done|]. split; [lia|].
    destruct (grid_lookup_interior cols rows visited n Hd) as [b Hb];
      [unfold interior; lia|].
    destruct b; [done|]. done.
  - intros (Hin & ? & Hv). split; [done|]. split; [lia|]. by rewrite Hv.
Qed.

Lemma isPath_set maze x y p :
  is_Some (grid_lookup maze x y) ->
  isPath (grid_set maze x y 0) p <-> p = (x, y) \/ isPath maze p.
Proof.
  intros Hin. destruct p as [px py]. unfold isPath. simpl.
  rewrite grid_lookup_set. case_decide as H.
  - destruct H as [[= <- <-] _]. split; [by left | done].
  - split; [by right|]. intros [[= -> ->]|Hp]; [|done].
    exfalso. apply H. done.
Qed.

Lemma isVisited_set visited x y p :
  is_Some (grid_lookup visited x y) ->
  isVisited (grid_set visited x y true) p <-> p = (x, y) \/ isVisited visited p.
Proof.
  intros Hin. destruct p as [px py]. unfold isVisited. simpl.
  rewrite grid_lookup_set. case_decide as H.
  - destruct H as [[= <- <-] _]. split; [by left | done].
  - split; [by right|]. intros [[= -> ->]|Hp]; [|done].
    exfalso. apply H. done.
Qed.

(** The wall cell carved between a cell and the neighbour chosen. *)
Lemma wall_between cols rows current chosen :
  In chosen (potentialNeighbors current) ->
  interior cols rows current -> interior cols rows chosen ->
  let wall := (current.1 + (chosen.1 - current.1) / 2,
               current.2 + (chosen.2 - current.2) / 2) in
  adjacent current wall /\ adjacent wall chosen /\ interior cols rows wall.
Proof.
  destruct current as [cx cy], chosen as [nx ny]. unfold interior, adjacent. simpl.
  intros [H|[H|[H|[H|[]]]]] Hc Hn; injection H as <- <-.
  - replace (cx - cx) with 0 by lia. replace (cy - 2 - cy) with (-2) by lia.
    change (0 / 2) with 0. change (-2 / 2) with (-1). lia.
  - replace (cx + 2 - cx) with 2 by lia. replace (cy - cy) with 0 by lia.
    change (0 / 2) with 0. change (2 / 2) with 1. lia.
  - replace (cx - cx) with 0 by lia. replace (cy + 2 - cy) with 2 by lia.
    change (0 / 2) with 0. change (2 / 2) with 1. lia.
  - replace (cx - 2 - cx) with (-2) by lia. replace (cy - cy) with 0 by lia.
    change (0 / 2) with 0. change (-2 / 2) with (-1). lia.
Qed.

(** One turn of the loop keeps the invariant and uses up one unit of the
    measure [2 * unvisited + stack length]. *)
Lemma carveStep_inv rng cols rows start c current rest :
  P5.rng_unit rng ->
  CarveInv cols rows start c ->
  cv_stack c = current :: rest ->
  exists c',
    carveStep rng cols rows c = Some c' /\
    CarveInv cols rows start c' /\
    (2 * unvisitedCount (cv_visited c') + length (cv_stack c') + 1
     = 2 * unvisitedCount (cv_visited c) + length (cv_stack c))%nat.
Proof.
  intros Hrng [Hmd Hvd Hcells Hpath Hvis Hstack Hdone Hstart] Hs.
  unfold carveStep. rewrite Hs.
  pose proof (elem_of_unvisitedNeighbors cols rows (cv_visited c) current) as Hn.
  destruct (unvisitedNeighbors cols rows (cv_visited c) current) as [|n0 ns] eqn:En.
  - (* no unvisited neighbour: backtrack *)
    simpl. eexists. split; [done|]. split; [|simpl; lia].
    split; simpl; try done.
    + intros p Hp. apply Hstack. rewrite Hs. by right.
    + intros p n Hp Hnin Hnp Hni.
      destruct (decide (p = current)) as [->|Hne].
      * destruct (grid_lookup_interior cols rows (cv_visited c) n Hvd Hni) as [b Hb].
        destruct b; [done|].
        exfalso. apply (proj2 (Hn n Hvd)). done.
      * apply (Hdone p n); try done. rewrite Hs. intros [?|?]; done.
  - (* move to a chosen neighbour *)
    destruct (Hrng (cv_draws c)) as [Hu0 Hu1].
    destruct (randomChoice_In (rng (cv_draws c)) (n0 :: ns) Hu0 Hu1 ltac:(done))
      as (chosen & -> & Hin).
    apply (Hn chosen Hvd) in Hin as (Hpot & Hint & Hunv).
    assert (isVisited (cv_visited c) current) as Hcv by (apply Hstack; rewrite Hs; by left).
    assert (interior cols rows current) as Hcint by (by apply Hpath, Hvis).
    destruct (wall_between cols rows current chosen Hpot Hcint Hint)
      as (Hadj1 & Hadj2 & Hwint).
    set (wall := (current.1 + (chosen.1 - current.1) / 2,
                  current.2 + (chosen.2 - current.2) / 2)) in *.
    simpl. eexists. split; [done|].
    set (maze1 := grid_set (cv_maze c) wall.1 wall.2 0).
    set (maze2 := grid_set maze1 chosen.1 chosen.2 0).
    set (visited2 := grid_set (cv_visited c) chosen.1 chosen.2 true).
    change (current.1 + (chosen.1 - current.1) / 2) with wall.1.
    change (current.2 + (chosen.2 - current.2) / 2) with wall.2.
    fold maze1. fold maze2. fold visited2.
    assert (grid_dims cols rows maze1) as Hd1 by (by apply grid_set_dims).
    assert (forall p, isPath maze2 p <-> p = chosen \/ p = wall \/ isPath (cv_maze c) p)
      as Hp2.
    { intros p. unfold maze2.
      rewrite isPath_set by (by apply (grid_lookup_interior cols rows)).
      unfold maze1.
      rewrite isPath_set by (by apply (grid_lookup_interior cols rows)).
      by destruct chosen, wall. }
    assert (forall p, isVisited visited2 p <-> p = chosen \/ isVisited (cv_visited c) p)
      as Hv2.
    { intros p. unfold visited2.
      rewrite isVisited_set by (by apply (grid_lookup_interior cols rows)).
      by destruct chosen. }
    assert (forall p, reached (cv_maze c) start p -> reached maze2 start p) as Hmono.
    { intros p. apply reached_mono. intros q Hq. apply Hp2. auto. }
    assert (reached maze2 start wall) as Hrw.
    { eapply reached_step; [| exact Hadj1 | apply Hp2; auto].
      apply Hmono. by apply Hpath, Hvis. }
    split.
    + split; simpl.
      * by apply grid_set_dims.
      * by apply grid_set_dims.
      * intros x y v. unfold maze2, maze1. rewrite !grid_lookup_set.
        repeat case_decide; try (intros [= <-]; by left); apply Hcells.
      * intros p Hp. apply Hp2 in Hp as [->|[->|Hp]].
        -- split; [done|]. eapply reached_step; [exact Hrw | exact Hadj2 | apply Hp2; auto].
        -- done.
        -- split; [by apply Hpath | by apply Hmono, Hpath].
      * intros p Hp. apply Hp2. apply Hv2 in Hp as [->|Hp]; auto.
      * intros p [<-|[<-|Hp]]; apply Hv2; auto.
        right. apply Hstack. rewrite Hs. by right.
      * intros p n Hp Hnin Hnp Hni. apply Hv2.
        apply Hv2 in Hp as [->|Hp]; [exfalso; apply Hnin; by left|].
        right. apply (Hdone p n); try done.
        rewrite Hs. intros Hin. apply Hnin. by right.
      * apply Hv2. auto.
    + simpl.
      pose proof (unvisitedCount_set (cv_visited c) chosen.1 chosen.2 Hunv) as Hcnt.
      fold visited2 in Hcnt. lia.
Qed.

(** The loop ends within the fuel that covers its measure, with the stack
    empty and the invariant intact. *)
Lemma carve_ends rng cols rows start :
  P5.rng_unit rng ->
  forall fuel c,
    CarveInv cols rows start c ->
    (2 * unvisitedCount (cv_visited c) + length (cv_stack c) <= fuel)%nat ->
    exists c',
      carve fuel rng cols rows c = Some c' /\
      CarveInv cols rows start c' /\ cv_stack c' = [].
Proof.
  intros Hrng. induction fuel as [|fuel IH]; intros c Hinv Hm.
  - destruct (cv_stack c) as [|current rest] eqn:Hs;
      [|exfalso; simpl in Hm; lia].
    exists c. simpl. by rewrite Hs.
  - destruct (cv_stack c) as [|current rest] eqn:Hs.
    + exists c. simpl. by rewrite Hs.
    + destruct (carveStep_inv rng cols rows start c current rest Hrng Hinv Hs)
        as (c1 & Hstep & Hinv1 & Hdec).
      rewrite Hs in Hdec.
      destruct (IH c1 Hinv1) as (c' & Hc' & Hinv' & Hs'); [lia|].
      exists c'. simpl. rewrite Hs, Hstep. simpl. done.
Qed.

Lemma line_closed (P : Z -> Prop) k m :
  0 <= k < m -> P k ->
  (forall j, 0 <= j -> j + 1 < m -> P j -> P (j + 1)) ->
  (forall j, 0 <= j - 1 -> j < m -> P j -> P (j - 1)) ->
  forall j, 0 <= j < m -> P j.
Proof.
  intros Hk Pk Hup Hdown j Hj.
  destruct (Z.le_gt_cases k j) as [H|H].
  - replace j with (k + Z.of_nat (Z.to_nat (j - k))) by lia.
    assert (Z.of_nat (Z.to_nat (j - k)) <= j - k) as Hb by lia.
    revert Hb. generalize (Z.to_nat (j - k)) as n.
    induction n as [|n IH]; intros Hb.
    + by replace (k + Z.of_nat 0) with k by lia.
    + replace (k + Z.of_nat (S n)) with (k + Z.of_nat n + 1) by lia.
      apply Hup; [lia | lia | apply IH; lia].
  - replace j with (k - Z.of_nat (Z.to_nat (k - j))) by lia.
    assert (Z.of_nat (Z.to_nat (k - j)) <= k - j) as Hb by lia.
    revert Hb. generalize (Z.to_nat (k - j)) as n.
    induction n as [|n IH]; intros Hb.
    + by replace (k - Z.of_nat 0) with k by lia.
    + replace (k - Z.of_nat (S n)) with (k - Z.of_nat n - 1) by lia.
      apply Hdown; [lia | lia | apply IH; lia].
Qed.

(** When the stack is empty every cell with odd coordinates inside the
    border has been visited. *)
Lemma carve_visits_all m1 m2 k1 k2 c :
  CarveInv (2 * m1 + 1) (2 * m2 + 1) (2 * k1 + 1, 2 * k2 + 1) c ->
  cv_stack c = [] ->
  0 <= k1 < m1 -> 0 <= k2 < m2 ->
  forall j1 j2, 0 <= j1 < m1 -> 0 <= j2 < m2 ->
    isVisited (cv_visited c) (2 * j1 + 1, 2 * j2 + 1).
Proof.
  intros Hinv Hs Hk1 Hk2.
  assert (forall p n, isVisited (cv_visited c) p -> In n (potentialNeighbors p) ->
            interior (2 * m1 + 1) (2 * m2 + 1) n -> isVisited (cv_visited c) n) as Hcl.
  { intros p n Hp Hn Hi. apply (inv_done _ _ _ _ Hinv p n); try done.
    rewrite Hs. by intros []. }
  assert (forall j1, 0 <= j1 < m1 ->
            isVisited (cv_visited c) (2 * j1 + 1, 2 * k2 + 1)) as Hrow.
  { apply (line_closed _ k1); [done | apply (inv_start _ _ _ _ Hinv) | |].
    - intros j H0 H1 Hj. apply (Hcl _ _ Hj).
      + simpl. right. left. f_equal; lia.
      + unfold interior. simpl. lia.
    - intros j H0 H1 Hj. apply (Hcl _ _ Hj).
      + simpl. do 3 right. left. f_equal; lia.
      + unfold interior. simpl. lia. }
  intros j1 j2 Hj1 Hj2. revert j2 Hj2.
  apply (line_closed _ k2); [done | by apply Hrow | |].
  - intros j H0 H1 Hj. apply (Hcl _ _ Hj).
    + simpl. do 2 right. left. f_equal; lia.
    + unfold interior. simpl. lia.
  - intros j H0 H1 Hj. apply (Hcl _ _ Hj).
    + simpl. left. f_equal; lia.
    + unfold interior. simpl. lia.
Qed.

Lemma concat_length_grid {A : Type} (g : grid A) n :
  Forall (fun col => length col = n) g -> length (concat g) = (length g * n)%nat.
Proof.
  induction 1 as [|col g Hc _ IH]; simpl; [done|].
  rewrite length_app, IH, Hc. done.
Qed.

Lemma unvisitedCount_le cols rows visited :
  0 <= cols -> 0 <= rows ->
  grid_dims cols rows visited -> (unvisitedCount visited <= Z.to_nat (cols * rows))%nat.
Proof.
  intros Hc Hr [Hlen Hall]. unfold unvisitedCount.
  etrans; [apply List.filter_length_le|].
  rewrite (concat_length_grid _ _ Hall), Hlen. lia.
Qed.

(** The locals with which the loop is entered. *)
Lemma carve_init m1 m2 k1 k2 :
  0 <= k1 < m1 -> 0 <= k2 < m2 ->
  let cols := 2 * m1 + 1 in
  let rows := 2 * m2 + 1 in
  let start := (2 * k1 + 1, 2 * k2 + 1) in
  CarveInv cols rows start
    (mkCarver (grid_set (createGrid cols rows 1) start.1 start.2 0)
              (grid_set (createGrid cols rows false) start.1 start.2 true)
              [start] 2).
Proof.
  intros Hk1 Hk2 cols rows start.
  assert (interior cols rows start) as Hint by (unfold interior; simpl; lia).
  pose proof (createGrid_dims cols rows 1) as Hd1.
  pose proof (createGrid_dims cols rows false) as Hd2.
  assert (forall p, isPath (grid_set (createGrid cols rows 1) start.1 start.2 0) p
                    <-> p = start) as Hp.
  { intros p. rewrite isPath_set by (by apply (grid_lookup_interior cols rows)).
    split; [|by left]. intros [->|H]; [done|].
    apply createGrid_lookup in H. done. }
  assert (forall p, isVisited (grid_set (createGrid cols rows false) start.1 start.2 true) p
                    <-> p = start) as Hv.
  { intros p. rewrite isVisited_set by (by apply (grid_lookup_interior cols rows)).
    split; [|by left]. intros [->|H]; [done|].
    apply createGrid_lookup in H. done. }
  split; simpl.
  - by apply grid_set_dims.
  - by apply grid_set_dims.
  - intros x y v. rewrite grid_lookup_set. case_decide.
    + intros [= <-]. by left.
    + intros H'. apply createGrid_lookup in H' as ->. by right.
  - intros p Hpp. pose proof Hpp as Hpp'. apply Hp in Hpp' as ->.
    split; [done | by apply reached_start].
  - intros p Hpv. apply Hp. by apply Hv.
  - intros p [<-|[]]. by apply Hv.
  - intros p n Hpv Hnin. apply Hv in Hpv as ->. exfalso. apply Hnin. by left.
  - by apply Hv.
Qed.

Lemma grid_set_same {A : Type} (g : grid A) x y v x' y' :
  grid_lookup g x y = Some v ->
  grid_lookup (grid_set g x y v) x' y' = grid_lookup g x' y'.
Proof.
  intros H. rewrite grid_lookup_set. case_decide as E; [|done].
  destruct E as [[= <- <-] _]. done.
Qed.

(** What [generateMaze] returns, given draws from the unit interval and
    fuel for the loop. *)
Lemma generateMaze_spec rng cols rows fuel :
  P5.rng_unit rng -> (mazeFuel cols rows <= fuel)%nat ->
  exists r,
    generateMaze fuel rng cols rows = Some r /\
    finalCols r = mazeDimension cols /\ finalRows r = mazeDimension rows /\
    grid_dims (finalCols r) (finalRows r) (mr_grid r) /\
    (forall x y v, grid_lookup (mr_grid r) x y = Some v -> v = Path \/ v = Wall) /\
    isPath (mr_grid r) (1, 1) /\
    isPath (mr_grid r) (finalCols r - 2, finalRows r - 2) /\
    forall p, isPath (mr_grid r) p ->
      interior (finalCols r) (finalRows r) p /\
      reached (mr_grid r) (mazeStart rng (finalCols r) (finalRows r)) p.
Proof.
  intros Hrng Hfuel. unfold generateMaze, mazeFuel in *.
  destruct (mazeDimension_odd cols) as (m1 & Hm1 & E1).
  destruct (mazeDimension_odd rows) as (m2 & Hm2 & E2).
  rewrite E1, E2 in *.
  destruct (mazeStart_odd rng m1 m2 Hm1 Hm2) as (k1 & k2 & Est & Hk1 & Hk2).
  rewrite Est.
  pose proof (carve_init m1 m2 k1 k2 Hk1 Hk2) as Hinit.
  cbn [fst snd] in Hinit |- *. cbv zeta in Hinit |- *.
  match type of Hinit with CarveInv _ _ _ ?c0 =>
    destruct (carve_ends rng _ _ _ Hrng fuel c0 Hinit) as (c & -> & Hinv & Hs)
  end.
  { cbn [cv_visited cv_stack length].
    pose proof (unvisitedCount_le (2 * m1 + 1) (2 * m2 + 1) _ ltac:(lia) ltac:(lia)
                  (inv_visited_dims _ _ _ _ Hinit)) as Hle.
    cbn [cv_visited] in Hle. lia. }
  simpl.
  replace ((2 * m1 + 1 >? 2) && (2 * m2 + 1 >? 2)) with true
    by (symmetry; apply andb_true_iff; split; apply Z.gtb_lt; lia).
  eexists. split; [done|]. simpl.
  pose proof (carve_visits_all m1 m2 k1 k2 c Hinv Hs Hk1 Hk2) as Hall.
  assert (isPath (cv_maze c) (1, 1)) as H11.
  { apply (inv_visited _ _ _ _ Hinv). apply (Hall 0 0); lia. }
  assert (isPath (cv_maze c) (2 * m1 + 1 - 2, 2 * m2 + 1 - 2)) as Hnn.
  { apply (inv_visited _ _ _ _ Hinv).
    replace (2 * m1 + 1 - 2) with (2 * (m1 - 1) + 1) by lia.
    replace (2 * m2 + 1 - 2) with (2 * (m2 - 1) + 1) by lia.
    apply Hall; lia. }
  set (final := grid_set (grid_set (cv_maze c) 1 1 0) _ _ 0).
  assert (forall x y, grid_lookup final x y = grid_lookup (cv_maze c) x y) as Hsame.
  { intros x y. unfold final. rewrite grid_set_same; by rewrite ?grid_set_same. }
  assert (forall p, isPath final p <-> isPath (cv_maze c) p) as Hiff.
  { intros p. unfold isPath. by rewrite Hsame. }
  do 2 (split; [done|]). split.
  { unfold final. do 2 apply grid_set_dims. apply (inv_maze_dims _ _ _ _ Hinv). }
  split.
  { intros x y v. rewrite Hsame. apply (inv_cells _ _ _ _ Hinv). }
  split; [by apply Hiff|]. split; [by apply Hiff|].
  intros p Hp. apply Hiff in Hp.
  destruct (inv_path _ _ _ _ Hinv p Hp) as [Hi Hr]. split; [done|].
  rewrite Est. eapply reached_mono; [|exact Hr]. intros q. apply Hiff.
Qed.

Lemma reached_from_path maze start p : reached maze start p -> isPath maze start.
Proof. induction 1; done. Qed.

(** C2.  For any requested dimensions and any draws of [random] (from the
    unit interval), [generateMaze] returns a maze, given fuel for its
    loop, and in that maze every [Path] cell is visited by a search that
    starts on the carved start cell and moves between orthogonally
    adjacent [Path] cells; the two cells forced open after carving, (1,1)
    and (finalCols-2, finalRows-2), are [Path] cells and so among them. *)
Theorem generateMaze_connected (rng : P5.Rng) (cols rows : Z) (fuel : nat) :
  P5.rng_unit rng -> (mazeFuel cols rows <= fuel)%nat ->
  exists r,
    generateMaze fuel rng cols rows = Some r /\
    let start := mazeStart rng (finalCols r) (finalRows r) in
    isPath (mr_grid r) start /\
    isPath (mr_grid r) (1, 1) /\
    isPath (mr_grid r) (finalCols r - 2, finalRows r - 2) /\
    forall p, isPath (mr_grid r) p -> reached (mr_grid r) start p.
Proof.
  intros Hrng Hfuel.
  destruct (generateMaze_spec rng cols rows fuel Hrng Hfuel)
    as (r & Hr & _ & _ & _ & _ & H11 & Hnn & Hall).
  exists r. split; [done|]. simpl. split.
  { eapply reached_from_path. by apply Hall. }
  do 2 (split; [done|]). intros p Hp. by apply Hall.
Qed.

(** C9.  In the maze that [generateMaze] returns every cell of the outer
    border (x = 0, x = finalCols-1, y = 0 or y = finalRows-1) is [Wall]:
    the dimensions are at least 3, every [Path] cell lies strictly inside
    the border, and so do the two cells forced open at the end. *)
Theorem generateMaze_border_is_wall (rng : P5.Rng) (cols rows : Z) (fuel : nat) :
  P5.rng_unit rng -> (mazeFuel cols rows <= fuel)%nat ->
  exists r,
    generateMaze fuel rng cols rows = Some r /\
    3 <= finalCols r /\ 3 <= finalRows r /\
    interior (finalCols r) (finalRows r) (1, 1) /\
    interior (finalCols r) (finalRows r) (finalCols r - 2, finalRows r - 2) /\
    (forall p, isPath (mr_grid r) p -> interior (finalCols r) (finalRows r) p) /\
    forall p, onBorder (finalCols r) (finalRows r) p -> isWall (mr_grid r) p.
Proof.
  intros Hrng Hfuel.
  destruct (generateMaze_spec rng cols rows fuel Hrng Hfuel)
    as (r & Hr & Hc & Hrw & Hd & Hcells & H11 & Hnn & Hall).
  exists r. split; [done|].
  destruct (mazeDimension_odd cols) as (m1 & Hm1 & E1).
  destruct (mazeDimension_odd rows) as (m2 & Hm2 & E2).
  rewrite Hc, Hrw in *. rewrite E1, E2 in *.
  split; [lia|]. split; [lia|].
  split; [unfold interior; simpl; lia|].
  split; [unfold interior; simpl; lia|].
  split; [intros p Hp; by apply Hall|].
  intros p [Hin Hb].
  destruct (proj2 (grid_lookup_dims _ _ (mr_grid r) p.1 p.2 Hd) Hin) as [v Hv].
  destruct (Hcells _ _ _ Hv) as [-> | ->]; [|done].
  exfalso. destruct (Hall p Hv) as [Hi _]. unfold interior in Hi. lia.
Qed.

(** ** The sensing cone *)

(** A loop on numbers is its body run along the values of its counter. *)
Lemma for_float_range {St : Type} (body : Q -> St -> option St) fuel :
  forall x stop step s l,
    float_range fuel x stop step = Some l ->
    for_float fuel x stop step body s = foldM body l s.
Proof.
  induction fuel as [|fuel IH]; intros x stop step s l H; simpl in *; [done|].
  destruct (Qle_bool x stop).
  - destruct (float_range fuel (x + step) stop step) as [l'|] eqn:E; [|done].
    injection H as <-. simpl. destruct (body x s); [|done]. by apply IH.
  - by injection H as <-.
Qed.

Lemma float_range_more fuel :
  forall x stop step l n,
    float_range fuel x stop step = Some l ->
    float_range (fuel + n) x stop step = Some l.
Proof.
  induction fuel as [|fuel IH]; intros x stop step l n H; simpl in *; [done|].
  destruct (Qle_bool x stop); [|done].
  destruct (float_range fuel (x + step) stop step) as [l'|] eqn:E; [|done].
  by rewrite (IH _ _ _ _ n E).
Qed.

(** The inner loop makes three turns, the outer one five. *)
Lemma multipliers_range n :
  float_range (4 + n) 0.5 1.5 0.5 = Some coneMultipliers.
Proof. by apply (float_range_more 4). Qed.

Lemma offsets_range cfg n :
  (0 < SENSE_ANGLE cfg)%Q ->
  float_range (6 + n) (- SENSE_ANGLE cfg / 2) (SENSE_ANGLE cfg / 2) (SENSE_ANGLE cfg / 4)
  = Some (coneOffsets cfg).
Proof.
  intros Hs. apply (float_range_more 6). unfold coneOffsets.
  set (o := (- SENSE_ANGLE cfg / 2)%Q). set (d := (SENSE_ANGLE cfg / 4)%Q).
  set (stop := (SENSE_ANGLE cfg / 2)%Q).
  assert (o == - (SENSE_ANGLE cfg) * (1 # 2))%Q as Ho by (subst o; field).
  assert (d == SENSE_ANGLE cfg * (1 # 4))%Q as Hd by (subst d; field).
  assert (stop == SENSE_ANGLE cfg * (1 # 2))%Q as Hst by (subst stop; field).
  assert (forall x, (x <= stop)%Q -> Qle_bool x stop = true) as Hin
    by (intros x; apply Qle_bool_iff).
  assert (forall x, (stop < x)%Q -> Qle_bool x stop = false) as Hout.
  { intros x Hx. destruct (Qle_bool x stop) eqn:E; [|done].
    apply Qle_bool_imp_le in E. lra. }
  cbn [float_range].
  rewrite !Hin by lra. rewrite Hout by lra. done.
Qed.

Lemma senseProbes_far cfg trig a n :
  (0 < SENSE_ANGLE cfg)%Q ->
  senseProbes cfg trig (6 + n) a = Some (coneProbes cfg trig a).
Proof.
  intros Hs. unfold senseProbes.
  rewrite (for_float_range _ _ _ _ _ _ _ (offsets_range cfg n Hs)).
  assert (forall {St : Type} (body : Q -> St -> option St) s,
            for_float (6 + n) 0.5 1.5 0.5 body s = foldM body coneMultipliers s) as Hin.
  { intros St body s. apply for_float_range. apply (multipliers_range (2 + n)). }
  unfold coneOffsets. cbn [foldM]. rewrite !Hin.
  reflexivity.
Qed.

Lemma senseAndDecideAngle_far cfg trig rng a w n :
  (0 < SENSE_ANGLE cfg)%Q -> farFromGoal cfg a w ->
  senseAndDecideAngle cfg trig rng (6 + n) a w
  = Some (decideAngle cfg trig rng a w (coneProbes cfg trig a)).
Proof.
  intros Hs Hfar. unfold senseAndDecideAngle. unfold farFromGoal in Hfar. rewrite Hfar.
  rewrite (for_float_range _ _ _ _ _ _ _ (offsets_range cfg n Hs)).
  assert (forall {St : Type} (body : Q -> St -> option St) s,
            for_float (6 + n) 0.5 1.5 0.5 body s = foldM body coneMultipliers s) as Hin.
  { intros St body s. apply for_float_range. apply (multipliers_range (2 + n)). }
  unfold coneOffsets. cbn [foldM].
  repeat (rewrite Hin;
          cbn [foldM coneMultipliers mbind option_bind fmap option_fmap option_map
               snd probe]).
  unfold decideAngle, coneProbes, coneOffsets, coneMultipliers.
  cbn [fold_left probe snd fst app probe_offset probe_cell].
  match goal with |- match ?r with _ => _ end = _ => destruct r as [[m b] k] end.
  by destruct (Qle_bool m 0).
Qed.

Lemma coneOffsets_values cfg :
  Forall2 Qeq (coneOffsets cfg)
    [- (SENSE_ANGLE cfg / 2); - (SENSE_ANGLE cfg / 4); 0;
     SENSE_ANGLE cfg / 4; SENSE_ANGLE cfg / 2]%Q.
Proof.
  unfold coneOffsets. repeat constructor; field.
Qed.

Lemma coneMultipliers_values : Forall2 Qeq coneMultipliers [0.5; 1; 1.5]%Q.
Proof. repeat constructor. Qed.

(** C1 (as the code has it).  When the agent is farther than
    [GOAL_SENSE_RADIUS] from its goal and [SENSE_ANGLE] is positive,
    [senseAndDecideAngle] makes exactly 15 probes and decides from them:
    for each of the 5 offsets from [-SENSE_ANGLE/2] to [+SENSE_ANGLE/2] in
    steps of [SENSE_ANGLE/4], one probe for each of the 3 distance
    multipliers 0.5, 1.0 and 1.5, with
    [senseDist = CELL_SIZE * SENSE_RADIUS * multiplier]; the probe of
    multiplier 0.5 tests the cell at that distance from the agent's
    position along the offset direction. *)
Theorem sensing_cone_probes (cfg : Config) (trig : P5.Trig) (rng : P5.Rng)
    (a : Ant) (w : Sim) (fuel : nat) :
  (0 < SENSE_ANGLE cfg)%Q -> farFromGoal cfg a w -> (6 <= fuel)%nat ->
  exists probes,
    senseProbes cfg trig fuel a = Some probes /\
    senseAndDecideAngle cfg trig rng fuel a w
      = Some (decideAngle cfg trig rng a w probes) /\
    length probes = 15%nat /\
    List.map (fun p => (probe_offset p, probe_multiplier p)) probes
      = list_prod (coneOffsets cfg) coneMultipliers /\
    Forall2 Qeq (coneOffsets cfg)
      [- (SENSE_ANGLE cfg / 2); - (SENSE_ANGLE cfg / 4); 0;
       SENSE_ANGLE cfg / 4; SENSE_ANGLE cfg / 2]%Q /\
    Forall2 Qeq coneMultipliers [0.5; 1; 1.5]%Q /\
    forall p, In p probes -> probe_multiplier p = 0.5%Q ->
      let direction :=
        P5.fromAngle trig (P5.heading trig (vel a) + probe_offset p)%Q in
      let checkPos :=
        P5.add (pos a)
               (P5.mult direction (CELL_SIZE cfg * SENSE_RADIUS cfg * 0.5)%Q) in
      probe_cell p = pixelToGrid cfg (P5.vx checkPos) (P5.vy checkPos).
Proof.
  intros Hs Hfar Hfuel. exists (coneProbes cfg trig a).
  replace fuel with (6 + (fuel - 6))%nat by lia.
  split; [by apply senseProbes_far|].
  split; [by apply senseAndDecideAngle_far|].
  split; [done|]. split; [done|].
  split; [apply coneOffsets_values|]. split; [apply coneMultipliers_values|].
  intros p Hp Hm.
  unfold coneProbes, coneOffsets, coneMultipliers in Hp.
  cbn [fold_left probe snd fst app] in Hp.
  repeat (destruct Hp as [<-|Hp]; [first [done | discriminate Hm]|]).
  destruct Hp.
Qed.

(** ** A step of an ant ends *)

Section AntEnds.

Variable cfg : Config.
Variable trig : P5.Trig.
Variable rng : P5.Rng.
Hypothesis sense_angle_pos : (0 < SENSE_ANGLE cfg)%Q.

Lemma senseAndDecideAngle_ends a w :
  exists r, forall fuel, (6 <= fuel)%nat ->
    senseAndDecideAngle cfg trig rng fuel a w = Some r.
Proof.
  destruct (P5.dist_le
              (inject_Z (gridPos a).1) (inject_Z (gridPos a).2)
              (inject_Z (match state a with
                         | searching => foodPos w | returning => colonyPos w end).1)
              (inject_Z (match state a with
                         | searching => foodPos w | returning => colonyPos w end).2)
              (GOAL_SENSE_RADIUS cfg)) eqn:E.
  - eexists. intros fuel _. unfold senseAndDecideAngle. rewrite E. reflexivity.
  - exists (decideAngle cfg trig rng a w (coneProbes cfg trig a)). intros fuel Hf.
    replace fuel with (6 + (fuel - 6))%nat by lia.
    by apply senseAndDecideAngle_far.
Qed.

Lemma move_ends a w :
  exists enough, forall fuel, (enough <= fuel)%nat ->
    exists r, move cfg trig rng fuel a w = Some r.
Proof.
  destruct (senseAndDecideAngle_ends a w) as [[desiredAngle w1] Hs].
  destruct (steer_spec cfg (P5.heading trig (vel a)) desiredAngle) as [enough Hst].
  exists (6 + enough)%nat. intros fuel Hf.
  destruct (Hst fuel ltac:(lia)) as (d & k & Hd & _).
  unfold move. rewrite (Hs fuel ltac:(lia)). cbn [mbind option_bind].
  rewrite Hd. cbn [mbind option_bind].
  destruct (Qlt_le_dec _ _); cbv zeta;
    destruct (isValidGridPos _ _ _ && _); eauto.
Qed.

Lemma update_ends a w :
  exists enough, forall fuel, (enough <= fuel)%nat ->
    exists r, update cfg trig rng fuel a w = Some r.
Proof.
  unfold update.
  destruct (checkEnvironment cfg trig rng (updateGridPos cfg a) w) as [a1 w1].
  destruct (move_ends (set_charge (Z.max 0 (charge a1 - 1)) a1) w1) as [enough Hm].
  exists enough. intros fuel Hf. destruct (Hm fuel Hf) as [[a2 w2] ->].
  cbn [mbind option_bind]. eauto.
Qed.

End AntEnds.

(** ** Where the deposit goes *)

Lemma depositionRate_linear cfg c rate :
  0 < PHEROMONE_DURATION cfg -> 0 <= c -> (0 <= rate)%Q ->
  (depositionRate cfg c rate
   == inject_Z c / inject_Z (PHEROMONE_DURATION cfg) * rate)%Q.
Proof.
  intros Hd Hc Hr. unfold depositionRate, P5.map.
  assert (0 < inject_Z (PHEROMONE_DURATION cfg))%Q as HdQ
    by (change 0%Q with (inject_Z 0); by rewrite <- Zlt_Qlt).
  assert (0 <= inject_Z c)%Q as HcQ
    by (change 0%Q with (inject_Z 0); by rewrite <- Zle_Qle).
  assert ((inject_Z c - 0) / (inject_Z (PHEROMONE_DURATION cfg) - 0) * (rate - 0) + 0
          == inject_Z c / inject_Z (PHEROMONE_DURATION cfg) * rate)%Q as E
    by (field; lra).
  rewrite E. apply Q.max_r.
  apply Qmult_le_0_compat; [|done].
  apply Qle_shift_div_l; [done | lra].
Qed.

(** C3 (as the code has it).  In a step of an ant ([update]), with the
    charge taken after the step's decrement: when that charge is positive
    the deposit is written into the cell [gridPos] that [updateGridPos]
    computed from the position the agent had when the step began (the
    cell under that position, clamped into the grid); the move made
    later in the step does not change it.  It goes into the explore grid
    when the agent is Searching and into the return grid when Returning;
    the amount is [max(0, charge / PHEROMONE_DURATION * rate)], linear in
    the charge (the channel's rate at a full charge, 0 at charge 0), and
    the cell becomes [min(value + amount, PHEROMONE_MAX)]. *)
Theorem deposit_goes_to_gridPos (cfg : Config) (trig : P5.Trig) (rng : P5.Rng)
    (a : Ant) (w : Sim) :
  (0 < SENSE_ANGLE cfg)%Q ->
  0 < GRID_COLS cfg -> 0 < GRID_ROWS cfg ->
  let a1 := (checkEnvironment cfg trig rng (updateGridPos cfg a) w).1 in
  let c := Z.max 0 (charge a1 - 1) in
  let cell :=
    (P5.constrainZ (Qfloor (P5.vx (pos a) / CELL_SIZE cfg)) 0 (GRID_COLS cfg - 1),
     P5.constrainZ (Qfloor (P5.vy (pos a) / CELL_SIZE cfg)) 0 (GRID_ROWS cfg - 1)) in
  (exists enough, forall fuel, (enough <= fuel)%nat ->
     exists a' w',
       update cfg trig rng fuel a w = Some (a', w') /\
       state a' = state a1 /\ charge a' = c /\ gridPos a' = cell /\
       (0 < c ->
          match state a1 with
          | searching =>
              explorePheromones w'
              = grid_modify (deposit cfg (depositionRate cfg c (DEPOSITION_RATE_EXPLORE cfg)))
                            cell.1 cell.2 (explorePheromones w) /\
              returnPheromones w' = returnPheromones w
          | returning =>
              returnPheromones w'
              = grid_modify (deposit cfg (depositionRate cfg c (DEPOSITION_RATE_RETURN cfg)))
                            cell.1 cell.2 (returnPheromones w) /\
              explorePheromones w' = explorePheromones w
          end))
  /\ (forall amount v, deposit cfg amount v = Qmin (v + amount) (PHEROMONE_MAX cfg))
  /\ (forall rate, 0 < PHEROMONE_DURATION cfg -> (0 <= rate)%Q ->
        (depositionRate cfg c rate
         == inject_Z c / inject_Z (PHEROMONE_DURATION cfg) * rate)%Q /\
        (depositionRate cfg (PHEROMONE_DURATION cfg) rate == rate)%Q /\
        (depositionRate cfg 0 rate == 0)%Q).
Proof.
  intros Hs Hcols Hrows a1 c cell. split; [|split; [done|]].
  - destruct (update_ends cfg trig rng Hs a w) as [enough He].
    exists enough. intros fuel Hf. destruct (He fuel Hf) as [[a' w'] Hu].
    exists a', w'. split; [done|].
    apply update_fields in Hu as (Hex & Hre & Hg2 & Hst & Hch & Hg).
    fold a1 in Hex, Hre, Hg2, Hst, Hch. cbn [state charge set_charge] in Hst, Hch.
    fold c in Hex, Hre, Hg2, Hch.
    split; [done|]. split; [done|]. split; [done|].
    intros Hc. rewrite Hex, Hre. unfold depositPheromone.
    rewrite Hg2. change (gridPos (updateGridPos cfg a)) with cell.
    cbn [charge state set_charge fst snd].
    replace (c <=? 0) with false by (symmetry; apply Z.leb_gt; lia).
    assert (isValidGridPos cfg cell.1 cell.2 = true) as Hv.
    { apply isValidGridPos_spec. unfold cell, P5.constrainZ. simpl. lia. }
    subst cell. cbn [fst snd] in Hv |- *. rewrite Hv.
    by destruct (state a1).
  - intros rate Hd Hr. split; [|split].
    + apply depositionRate_linear; [done | subst c; lia | done].
    + rewrite depositionRate_linear by (done || lia).
      assert (0 < inject_Z (PHEROMONE_DURATION cfg))%Q
        by (change 0%Q with (inject_Z 0); by rewrite <- Zlt_Qlt).
      field. lra.
    + rewrite depositionRate_linear by (done || lia).
      change (inject_Z 0) with 0%Q. field.
      assert (0 < inject_Z (PHEROMONE_DURATION cfg))%Q
        by (change 0%Q with (inject_Z 0); by rewrite <- Zlt_Qlt).
      lra.
Qed.

(** ** The order of the agents within a frame *)

Lemma zseq_snoc lo n : zseq lo (S n) = zseq lo n ++ [lo + Z.of_nat n].
Proof.
  revert lo. induction n as [|n IH]; intros lo.
  - simpl. f_equal. lia.
  - change (zseq lo (S (S n))) with (lo :: zseq (lo + 1) (S n)).
    rewrite IH. simpl. do 3 f_equal. lia.
Qed.

(** The descending loop is its body run along the indices from the last
    to the first. *)
Lemma for_down_foldM {St : Type} (body : Z -> St -> option St) n s :
  for_down n body s = foldM body (rev (zseq 0 n)) s.
Proof.
  revert s. induction n as [|n IH]; intros s; [done|].
  rewrite zseq_snoc, rev_app_distr, Z.add_0_l. simpl.
  destruct (body (Z.of_nat n) s); [apply IH | done].
Qed.

Lemma updatePheromones_ants cfg w : ants (updatePheromones cfg w) = ants w.
Proof. unfold updatePheromones. by destruct (for_lt _ _ _ _). Qed.

Lemma for_down_ind_index {St : Type} (I : nat -> St -> Prop)
  (body : Z -> St -> option St) :
  forall n,
    (forall k s s', (k < n)%nat -> I (S k) s -> body (Z.of_nat k) s = Some s' -> I k s') ->
    forall s s', I n s -> for_down n body s = Some s' -> I 0%nat s'.
Proof.
  induction n as [|n IH]; intros Hstep s s' Hs H; simpl in H.
  - by injection H as <-.
  - destruct (body (Z.of_nat n) s) as [s1|] eqn:E; [|done].
    apply (IH ltac:(intros k ? ? Hk; apply Hstep; lia) s1 s'); [|done].
    apply (Hstep n s s1); [lia | done | done].
Qed.

(** After the traversal the canvas holds, behind what was on it, the
    agents as their steps left them, from the last of the list to the
    first. *)
Lemma updateAndDrawAnts_canvas cfg trig rng fuel w w' :
  updateAndDrawAnts cfg trig rng fuel w = Some w' ->
  length (ants w') = length (ants w) /\
  canvas w' = canvas w ++ rev (List.map (drawing trig) (ants w')).
Proof.
  intros H. unfold updateAndDrawAnts in H.
  pose (I := fun (k : nat) (s : Sim) =>
    length (ants s) = length (ants w) /\
    canvas s = canvas w ++ rev (List.map (drawing trig) (drop k (ants s)))).
  assert (I 0%nat w') as [Hl Hc]; [|by split].
  refine (for_down_ind_index I _ _ _ w w' _ H).
  2:{ split; [done|]. by rewrite drop_all, app_nil_r. }
  - intros k s s' Hk [Hlen Hcan] Hb. unfold updateAndDrawAnt in Hb.
    rewrite Nat2Z.id in Hb.
    destruct (ants s !! k) as [a|] eqn:Ea; [|done]. simpl in Hb.
    destruct (update _ _ _ _ _ _) as [[a1 s1]|] eqn:Hu; [|done]. simpl in Hb.
    injection Hb as <-. apply update_keeps in Hu as [Hua Huc].
    unfold I, display. cbn [ants canvas set_ants set_canvas].
    rewrite Hua, Huc. split; [by rewrite length_insert|].
    rewrite (drop_S _ a1 k) by (apply list_lookup_insert_eq; lia).
    rewrite drop_insert_lt by lia. simpl.
    by rewrite Hcan, app_assoc.
Qed.

(** C4 (as the code has it).  A frame evaporates the field once and then
    updates (and draws) the agents one after the other, each running its
    whole step on the state the one before left, in the order of the
    indices from the last-spawned agent down to the first-spawned one, as
    the canvas shows afterwards; only then is a new agent admitted. *)
Theorem ants_updated_last_to_first (cfg : Config) (trig : P5.Trig) (rng : P5.Rng)
    (fuel : nat) (now : Q) (w : Sim) :
  updateAndDrawAnts cfg trig rng fuel w
    = foldM (updateAndDrawAnt cfg trig rng fuel) (rev (zseq 0 (length (ants w)))) w
  /\ draw cfg trig rng fuel now w
    = (w1 ← foldM (updateAndDrawAnt cfg trig rng fuel)
               (rev (zseq 0 (length (ants w))))
               (updatePheromones cfg (set_canvas [] w));
       Some (spawnNewAnts cfg trig rng now w1))
  /\ forall w',
       updateAndDrawAnts cfg trig rng fuel w = Some w' ->
       length (ants w') = length (ants w) /\
       canvas w' = canvas w ++ rev (List.map (drawing trig) (ants w')).
Proof.
  split; [|split].
  - apply for_down_foldM.
  - unfold draw, updateAndDrawAnts. rewrite for_down_foldM.
    by rewrite updatePheromones_ants.
  - intros w'. apply updateAndDrawAnts_canvas.
Qed.

(** ** The program run on the small world *)

Lemma field_boundedb_sound cfg g :
  field_boundedb cfg g = true -> field_bounded cfg g.
Proof.
  intros H x y v Hv. apply grid_lookup_Some in Hv as (_ & _ & col & Hc & Hv).
  unfold field_boundedb in H. rewrite forallb_forall in H.
  specialize (H col). rewrite forallb_forall in H.
  assert (In col g) as Hin1 by (apply list_elem_of_In; by eapply list_elem_of_lookup_2).
  assert (In v col) as Hin2 by (apply list_elem_of_In; by eapply list_elem_of_lookup_2).
  specialize (H Hin1 v Hin2). apply andb_true_iff in H as [H1 H2].
  split; by apply Qle_bool_iff.
Qed.

(** C1, the claim as first stated, fails: far from the goal the loops
    make 15 probes, not 10, and the third of each direction has the
    multiplier 1.5. *)
Lemma sensing_cone_is_not_ten_probes :
  farFromGoal corridorConfig farAnt corridorWorld /\
  exists probes,
    senseProbes corridorConfig axisTrig 6 farAnt = Some probes /\
    length probes = 15%nat /\ length probes <> 10%nat /\
    List.map (fun p => Qred (probe_multiplier p)) (firstn 3 probes)
      = [1 # 2; 1; 3 # 2]%Q.
Proof.
  split; [by vm_compute|].
  eexists. split; [by vm_compute|]. by vm_compute.
Qed.

(** C3, the claim as first stated, fails: the first agent of the small
    world moves from cell (3,1) into cell (4,1) during its step, and the
    deposit of the step raises the explore cell (3,1), where it was when
    the step began, and leaves the explore cell (4,1) at 0. *)
Lemma deposit_is_not_at_new_position :
  exists a' w',
    update corridorConfig axisTrig halfRng 0 firstAnt corridorWorld = Some (a', w') /\
    0 < charge a' /\ state a' = searching /\
    pixelToGrid corridorConfig (P5.vx (pos firstAnt)) (P5.vy (pos firstAnt)) = (3, 1) /\
    pixelToGrid corridorConfig (P5.vx (pos a')) (P5.vy (pos a')) = (4, 1) /\
    grid_lookup (explorePheromones corridorWorld) 4 1 = Some 0%Q /\
    grid_lookup (explorePheromones w') 4 1 = Some 0%Q /\
    grid_lookup (explorePheromones corridorWorld) 3 1 = Some 200%Q /\
    (Qred <$> grid_lookup (explorePheromones w') 3 1) = Some 200.297%Q.
Proof.
  do 2 eexists. split; [by vm_compute|]. by vm_compute.
Qed.

(** C4, the claim as first stated, fails: of the two agents of the small
    world the second-spawned one is updated and drawn first. *)
Lemma second_ant_is_updated_first :
  ants corridorWorld = [firstAnt; secondAnt] /\
  exists w',
    updateAndDrawAnts corridorConfig axisTrig halfRng 0 corridorWorld = Some w' /\
    List.map (fun d => Qred (P5.vx (drawn_at d))) (canvas w')
      = [Qred (P5.vx (pos secondAnt) + 1); Qred (P5.vx (pos firstAnt) + 1)]%Q /\
    List.map (fun d => Qred (P5.vx (drawn_at d))) (canvas w')
      <> [Qred (P5.vx (pos firstAnt) + 1); Qred (P5.vx (pos secondAnt) + 1)]%Q.
Proof.
  split; [done|]. eexists. split; [by vm_compute|]. by vm_compute.
Qed.

(** C8, the claim as first stated, fails: the rate 2^-54 lies in
    [0 < rate <= 1] and 200 in [[0, PHEROMONE_MAX]], but in the
    arithmetic of the program [1.0 - rate] is exactly 1, a pass leaves
    the cell at 200, and so does any number of passes: the cell never
    reaches 0.  The same holds of the rate 1e-17. *)
Lemma tiny_rate_never_decays :
  (0 < B64.pow2 (-54) <= 1)%Q /\
  (0 <= 200 <= PHEROMONE_MAX simulationConfig)%Q /\
  binary64 (B64.pow2 (-54)) /\ binary64 200%Q /\
  B64.sub 1 (B64.pow2 (-54)) = 1%Q /\
  (forall n, Nat.iter n (evaporate64 (B64.pow2 (-54))) 200%Q = 200%Q) /\
  (forall n, ~ (Nat.iter n (evaporate64 (B64.pow2 (-54))) 200%Q == 0)%Q) /\
  (forall n, Nat.iter n (evaporate64 (B64.round (1 # 100000000000000000))) 200%Q = 200%Q).
Proof.
  assert (forall rate, evaporate64 rate 200%Q = 200%Q ->
            forall n, Nat.iter n (evaporate64 rate) 200%Q = 200%Q) as Hfix.
  { intros rate H n. induction n as [|n IH]; [done|]. by rewrite iter_S, IH. }
  split; [split; by vm_compute|]. split; [split; by vm_compute|].
  split; [apply binary64b_sound; by vm_compute|].
  split; [apply binary64b_sound; by vm_compute|].
  split; [by vm_compute|]. split; [apply Hfix; by vm_compute|].
  split; [|apply Hfix; by vm_compute].
  intros n. rewrite Hfix by (by vm_compute). by vm_compute.
Qed.

(** The theorems with hypotheses, applied on the small world. *)

Lemma sensing_cone_probes_witness :
  (0 < SENSE_ANGLE corridorConfig)%Q /\
  farFromGoal corridorConfig farAnt corridorWorld /\
  (6 <= 6)%nat /\
  exists probes,
    senseProbes corridorConfig axisTrig 6 farAnt = Some probes /\
    senseAndDecideAngle corridorConfig axisTrig halfRng 6 farAnt corridorWorld
      = Some (decideAngle corridorConfig axisTrig halfRng farAnt corridorWorld probes) /\
    length probes = 15%nat.
Proof.
  assert (0 < SENSE_ANGLE corridorConfig)%Q as h1 by (by vm_compute).
  assert (farFromGoal corridorConfig farAnt corridorWorld) as h2 by (by vm_compute).
  assert (6 <= 6)%nat as h3 by lia.
  do 3 (split; [assumption|]).
  destruct (sensing_cone_probes corridorConfig axisTrig halfRng farAnt corridorWorld 6
              h1 h2 h3) as (probes & H1 & H2 & H3 & _).
  exists probes. auto.
Defined.

Lemma generateMaze_connected_witness :
  P5.rng_unit halfRng /\
  (mazeFuel 5 5 <= mazeFuel 5 5)%nat /\
  exists r,
    generateMaze (mazeFuel 5 5) halfRng 5 5 = Some r /\
    let start := mazeStart halfRng (finalCols r) (finalRows r) in
    isPath (mr_grid r) start /\
    isPath (mr_grid r) (1, 1) /\
    isPath (mr_grid r) (finalCols r - 2, finalRows r - 2) /\
    forall p, isPath (mr_grid r) p -> reached (mr_grid r) start p.
Proof.
  assert (P5.rng_unit halfRng) as h1 by (intros k; split; by vm_compute).
  assert (mazeFuel 5 5 <= mazeFuel 5 5)%nat as h2 by lia.
  do 2 (split; [assumption|]).
  exact (generateMaze_connected halfRng 5 5 (mazeFuel 5 5) h1 h2).
Defined.

Lemma deposit_goes_to_gridPos_witness :
  (0 < SENSE_ANGLE corridorConfig)%Q /\
  0 < GRID_COLS corridorConfig /\ 0 < GRID_ROWS corridorConfig /\
  exists enough, forall fuel, (enough <= fuel)%nat ->
    exists a' w',
      update corridorConfig axisTrig halfRng fuel firstAnt corridorWorld = Some (a', w') /\
      charge a' = 99 /\ gridPos a' = (3, 1) /\
      explorePheromones w'
      = grid_modify
          (deposit corridorConfig
             (depositionRate corridorConfig 99 (DEPOSITION_RATE_EXPLORE corridorConfig)))
          3 1 (explorePheromones corridorWorld).
Proof.
  assert (0 < SENSE_ANGLE corridorConfig)%Q as h1 by (by vm_compute).
  assert (0 < GRID_COLS corridorConfig) as h2 by (simpl; lia).
  assert (0 < GRID_ROWS corridorConfig) as h3 by (simpl; lia).
  do 3 (split; [assumption|]).
  destruct (deposit_goes_to_gridPos corridorConfig axisTrig halfRng firstAnt corridorWorld
              h1 h2 h3) as [[enough H] _].
  exists enough. intros fuel Hf.
  destruct (H fuel Hf) as (a' & w' & Hu & Hs & Hc & Hg & Hd).
  exists a', w'. split; [exact Hu|]. split; [exact Hc|]. split; [exact Hg|].
  exact (proj1 (Hd ltac:(reflexivity))).
Defined.

Lemma pheromones_within_bounds_witness :
  (0 <= EVAPORATION_RATE corridorConfig <= 1)%Q /\
  (0 <= PHEROMONE_MAX corridorConfig)%Q /\
  fields_bounded corridorConfig
    (depositPheromone corridorConfig firstAnt (updatePheromones corridorConfig corridorWorld)).
Proof.
  assert (0 <= EVAPORATION_RATE corridorConfig <= 1)%Q as h1 by (split; by vm_compute).
  assert (0 <= PHEROMONE_MAX corridorConfig)%Q as h2 by (by vm_compute).
  do 2 (split; [assumption|]).
  destruct (pheromones_within_bounds corridorConfig h1 h2) as (_ & Hu & Hd & _).
  apply Hd, Hu. split; apply field_boundedb_sound; reflexivity.
Defined.

Lemma turn_is_clamped_witness :
  (0 <= TURN_ANGLE corridorConfig)%Q /\
  exists enough : nat, forall fuel, (enough <= fuel)%nat ->
    exists newAngle : Q,
      steer corridorConfig fuel 0 1 = Some newAngle /\
      (Qabs (newAngle - 0) <= TURN_ANGLE corridorConfig)%Q.
Proof.
  assert (0 <= TURN_ANGLE corridorConfig)%Q as h1 by (by vm_compute).
  split; [assumption|].
  destruct (turn_is_clamped corridorConfig 0 1 h1) as [enough H].
  exists enough. intros fuel Hf.
  destruct (H fuel Hf) as (newAngle & d & k & Hs & _ & _ & _ & Habs & _).
  exists newAngle. auto.
Defined.

Lemma findValidPosition_ring_search_witness :
  grid_dims (GRID_COLS corridorConfig) (GRID_ROWS corridorConfig) corridorMaze /\
  0 < GRID_COLS corridorConfig /\ 0 < GRID_ROWS corridorConfig /\
  findValidPosition corridorConfig corridorMaze 1 1 = Normal (Some (1, 1)) /\
  findValidPosition corridorConfig corridorMaze 0 0
    = Normal (List.find (isOpen corridorConfig corridorMaze) (scanOrder corridorConfig (0, 0))).
Proof.
  assert (grid_dims (GRID_COLS corridorConfig) (GRID_ROWS corridorConfig) corridorMaze)
    as h1 by (split; [reflexivity | repeat constructor]).
  assert (0 < GRID_COLS corridorConfig) as h2 by (simpl; lia).
  assert (0 < GRID_ROWS corridorConfig) as h3 by (simpl; lia).
  do 3 (split; [assumption|]). split.
  - apply (findValidPosition_ring_search corridorConfig corridorMaze 1 1 h1 h2 h3).
    reflexivity.
  - apply (findValidPosition_ring_search corridorConfig corridorMaze 0 0 h1 h2 h3).
    simpl. discriminate.
Defined.

Lemma evaporation_decays_to_zero_witness :
  (B64.pow2 (-54) < B64.round (EVAPORATION_RATE corridorConfig) <= 1)%Q /\
  fields_bounded corridorConfig corridorWorld /\
  fields_binary64 corridorWorld /\
  grid_lookup (explorePheromones corridorWorld) 3 1 = Some 200%Q /\
  exists steps : nat, forall n, (steps <= n)%nat ->
    grid_lookup
      (explorePheromones (Nat.iter n (updatePheromones64 corridorConfig) corridorWorld))
      3 1
    = Some 0%Q.
Proof.
  assert (B64.pow2 (-54) < B64.round (EVAPORATION_RATE corridorConfig) <= 1)%Q as h1
    by (split; by vm_compute).
  assert (fields_bounded corridorConfig corridorWorld) as h2
    by (split; apply field_boundedb_sound; reflexivity).
  assert (fields_binary64 corridorWorld) as h3
    by (split; apply field_binary64b_sound; by vm_compute).
  assert (grid_lookup (explorePheromones corridorWorld) 3 1 = Some 200%Q) as h4
    by reflexivity.
  do 4 (split; [assumption|]).
  destruct (evaporation_decays_to_zero corridorConfig corridorWorld h1 h2 h3)
    as [steps H].
  exists steps.
  pose proof (H explorePheromones (or_introl eq_refl) 3 1
                ltac:(simpl; lia) ltac:(simpl; lia)) as H31.
  rewrite h4 in H31. exact (proj2 H31).
Defined.

Lemma generateMaze_border_is_wall_witness :
  P5.rng_unit halfRng /\
  (mazeFuel 5 5 <= mazeFuel 5 5)%nat /\
  exists r,
    generateMaze (mazeFuel 5 5) halfRng 5 5 = Some r /\
    3 <= finalCols r /\ 3 <= finalRows r /\
    interior (finalCols r) (finalRows r) (1, 1) /\
    interior (finalCols r) (finalRows r) (finalCols r - 2, finalRows r - 2) /\
    (forall p, isPath (mr_grid r) p -> interior (finalCols r) (finalRows r) p) /\
    forall p, onBorder (finalCols r) (finalRows r) p -> isWall (mr_grid r) p.
Proof.
  assert (P5.rng_unit halfRng) as h1 by (intros k; split; by vm_compute).
  assert (mazeFuel 5 5 <= mazeFuel 5 5)%nat as h2 by lia.
  do 2 (split; [assumption|]).
  exact (generateMaze_border_is_wall halfRng 5 5 (mazeFuel 5 5) h1 h2).
Defined.

Lemma findValidPosition_is_safe_witness :
  grid_dims (GRID_COLS corridorConfig) (GRID_ROWS corridorConfig) corridorMaze /\
  0 < GRID_COLS corridorConfig /\ 0 < GRID_ROWS corridorConfig /\
  findValidPosition corridorConfig corridorMaze 100 (-3) <> Throw /\
  (findValidPosition corridorConfig corridorMaze 100 (-3) = Normal None \/
   exists x y,
     findValidPosition corridorConfig corridorMaze 100 (-3) = Normal (Some (x, y)) /\
     0 <= x < GRID_COLS corridorConfig /\ 0 <= y < GRID_ROWS corridorConfig /\
     grid_lookup corridorMaze x y = Some Path).
Proof.
  assert (grid_dims (GRID_COLS corridorConfig) (GRID_ROWS corridorConfig) corridorMaze)
    as h1 by (split; [reflexivity | repeat constructor]).
  assert (0 < GRID_COLS corridorConfig) as h2 by (simpl; lia).
  assert (0 < GRID_ROWS corridorConfig) as h3 by (simpl; lia).
  do 3 (split; [assumption|]).
  apply (findValidPosition_is_safe corridorConfig corridorMaze 100 (-3) h1 h2 h3).
Defined.

(* ================================================================== *)
(** * Further properties of the program *)

(** ** Pixels and cells *)

Lemma Qfloor_unique (q : Q) (n : Z) :
  (inject_Z n <= q)%Q -> (q < inject_Z (n + 1))%Q -> Qfloor q = n.
Proof.
  intros Hlo Hhi.
  pose proof (Qfloor_le q) as H1. pose proof (Qlt_floor q) as H2.
  assert (Qfloor q < n + 1) by (rewrite Zlt_Qlt; lra).
  assert (n < Qfloor q + 1) by (rewrite Zlt_Qlt; lra).
  lia.
Qed.

(** The cell under a pixel, for a cell of positive size. *)
Lemma Qfloor_div_spec (x c : Q) (n : Z) :
  (0 < c)%Q ->
  Qfloor (x / c) = n <-> (inject_Z n * c <= x /\ x < (inject_Z n + 1) * c)%Q.
Proof.
  intros Hc.
  assert (x / c * c == x)%Q as Hdiv by (field; lra).
  split.
  - intros <-. pose proof (Qfloor_le (x / c)) as H1.
    pose proof (Qlt_floor (x / c)) as H2. rewrite inject_Z_plus in H2.
    change (inject_Z 1) with 1%Q in H2. split; nra.
  - intros [H1 H2]. apply Qfloor_unique.
    + apply Qle_shift_div_l; [done | lra].
    + rewrite inject_Z_plus. change (inject_Z 1) with 1%Q.
      apply Qlt_shift_div_r; [done | lra].
Qed.

(** X1.  For cells of positive size, the centre of a cell lies in that
    cell: [pixelToGrid] undoes [gridToPixel]. *)
Theorem pixelToGrid_gridToPixel (cfg : Config) (gridX gridY : Z) :
  (0 < CELL_SIZE cfg)%Q ->
  pixelToGrid cfg (P5.vx (gridToPixel cfg gridX gridY))
                  (P5.vy (gridToPixel cfg gridX gridY))
  = (gridX, gridY).
Proof.
  intros Hc. unfold pixelToGrid, gridToPixel. cbn [P5.vx P5.vy].
  f_equal; apply Qfloor_div_spec; try done; split; nra.
Qed.

Lemma pixelToGrid_gridToPixel_witness :
  (0 < CELL_SIZE corridorConfig)%Q /\
  pixelToGrid corridorConfig (P5.vx (gridToPixel corridorConfig 3 1))
                             (P5.vy (gridToPixel corridorConfig 3 1))
  = (3, 1).
Proof.
  assert (0 < CELL_SIZE corridorConfig)%Q as h by (by vm_compute).
  split; [assumption|]. exact (pixelToGrid_gridToPixel corridorConfig 3 1 h).
Defined.

(** ** Where a step can take an agent *)

(** [move] either leaves the position or puts the agent over a cell that
    passed the test of the move, and then clamps it to the canvas. *)
Lemma move_position cfg trig rng fuel a w a' w' :
  move cfg trig rng fuel a w = Some (a', w') ->
  maze w' = maze w /\
  exists p,
    pos a' = P5.createVector
               (P5.constrain (P5.vx p) 0 (CELL_SIZE cfg * inject_Z (GRID_COLS cfg)))
               (P5.constrain (P5.vy p) 0 (CELL_SIZE cfg * inject_Z (GRID_ROWS cfg))) /\
    (p = pos a \/
     let g := pixelToGrid cfg (P5.vx p) (P5.vy p) in
     isValidGridPos cfg g.1 g.2 = true /\ grid_lookup (maze w) g.1 g.2 <> Some Wall).
Proof.
  unfold move. intros H.
  destruct (senseAndDecideAngle _ _ _ _ _ _) as [[angle w1]|] eqn:Hs; [|done].
  apply senseAndDecideAngle_frame in Hs as [k ->]. cbn [mbind option_bind] in H.
  destruct (steer _ _ _ _) as [newAngle|]; [|done]. cbn [mbind option_bind] in H.
  destruct (Qlt_le_dec _ _); cbv zeta in H;
    match type of H with context [if ?c then _ else _] => destruct c eqn:Hc end;
    match type of H with Some (set_pos _ ?b, _) = _ =>
      injection H as <- <-; (split; [done|]); exists (pos b); (split; [reflexivity|])
    end;
    cbn [pos set_pos set_vel]; try (by left).
  all: right; apply andb_true_iff in Hc as [Hv Hw]; split; [exact Hv|].
  all: apply negb_true_iff, bool_decide_eq_false in Hw; exact Hw.
Qed.

Lemma constrain_id n low high :
  (low <= n <= high)%Q -> (P5.constrain n low high == n)%Q.
Proof.
  intros H. destruct (constrain_spec n low high) as (_ & Hid & _); [lra|].
  by apply Hid.
Qed.

(** A position over a cell of the grid is inside the canvas. *)
Lemma valid_cell_in_canvas cfg (x y : Q) :
  (0 < CELL_SIZE cfg)%Q ->
  isValidGridPos cfg (pixelToGrid cfg x y).1 (pixelToGrid cfg x y).2 = true ->
  (0 <= x <= CELL_SIZE cfg * inject_Z (GRID_COLS cfg))%Q /\
  (0 <= y <= CELL_SIZE cfg * inject_Z (GRID_ROWS cfg))%Q.
Proof.
  intros Hc Hv. apply isValidGridPos_spec in Hv as [Hx Hy]. unfold pixelToGrid in *.
  cbn [fst snd] in *.
  pose proof (proj1 (Qfloor_div_spec x (CELL_SIZE cfg) _ Hc) eq_refl) as [Hx1 Hx2].
  pose proof (proj1 (Qfloor_div_spec y (CELL_SIZE cfg) _ Hc) eq_refl) as [Hy1 Hy2].
  assert (0 <= inject_Z (Qfloor (x / CELL_SIZE cfg)))%Q
    by (change 0%Q with (inject_Z 0); rewrite <- Zle_Qle; lia).
  assert (0 <= inject_Z (Qfloor (y / CELL_SIZE cfg)))%Q
    by (change 0%Q with (inject_Z 0); rewrite <- Zle_Qle; lia).
  assert (inject_Z (Qfloor (x / CELL_SIZE cfg)) + 1 <= inject_Z (GRID_COLS cfg))%Q.
  { change 1%Q with (inject_Z 1). rewrite <- inject_Z_plus, <- Zle_Qle. lia. }
  assert (inject_Z (Qfloor (y / CELL_SIZE cfg)) + 1 <= inject_Z (GRID_ROWS cfg))%Q.
  { change 1%Q with (inject_Z 1). rewrite <- inject_Z_plus, <- Zle_Qle. lia. }
  split; split; nra.
Qed.

Lemma pixelToGrid_proper cfg x y x' y' :
  (x == x')%Q -> (y == y')%Q -> pixelToGrid cfg x y = pixelToGrid cfg x' y'.
Proof. intros Hx Hy. unfold pixelToGrid. by rewrite Hx, Hy. Qed.

Lemma move_stays_open cfg trig rng fuel a w a' w' :
  (0 < CELL_SIZE cfg)%Q ->
  standsOnOpen cfg w a ->
  move cfg trig rng fuel a w = Some (a', w') ->
  standsOnOpen cfg w' a'.
Proof.
  intros Hc Ha Hm. apply move_position in Hm as (Hmz & p & Hp & Hcase).
  assert (standsOnOpen cfg w (set_pos p a)) as [Hv Hw].
  { destruct Hcase as [->|Hg]; [by destruct a | exact Hg]. }
  cbn [pos set_pos] in Hv, Hw.
  destruct (valid_cell_in_canvas cfg _ _ Hc Hv) as [Hx Hy].
  unfold standsOnOpen. rewrite Hp, Hmz. cbn [P5.vx P5.vy].
  rewrite (pixelToGrid_proper cfg _ _ (P5.vx p) (P5.vy p)) by (by apply constrain_id).
  done.
Qed.

Lemma update_frame cfg trig rng fuel a w a' w' :
  update cfg trig rng fuel a w = Some (a', w') ->
  maze w' = maze w /\ colonyPos w' = colonyPos w /\ foodPos w' = foodPos w.
Proof.
  unfold update. intros H.
  assert (let w1 := (checkEnvironment cfg trig rng (updateGridPos cfg a) w).2 in
          maze w1 = maze w /\ colonyPos w1 = colonyPos w /\ foodPos w1 = foodPos w) as Hc.
  { unfold checkEnvironment.
    destruct (state (updateGridPos cfg a)); destruct (P5.dist_le _ _ _ _ _); done. }
  destruct (checkEnvironment cfg trig rng (updateGridPos cfg a) w) as [a1 w1].
  destruct Hc as (Hm & Hcol & Hf). cbn [snd] in *.
  destruct (move _ _ _ _ _ _) as [[a3 w3]|] eqn:Hmv; [|done].
  cbn [mbind option_bind] in H.
  apply move_frame in Hmv as ([k ->] & _).
  injection H as _ <-. rewrite <- Hm, <- Hcol, <- Hf. unfold depositPheromone.
  destruct (gridPos a3) as [gx gy], (charge a3 <=? 0), (isValidGridPos cfg gx gy),
    (state a3); done.
Qed.

(** With cells of positive size, an agent whose position lies over a cell
    of the grid that is not a wall is, after its step, again over such a
    cell. *)
Lemma update_stays_open (cfg : Config) (trig : P5.Trig) (rng : P5.Rng)
    (fuel : nat) (a a' : Ant) (w w' : Sim) :
  (0 < CELL_SIZE cfg)%Q ->
  standsOnOpen cfg w a ->
  update cfg trig rng fuel a w = Some (a', w') ->
  maze w' = maze w /\ standsOnOpen cfg w' a'.
Proof.
  intros Hc Ha Hu. split; [by apply update_frame in Hu as [? _]|].
  unfold update in Hu.
  pose proof (checkEnvironment_frame cfg trig rng (updateGridPos cfg a) w) as Hce.
  destruct (checkEnvironment cfg trig rng (updateGridPos cfg a) w) as [a1 w1].
  destruct Hce as (_ & _ & Hmz & _ & _ & Hpos & _).
  destruct (move _ _ _ _ _ _) as [[a3 w3]|] eqn:Hm; [|done].
  cbn [mbind option_bind] in Hu. injection Hu as <- <-.
  apply (move_stays_open cfg) in Hm; [|done|].
  - destruct Hm as [Hv Hw]. unfold standsOnOpen.
    assert (pos (addToHistory cfg a3) = pos a3) as ->.
    { unfold addToHistory.
      repeat (match goal with |- context [if ?b then _ else _] => destruct b end); done. }
    assert (maze (depositPheromone cfg a3 w3) = maze w3) as ->; [|done].
    unfold depositPheromone.
    destruct (gridPos a3) as [gx gy], (charge a3 <=? 0), (isValidGridPos cfg gx gy),
      (state a3); done.
  - destruct Ha as [Hv Hw]. unfold standsOnOpen. cbn [pos set_charge].
    rewrite Hpos, Hmz. done.
Qed.

(** X2.  After a step the agent's position lies within the canvas, for
    any canvas that is not of negative size. *)
Theorem agent_stays_on_canvas (cfg : Config) (trig : P5.Trig) (rng : P5.Rng)
    (fuel : nat) (a a' : Ant) (w w' : Sim) :
  (0 <= CELL_SIZE cfg * inject_Z (GRID_COLS cfg))%Q ->
  (0 <= CELL_SIZE cfg * inject_Z (GRID_ROWS cfg))%Q ->
  update cfg trig rng fuel a w = Some (a', w') ->
  (0 <= P5.vx (pos a') <= CELL_SIZE cfg * inject_Z (GRID_COLS cfg))%Q /\
  (0 <= P5.vy (pos a') <= CELL_SIZE cfg * inject_Z (GRID_ROWS cfg))%Q.
Proof.
  intros Hw Hh Hu. unfold update in Hu.
  destruct (checkEnvironment cfg trig rng (updateGridPos cfg a) w) as [a1 w1].
  destruct (move _ _ _ _ _ _) as [[a3 w3]|] eqn:Hm; [|done].
  cbn [mbind option_bind] in Hu. injection Hu as <- _.
  assert (pos (addToHistory cfg a3) = pos a3) as ->.
  { unfold addToHistory.
    repeat (match goal with |- context [if ?b then _ else _] => destruct b end); done. }
  apply move_position in Hm as (_ & p & -> & _). cbn [P5.vx P5.vy].
  split; by apply constrain_spec.
Qed.

(** ** The history of visited cells *)

Lemma noRepeat_snoc h g :
  noRepeat h -> last h <> Some g -> noRepeat (h ++ [g]).
Proof.
  intros Hh Hl i x y Hx Hy.
  destruct (decide (S i < length h)%nat) as [Hi|Hi].
  - rewrite lookup_app_l in Hx by lia. rewrite lookup_app_l in Hy by lia. eauto.
  - pose proof (lookup_lt_Some _ _ _ Hy) as Hlen. rewrite length_app in Hlen.
    simpl in Hlen. assert (S i = length h) as Hi' by lia.
    rewrite lookup_app_l in Hx by lia.
    rewrite lookup_app_r in Hy by lia. replace (S i - length h)%nat with 0%nat in Hy by lia.
    injection Hy as <-. intros ->. apply Hl.
    rewrite last_lookup. rewrite <- Hi'. simpl. done.
Qed.

Lemma noRepeat_tail h : noRepeat h -> noRepeat (tail h).
Proof.
  intros Hh i x y Hx Hy. destruct h as [|z h]; [done|]. simpl in *.
  apply (Hh (S i) x y); done.
Qed.

Lemma last_differs (h : list (Z * Z)) (g : Z * Z) :
  match last h with
  | None => true
  | Some l => negb (l.1 =? g.1) || negb (l.2 =? g.2)
  end = true <-> last h <> Some g.
Proof.
  destruct (last h) as [[lx ly]|]; [|done]. destruct g as [gx gy]. simpl.
  rewrite orb_true_iff, !negb_true_iff, !Z.eqb_neq. split.
  - intros H [= -> ->]. lia.
  - intros H. destruct (decide (lx = gx)); [|by left].
    destruct (decide (ly = gy)); [|by right]. subst. done.
Qed.

(** What [addToHistory] does to the list. *)
Lemma addToHistory_spec cfg a :
  let h := history a in
  let g := gridPos a in
  gridPos (addToHistory cfg a) = g /\
  ((last h = Some g /\ history (addToHistory cfg a) = h) \/
   (last h <> Some g /\
    ((Z.of_nat (length h) + 1 > ANT_HISTORY_LENGTH cfg /\
      history (addToHistory cfg a) = tail (h ++ [g])) \/
     (Z.of_nat (length h) + 1 <= ANT_HISTORY_LENGTH cfg /\
      history (addToHistory cfg a) = h ++ [g])))).
Proof.
  intros h g. unfold addToHistory. fold h g.
  pose proof (last_differs h g) as Hd.
  destruct (match last h with None => true | Some l => _ end) eqn:E.
  - assert (last h <> Some g) as Hne by (by apply Hd).
    rewrite length_app. simpl.
    destruct (Z.gtb_spec (Z.of_nat (length h + 1)) (ANT_HISTORY_LENGTH cfg)).
    + split; [done|]. right. split; [done|]. left. split; [lia | done].
    + split; [done|]. right. split; [done|]. right. split; [lia | done].
  - split; [done|]. left. split; [|done].
    destruct (decide (last h = Some g)); [done|]. apply Hd in n. congruence.
Qed.

Lemma update_history cfg trig rng fuel a w a' w' :
  update cfg trig rng fuel a w = Some (a', w') ->
  exists b, history b = history a /\ a' = addToHistory cfg b.
Proof.
  unfold update. intros H.
  pose proof (checkEnvironment_frame cfg trig rng (updateGridPos cfg a) w) as Hce.
  destruct (checkEnvironment cfg trig rng (updateGridPos cfg a) w) as [a1 w1].
  destruct Hce as (_ & _ & _ & _ & _ & _ & Hh).
  destruct (move _ _ _ _ _ _) as [[a3 w3]|] eqn:Hm; [|done].
  cbn [mbind option_bind] in H. injection H as <- _.
  apply move_frame in Hm as (_ & _ & _ & _ & Hh3).
  exists a3. split; [|done]. by rewrite Hh3.
Qed.

(** X3.  A step of an agent keeps its history short and free of
    repetition: the history never grows beyond [ANT_HISTORY_LENGTH] (nor
    beyond the length it had), no two neighbouring entries are the same
    cell if none were before, and for a history length of at least 1 the
    newest entry is the cell the agent was over when the step began. *)
Theorem history_stays_bounded (cfg : Config) (trig : P5.Trig) (rng : P5.Rng)
    (fuel : nat) (a a' : Ant) (w w' : Sim) :
  update cfg trig rng fuel a w = Some (a', w') ->
  (length (history a') <= Nat.max (length (history a)) (Z.to_nat (ANT_HISTORY_LENGTH cfg)))%nat
  /\ (noRepeat (history a) -> noRepeat (history a'))
  /\ (1 <= ANT_HISTORY_LENGTH cfg -> last (history a') = Some (gridPos a')).
Proof.
  intros Hu. apply update_history in Hu as (b & Hb & ->).
  destruct (addToHistory_spec cfg b) as [Hg Hcase]. rewrite Hg, Hb in *.
  destruct Hcase as [[Hl ->]|[Hl [[Hlen ->]|[Hlen ->]]]].
  - split; [lia|]. split; [done|]. done.
  - split; [|split].
    + destruct (history a); simpl; [lia|]. rewrite length_app. simpl. lia.
    + intros Hn. by apply noRepeat_tail, noRepeat_snoc.
    + intros HL. destruct (history a) as [|z h]; simpl in *; [lia|].
      by rewrite last_snoc.
  - split; [|split].
    + rewrite length_app. simpl. lia.
    + intros Hn. by apply noRepeat_snoc.
    + intros _. by rewrite last_snoc.
Qed.

Lemma wasRecentlyVisited_true a x y :
  wasRecentlyVisited a x y = true <-> In (x, y) (removelast (history a)).
Proof.
  unfold wasRecentlyVisited. rewrite existsb_exists. split.
  - intros ([hx hy] & Hin & Hb). simpl in Hb.
    apply andb_true_iff in Hb as [->%Z.eqb_eq ->%Z.eqb_eq]. done.
  - intros Hin. exists (x, y). split; [done|]. simpl. by rewrite !Z.eqb_refl.
Qed.

Lemma In_removelast {A : Type} (x : A) l : In x (removelast l) -> In x l.
Proof.
  induction l as [|y l IH]; simpl; [done|].
  destruct l as [|z l]; [done|]. intros [->|H]; [by left | right; by apply IH].
Qed.

(** X4.  The newest entry of the history does not count as a visit: after
    a step, the cell the agent was over is reported by
    [wasRecentlyVisited] only if it was in the history before the
    step. *)
Theorem newest_entry_is_not_a_visit (cfg : Config) (trig : P5.Trig) (rng : P5.Rng)
    (fuel : nat) (a a' : Ant) (w w' : Sim) :
  update cfg trig rng fuel a w = Some (a', w') ->
  wasRecentlyVisited a' (gridPos a').1 (gridPos a').2 = true ->
  In (gridPos a') (history a).
Proof.
  intros Hu Hv. apply update_history in Hu as (b & Hb & ->).
  destruct (addToHistory_spec cfg b) as [Hg Hcase]. rewrite Hg, Hb in *.
  apply wasRecentlyVisited_true in Hv.
  replace ((gridPos b).1, (gridPos b).2) with (gridPos b) in Hv by (by destruct (gridPos b)).
  destruct Hcase as [[Hl E]|[Hl [[Hlen E]|[Hlen E]]]]; rewrite E in Hv.
  - by apply In_removelast.
  - destruct (history a) as [|z h]; simpl in *; [done|].
    rewrite removelast_last in Hv. by right.
  - by rewrite removelast_last in Hv.
Qed.

(** ** Finding food and coming home *)

Lemma depositPheromone_frame cfg a w :
  foodFoundCount (depositPheromone cfg a w) = foodFoundCount w /\
  maze (depositPheromone cfg a w) = maze w /\
  ants (depositPheromone cfg a w) = ants w /\
  colonyPos (depositPheromone cfg a w) = colonyPos w /\
  foodPos (depositPheromone cfg a w) = foodPos w /\
  lastAntSpawnTime (depositPheromone cfg a w) = lastAntSpawnTime w /\
  draws (depositPheromone cfg a w) = draws w.
Proof.
  unfold depositPheromone.
  destruct (gridPos a) as [gx gy], (charge a <=? 0), (isValidGridPos cfg gx gy),
    (state a); done.
Qed.

(** The state, the charge and the counter after a step are those
    [checkEnvironment] left, the charge lowered by one. *)
Lemma update_effects cfg trig rng fuel a w a' w' :
  update cfg trig rng fuel a w = Some (a', w') ->
  let r := checkEnvironment cfg trig rng (updateGridPos cfg a) w in
  state a' = state r.1 /\
  charge a' = Z.max 0 (charge r.1 - 1) /\
  foodFoundCount w' = foodFoundCount r.2 /\
  lastAntSpawnTime w' = lastAntSpawnTime r.2.
Proof.
  unfold update. intros H.
  destruct (checkEnvironment cfg trig rng (updateGridPos cfg a) w) as [a1 w1].
  destruct (move _ _ _ _ _ _) as [[a3 w3]|] eqn:Hm; [|done].
  cbn [mbind option_bind] in H. injection H as <- <-.
  apply move_frame in Hm as ([k ->] & _ & Hs & Hc & _).
  destruct (depositPheromone_frame cfg a3 (set_draws k w1)) as (Hf & _ & _ & _ & _ & Hl & _).
  cbn [fst snd]. rewrite Hf, Hl.
  assert (state (addToHistory cfg a3) = state a3 /\
          charge (addToHistory cfg a3) = charge a3) as [-> ->].
  { unfold addToHistory.
    repeat (match goal with |- context [if ?b then _ else _] => destruct b end); done. }
  rewrite Hs, Hc. done.
Qed.

Lemma checkEnvironment_cases cfg trig rng a w :
  let r := checkEnvironment cfg trig rng (updateGridPos cfg a) w in
  if transits cfg w a
  then state r.1 = match state a with searching => returning | returning => searching end
       /\ charge r.1 = PHEROMONE_DURATION cfg
       /\ foodFoundCount r.2
          = foodFoundCount w + match state a with searching => 0 | returning => 1 end
       /\ lastAntSpawnTime r.2 = lastAntSpawnTime w
  else state r.1 = state a /\ charge r.1 = charge a
       /\ foodFoundCount r.2 = foodFoundCount w
       /\ lastAntSpawnTime r.2 = lastAntSpawnTime w.
Proof.
  unfold transits, atFood, atColony, checkEnvironment.
  change (state (updateGridPos cfg a)) with (state a).
  destruct (state a) eqn:Es; destruct (P5.dist_le _ _ _ _ _); cbn;
    split_and!; first [done | lia].
Qed.

(** X5.  What a step does to the state of an agent.  A searching agent
    whose cell lies within [FOOD_DETECTION_RADIUS] of the food starts to
    return, a returning agent whose cell lies within
    [COLONY_DETECTION_RADIUS] of the colony starts to search again and
    raises [foodFoundCount] by one; both leave the step with a charge one
    below [PHEROMONE_DURATION] (the charge is lowered in the same step,
    and never below 0).  Any other step keeps the state and the counter
    and lowers the charge by one, stopping at 0. *)
Theorem state_changes_at_the_goal (cfg : Config) (trig : P5.Trig) (rng : P5.Rng)
    (fuel : nat) (a a' : Ant) (w w' : Sim) :
  update cfg trig rng fuel a w = Some (a', w') ->
  if transits cfg w a
  then state a' = match state a with searching => returning | returning => searching end
       /\ charge a' = Z.max 0 (PHEROMONE_DURATION cfg - 1)
       /\ foodFoundCount w'
          = foodFoundCount w + match state a with searching => 0 | returning => 1 end
  else state a' = state a
       /\ charge a' = Z.max 0 (charge a - 1)
       /\ foodFoundCount w' = foodFoundCount w.
Proof.
  intros Hu. apply update_effects in Hu as (Hs & Hc & Hf & _).
  pose proof (checkEnvironment_cases cfg trig rng a w) as Hce. cbv zeta in Hce.
  destruct (transits cfg w a); destruct Hce as (Es & Ec & Ef & _);
    rewrite Hs, Hc, Hf, Es, Ec, Ef; done.
Qed.

Lemma update_count cfg trig rng fuel a w a' w' :
  update cfg trig rng fuel a w = Some (a', w') ->
  foodFoundCount w <= foodFoundCount w' <= foodFoundCount w + 1 /\
  lastAntSpawnTime w' = lastAntSpawnTime w /\
  0 <= charge a'.
Proof.
  intros Hu. apply update_effects in Hu as (Hs & Hc & Hf & Hl).
  pose proof (checkEnvironment_cases cfg trig rng a w) as Hce. cbv zeta in Hce.
  destruct (transits cfg w a); destruct Hce as (Es & Ec & Ef & El);
    rewrite Hc, Hf, Hl, Ef, El; destruct (state a); split_and!; try done; lia.
Qed.

(** X6.  An agent whose charge is used up lays no trail: if the charge
    is at most 1 when a step begins and the agent does not reach its goal
    in it, the step leaves both pheromone fields as they were, and the
    charge at 0. *)
Theorem spent_agent_deposits_nothing (cfg : Config) (trig : P5.Trig) (rng : P5.Rng)
    (fuel : nat) (a a' : Ant) (w w' : Sim) :
  update cfg trig rng fuel a w = Some (a', w') ->
  transits cfg w a = false ->
  charge a <= 1 ->
  explorePheromones w' = explorePheromones w /\
  returnPheromones w' = returnPheromones w /\
  charge a' = 0.
Proof.
  intros Hu Ht Hc. pose proof (update_fields _ _ _ _ _ _ _ _ Hu) as Hf.
  cbv zeta in Hf. destruct Hf as (He & Hr & _ & _ & Hc' & _).
  pose proof (checkEnvironment_cases cfg trig rng a w) as Hce. cbv zeta in Hce.
  rewrite Ht in Hce. destruct Hce as (_ & Ec & _).
  rewrite He, Hr, Hc'. unfold depositPheromone. cbn [charge set_charge gridPos state].
  rewrite Ec. replace (Z.max 0 (charge a - 1)) with 0 by lia.
  destruct (gridPos _) as [gx gy]. cbn. done.
Qed.

(** ** A whole frame *)

Lemma updatePheromones_frame cfg w :
  exists e r, updatePheromones cfg w = set_pheromones e r w.
Proof. unfold updatePheromones. destruct (for_lt _ _ _ _) as [e r]. eauto. Qed.

Lemma standsOnOpen_maze cfg w1 w2 a :
  maze w1 = maze w2 -> standsOnOpen cfg w1 a -> standsOnOpen cfg w2 a.
Proof. unfold standsOnOpen. by intros ->. Qed.

(** What the traversal of the agents leaves alone, and how far it can
    move the counter. *)
Lemma updateAndDrawAnts_frame cfg trig rng fuel w w' :
  updateAndDrawAnts cfg trig rng fuel w = Some w' ->
  maze w' = maze w /\ colonyPos w' = colonyPos w /\ foodPos w' = foodPos w /\
  lastAntSpawnTime w' = lastAntSpawnTime w /\
  foodFoundCount w <= foodFoundCount w'
    <= foodFoundCount w + Z.of_nat (length (ants w)).
Proof.
  intros H. unfold updateAndDrawAnts in H.
  pose (I := fun (k : nat) (s : Sim) =>
    maze s = maze w /\ colonyPos s = colonyPos w /\ foodPos s = foodPos w /\
    lastAntSpawnTime s = lastAntSpawnTime w /\
    foodFoundCount w <= foodFoundCount s
      <= foodFoundCount w + Z.of_nat (length (ants w) - k)).
  assert (I 0%nat w') as (? & ? & ? & ? & ?).
  2:{ split_and!; try done; lia. }
  refine (for_down_ind_index I _ _ _ w w' _ H).
  2:{ unfold I. split_and!; try done; lia. }
  intros k s s' Hk (Hm & Hc & Hf & Hl & Hn) Hb. unfold updateAndDrawAnt in Hb.
  destruct (ants s !! Z.to_nat (Z.of_nat k)) as [a|]; [|done]. simpl in Hb.
  destruct (update _ _ _ _ _ _) as [[a1 s1]|] eqn:Hu; [|done]. simpl in Hb.
  injection Hb as <-.
  pose proof (update_frame _ _ _ _ _ _ _ _ Hu) as (Hm1 & Hc1 & Hf1).
  pose proof (update_count _ _ _ _ _ _ _ _ Hu) as (Hn1 & Hl1 & _).
  unfold I, display.
  cbn [maze colonyPos foodPos lastAntSpawnTime foodFoundCount set_ants set_canvas].
  rewrite Hm1, Hc1, Hf1, Hl1. split_and!; try done; lia.
Qed.

Lemma updateAndDrawAnts_open cfg trig rng fuel w w' :
  (0 < CELL_SIZE cfg)%Q ->
  Forall (standsOnOpen cfg w) (ants w) ->
  updateAndDrawAnts cfg trig rng fuel w = Some w' ->
  Forall (standsOnOpen cfg w) (ants w').
Proof.
  intros Hc Hw H. unfold updateAndDrawAnts in H.
  pose (I := fun (s : Sim) => maze s = maze w /\ Forall (standsOnOpen cfg w) (ants s)).
  assert (I w') as [_ ?]; [|done].
  refine (for_down_ind I _ _ _ w w' _ H); [|by split].
  intros i s s' [Hm Hs] Hb. unfold updateAndDrawAnt in Hb.
  destruct (ants s !! Z.to_nat i) as [a|] eqn:Ea; [|done]. simpl in Hb.
  destruct (update _ _ _ _ _ _) as [[a1 s1]|] eqn:Hu; [|done]. simpl in Hb.
  injection Hb as <-.
  pose proof (update_keeps _ _ _ _ _ _ _ _ Hu) as [Hua _].
  apply update_stays_open in Hu as [Hm1 Ho]; [|done|].
  - unfold I, display. cbn [maze ants set_ants set_canvas]. rewrite Hua.
    split; [congruence|]. apply Forall_insert; [done|].
    apply (standsOnOpen_maze cfg s1); [congruence | done].
  - apply (standsOnOpen_maze cfg w); [done|].
    eapply Forall_lookup_1; [exact Hs | exact Ea].
Qed.

Lemma draw_unfold cfg trig rng fuel now w w' :
  draw cfg trig rng fuel now w = Some w' ->
  exists e r w1,
    updateAndDrawAnts cfg trig rng fuel (set_pheromones e r (set_canvas [] w)) = Some w1 /\
    w' = spawnNewAnts cfg trig rng now w1.
Proof.
  intros H. unfold draw in H.
  destruct (updatePheromones_frame cfg (set_canvas [] w)) as (e & r & Hp).
  rewrite Hp in H.
  destruct (updateAndDrawAnts _ _ _ _ _) as [w1|] eqn:Hu; [|done].
  cbn [mbind option_bind] in H. injection H as <-. by exists e, r, w1.
Qed.

(** An agent as the constructor leaves it stands over its cell. *)
Lemma fresh_stands_open cfg w c a :
  (0 < CELL_SIZE cfg)%Q -> freshAt cfg c a ->
  isValidGridPos cfg c.1 c.2 = true -> grid_lookup (maze w) c.1 c.2 <> Some Wall ->
  standsOnOpen cfg w a.
Proof.
  intros Hc (Hpos & _) Hv Ho. unfold standsOnOpen. rewrite Hpos.
  assert (pixelToGrid cfg (P5.vx (gridToPixel cfg c.1 c.2)) (P5.vy (gridToPixel cfg c.1 c.2))
          = (c.1, c.2)) as ->; [|done].
  unfold pixelToGrid, gridToPixel. cbn [P5.vx P5.vy].
  f_equal; apply Qfloor_div_spec; try done; split; nra.
Qed.

(** X7.  No agent is ever over a wall.  With cells of positive size and
    the colony on a cell of the grid that is not a wall: if every agent
    stands over a cell of the grid that is not a wall, then so does every
    agent after a frame, the newly admitted one included; the frame does
    not change the maze. *)
Theorem agents_stay_off_walls (cfg : Config) (trig : P5.Trig) (rng : P5.Rng)
    (fuel : nat) (now : Q) (w w' : Sim) :
  (0 < CELL_SIZE cfg)%Q ->
  isValidGridPos cfg (colonyPos w).1 (colonyPos w).2 = true ->
  grid_lookup (maze w) (colonyPos w).1 (colonyPos w).2 <> Some Wall ->
  Forall (standsOnOpen cfg w) (ants w) ->
  draw cfg trig rng fuel now w = Some w' ->
  maze w' = maze w /\ Forall (standsOnOpen cfg w') (ants w').
Proof.
  intros Hc Hv Hopen Hw H. unfold draw in H.
  destruct (updateAndDrawAnts _ _ _ _ _) as [w1|] eqn:Hu; [|done].
  cbn [mbind option_bind] in H. injection H as <-.
  destruct (updatePheromones_frame cfg (set_canvas [] w)) as (e & r & Hp).
  rewrite Hp in Hu.
  pose proof (updateAndDrawAnts_frame _ _ _ _ _ _ Hu) as (Hm & Hcol & _).
  apply updateAndDrawAnts_open in Hu; [|done|exact Hw].
  cbn [maze colonyPos set_pheromones set_canvas] in Hm, Hcol.
  assert (Forall (standsOnOpen cfg w) (ants w1)) as Hw1.
  { eapply Forall_impl; [exact Hu|]. intros a. by apply standsOnOpen_maze. }
  unfold spawnNewAnts. destruct (_ && _).
  - unfold newAnt. cbn [maze ants set_lastAntSpawnTime set_ants set_draws].
    split; [done|]. apply Forall_app. split.
    + eapply Forall_impl; [exact Hw1|]. intros a. by apply standsOnOpen_maze.
    + apply Forall_singleton. unfold standsOnOpen. cbn [pos].
      change (maze (set_lastAntSpawnTime _ _)) with (maze w1).
      rewrite Hm, Hcol.
      assert (pixelToGrid cfg (P5.vx (gridToPixel cfg (colonyPos w).1 (colonyPos w).2))
                (P5.vy (gridToPixel cfg (colonyPos w).1 (colonyPos w).2))
              = ((colonyPos w).1, (colonyPos w).2)) as ->; [|done].
      unfold pixelToGrid, gridToPixel. cbn [P5.vx P5.vy].
      f_equal; apply Qfloor_div_spec; try done; split; nra.
  - split; [done|]. eapply Forall_impl; [exact Hw1|]. intros a.
    by apply standsOnOpen_maze.
Qed.

(** X8.  The counter of food brought home never falls, and a frame
    raises it by at most the number of agents there were when the frame
    began. *)
Theorem food_counter_grows_slowly (cfg : Config) (trig : P5.Trig) (rng : P5.Rng)
    (fuel : nat) (now : Q) (w w' : Sim) :
  draw cfg trig rng fuel now w = Some w' ->
  foodFoundCount w <= foodFoundCount w'
    <= foodFoundCount w + Z.of_nat (length (ants w)).
Proof.
  intros H. unfold draw in H.
  destruct (updateAndDrawAnts _ _ _ _ _) as [w1|] eqn:Hu; [|done].
  cbn [mbind option_bind] in H. injection H as <-.
  destruct (updatePheromones_frame cfg (set_canvas [] w)) as (e & r & Hp).
  rewrite Hp in Hu.
  apply updateAndDrawAnts_frame in Hu as (_ & _ & _ & _ & Hn).
  cbn [foodFoundCount ants set_pheromones set_canvas] in Hn.
  unfold spawnNewAnts. destruct (_ && _); [|done]. done.
Qed.

(** More fuel does not change what the steering loops answer. *)
Lemma wrap_down_mono fuel : forall fuel' angleDiff d,
  wrap_down fuel angleDiff = Some d -> (fuel <= fuel')%nat ->
  wrap_down fuel' angleDiff = Some d.
Proof.
  induction fuel as [|fuel IH]; intros fuel' angleDiff d H Hle; simpl in H;
    destruct (Qlt_le_dec P5.PI angleDiff) as [Hlt|Hge]; try done.
  - injection H as <-. destruct fuel'; simpl; destruct (Qlt_le_dec _ _); try done; lra.
  - destruct fuel' as [|fuel']; [lia|]. simpl.
    destruct (Qlt_le_dec _ _); [|lra]. apply IH; [done | lia].
  - injection H as <-. destruct fuel'; simpl; destruct (Qlt_le_dec _ _); try done; lra.
Qed.

Lemma wrap_up_mono fuel : forall fuel' angleDiff d,
  wrap_up fuel angleDiff = Some d -> (fuel <= fuel')%nat ->
  wrap_up fuel' angleDiff = Some d.
Proof.
  induction fuel as [|fuel IH]; intros fuel' angleDiff d H Hle; simpl in H;
    destruct (Qlt_le_dec angleDiff (- P5.PI)) as [Hlt|Hge]; try done.
  - injection H as <-. destruct fuel'; simpl; destruct (Qlt_le_dec _ _); try done; lra.
  - destruct fuel' as [|fuel']; [lia|]. simpl.
    destruct (Qlt_le_dec _ _); [|lra]. apply IH; [done | lia].
  - injection H as <-. destruct fuel'; simpl; destruct (Qlt_le_dec _ _); try done; lra.
Qed.

Lemma steer_mono cfg fuel fuel' currentAngle desiredAngle r :
  steer cfg fuel currentAngle desiredAngle = Some r -> (fuel <= fuel')%nat ->
  steer cfg fuel' currentAngle desiredAngle = Some r.
Proof.
  unfold steer. intros H Hle.
  destruct (wrap_down fuel _) as [d1|] eqn:E1; [|done]. cbn [mbind option_bind] in H.
  destruct (wrap_up fuel d1) as [d2|] eqn:E2; [|done]. cbn [mbind option_bind] in H.
  rewrite (wrap_down_mono _ _ _ _ E1 Hle). cbn [mbind option_bind].
  rewrite (wrap_up_mono _ _ _ _ E2 Hle). done.
Qed.

(** A step of an agent ends, and on the same result whatever the fuel
    beyond what it needs. *)
Lemma update_settles cfg trig rng a w :
  (0 < SENSE_ANGLE cfg)%Q ->
  exists enough r, forall fuel, (enough <= fuel)%nat ->
    update cfg trig rng fuel a w = Some r.
Proof.
  intros Hs. unfold update.
  destruct (checkEnvironment cfg trig rng (updateGridPos cfg a) w) as [a1 w1].
  set (a2 := set_charge (Z.max 0 (charge a1 - 1)) a1).
  destruct (senseAndDecideAngle_ends cfg trig rng Hs a2 w1) as [[desiredAngle w2] Hsense].
  destruct (steer_spec cfg (P5.heading trig (vel a2)) desiredAngle) as [e Hst].
  destruct (Hst e ltac:(lia)) as (d & k & Hd & _).
  assert (forall fuel, (6 + e <= fuel)%nat ->
            steer cfg fuel (P5.heading trig (vel a2)) desiredAngle
            = Some (P5.heading trig (vel a2)
                    + P5.constrain d (- TURN_ANGLE cfg) (TURN_ANGLE cfg))%Q) as Hfix.
  { intros fuel Hf. apply (steer_mono cfg e); [done | lia]. }
  assert (forall fuel, (6 + e <= fuel)%nat ->
            move cfg trig rng fuel a2 w1 = move cfg trig rng (6 + e) a2 w1) as Hsame.
  { intros fuel Hf. unfold move.
    rewrite (Hsense fuel ltac:(lia)), (Hsense (6 + e)%nat ltac:(lia)).
    cbn [mbind option_bind].
    rewrite (Hfix fuel Hf), (Hfix (6 + e)%nat ltac:(lia)). done. }
  destruct (move_ends cfg trig rng Hs a2 w1) as [e' Hends].
  destruct (Hends (Nat.max e' (6 + e)) ltac:(lia)) as [[a3 w3] Hr].
  rewrite Hsame in Hr by lia.
  assert (forall fuel, (6 + e <= fuel)%nat ->
            move cfg trig rng fuel a2 w1 = Some (a3, w3)) as Hm.
  { intros fuel Hf. by rewrite Hsame. }
  exists (6 + e)%nat. eexists. intros fuel Hf. rewrite (Hm fuel Hf).
  cbn [mbind option_bind]. reflexivity.
Qed.

(** The traversal of the agents ends. *)
Lemma updateAndDrawAnts_settles cfg trig rng :
  (0 < SENSE_ANGLE cfg)%Q ->
  forall n w, (n <= length (ants w))%nat ->
    exists enough w', forall fuel, (enough <= fuel)%nat ->
      for_down n (updateAndDrawAnt cfg trig rng fuel) w = Some w'.
Proof.
  intros Hs. induction n as [|n IH]; intros w Hn.
  - exists 0%nat, w. done.
  - destruct (lookup_lt_is_Some_2 (ants w) n ltac:(lia)) as [a Ha].
    destruct (update_settles cfg trig rng a w Hs) as (e1 & [a1 w1] & Hu).
    pose proof (update_keeps _ _ _ _ _ _ _ _ (Hu e1 ltac:(lia))) as [Hants _].
    destruct (IH (display trig a1 (set_ants (<[n := a1]> (ants w1)) w1)))
      as (e2 & w' & Hrest).
    { unfold display. cbn [ants set_ants set_canvas].
      rewrite length_insert, Hants. lia. }
    exists (Nat.max e1 e2), w'. intros fuel Hf. simpl.
    unfold updateAndDrawAnt at 1. rewrite Nat2Z.id, Ha. cbn [mbind option_bind].
    rewrite (Hu fuel ltac:(lia)). cbn [mbind option_bind].
    apply Hrest. lia.
Qed.

(** A frame ends. *)
Lemma draw_settles cfg trig rng now w :
  (0 < SENSE_ANGLE cfg)%Q ->
  exists enough w', forall fuel, (enough <= fuel)%nat ->
    draw cfg trig rng fuel now w = Some w'.
Proof.
  intros Hs. unfold draw, updateAndDrawAnts.
  destruct (updateAndDrawAnts_settles cfg trig rng Hs
              (length (ants (updatePheromones cfg (set_canvas [] w))))
              (updatePheromones cfg (set_canvas [] w)) ltac:(lia))
    as (enough & w1 & Hu).
  exists enough. eexists. intros fuel Hf. rewrite (Hu fuel Hf).
  cbn [mbind option_bind]. reflexivity.
Qed.

(** X9.  A frame ends (for a positive [SENSE_ANGLE], given fuel for the
    loops of its steps) and admits at most one agent, only at the end of
    the list.  It admits one exactly when the agents are fewer than
    [NUM_ANTS] and more than [SPAWN_INTERVAL] has passed since
    [lastAntSpawnTime]; the new agent is at the centre of the colony's
    cell, searching, with the full charge and an empty history, and
    [lastAntSpawnTime] becomes the time of the frame.  Otherwise the number
    of agents and [lastAntSpawnTime] stay.  A population of at most
    [NUM_ANTS] hence never grows beyond [NUM_ANTS]. *)
Theorem frame_admits_one_agent (cfg : Config) (trig : P5.Trig) (rng : P5.Rng)
    (now : Q) (w : Sim) :
  (0 < SENSE_ANGLE cfg)%Q ->
  let n := length (ants w) in
  let due := Z.of_nat n < NUM_ANTS cfg
             /\ (SPAWN_INTERVAL cfg < now - lastAntSpawnTime w)%Q in
  exists (enough : nat) (w' : Sim),
    (forall fuel, (enough <= fuel)%nat -> draw cfg trig rng fuel now w = Some w')
    /\ (due ->
       length (ants w') = S n /\ lastAntSpawnTime w' = now /\
       exists a, ants w' !! n = Some a /\
         pos a = gridToPixel cfg (colonyPos w).1 (colonyPos w).2 /\
         gridPos a = colonyPos w /\ state a = searching /\
         charge a = PHEROMONE_DURATION cfg /\ history a = [])
    /\ (~ due ->
       length (ants w') = n /\ lastAntSpawnTime w' = lastAntSpawnTime w)
    /\ (Z.of_nat n <= NUM_ANTS cfg -> Z.of_nat (length (ants w')) <= NUM_ANTS cfg).
Proof.
  intros Hs n due.
  destruct (draw_settles cfg trig rng now w Hs) as (enough & w' & Hd).
  exists enough, w'. split; [exact Hd|].
  pose proof (Hd enough ltac:(lia)) as H. unfold draw in H.
  destruct (updateAndDrawAnts _ _ _ _ _) as [w1|] eqn:Hu; [|done].
  cbn [mbind option_bind] in H. injection H as <-.
  destruct (updatePheromones_frame cfg (set_canvas [] w)) as (e & r & Hp).
  rewrite Hp in Hu.
  pose proof (updateAndDrawAnts_canvas _ _ _ _ _ _ Hu) as [Hlen _].
  apply updateAndDrawAnts_frame in Hu as (_ & Hcol & _ & Hl & _).
  cbn [ants colonyPos lastAntSpawnTime set_pheromones set_canvas] in Hlen, Hcol, Hl.
  fold n in Hlen. unfold spawnNewAnts. rewrite Hlen, Hl, Hcol.
  destruct (Z.ltb_spec (Z.of_nat n) (NUM_ANTS cfg)) as [Hn|Hn];
    [destruct (Qlt_le_dec (SPAWN_INTERVAL cfg) (now - lastAntSpawnTime w)) as [Ht|Ht]|];
    cbn [andb]; unfold newAnt;
    cbn [ants lastAntSpawnTime set_lastAntSpawnTime set_ants set_draws].
  - split_and!.
    + intros _. rewrite length_app, Hlen. simpl. split; [lia|]. split; [done|].
      eexists. split; [rewrite lookup_app_r by lia; rewrite Hlen, Nat.sub_diag; done|].
      cbn. by destruct (colonyPos w).
    + intros Hd'. exfalso. apply Hd'. by split.
    + intros _. rewrite length_app, Hlen. simpl. lia.
  - split_and!.
    + intros [_ Hd']. exfalso. lra.
    + done.
    + lia.
  - split_and!.
    + intros [Hd' _]. lia.
    + done.
    + lia.
Qed.

(** ** The shape of the generated maze *)

Lemma randomChoice_Some {A : Type} (u : Q) (choices : list A) x :
  P5.randomChoice u choices = Some x -> In x choices.
Proof.
  unfold P5.randomChoice. destruct (0 <=? _); [|done].
  intros H. apply list_elem_of_In. by eapply list_elem_of_lookup_2.
Qed.

Lemma isPath_set_inv maze x y p :
  isPath (grid_set maze x y 0) p -> p = (x, y) \/ isPath maze p.
Proof.
  destruct p as [px py]. unfold isPath. simpl. rewrite grid_lookup_set.
  case_decide as H; [|by right]. destruct H as [[= <- <-] _]. by left.
Qed.

Lemma carveStep_parity rng cols rows c c' :
  carveParity c -> carveStep rng cols rows c = Some c' -> carveParity c'.
Proof.
  intros [Hst Hp] H. unfold carveStep in H.
  destruct (cv_stack c) as [|current rest] eqn:Hs.
  { injection H as <-. split; [|done]. rewrite Hs. by intros ? []. }
  cbv zeta in H. destruct (0 <? length _)%nat.
  - destruct (P5.randomChoice _ _) as [chosen|] eqn:Hch; [|done].
    cbn [mbind option_bind] in H. injection H as <-.
    apply randomChoice_Some in Hch. unfold unvisitedNeighbors in Hch.
    apply filter_In in Hch as [Hin _].
    destruct (Hst current (or_introl eq_refl)) as [[k1 E1] [k2 E2]].
    destruct current as [cx cy]. simpl in E1, E2. subst cx cy.
    assert (Z.Odd chosen.1 /\ Z.Odd chosen.2) as Hchosen.
    { destruct Hin as [<-|[<-|[<-|[<-|[]]]]]; simpl; split;
        first [by exists k1 | by exists k2 | exists (k1 + 1); lia | exists (k1 - 1); lia
              | exists (k2 + 1); lia | exists (k2 - 1); lia]. }
    split; cbn [cv_stack cv_maze].
    + intros p [<-|[<-|Hin']]; [done | split; [by exists k1 | by exists k2] |].
      apply Hst. by right.
    + intros p Hp'. apply isPath_set_inv in Hp' as [->|Hp']; [left; apply Hchosen|].
      apply isPath_set_inv in Hp' as [->|Hp']; [|by apply Hp].
      cbn [fst snd].
      destruct Hin as [<-|[<-|[<-|[<-|[]]]]]; cbn [fst snd].
      * left. replace (2 * k1 + 1 - (2 * k1 + 1)) with 0 by lia.
        change (0 / 2) with 0. exists k1. lia.
      * right. replace (2 * k2 + 1 - (2 * k2 + 1)) with 0 by lia.
        change (0 / 2) with 0. exists k2. lia.
      * left. replace (2 * k1 + 1 - (2 * k1 + 1)) with 0 by lia.
        change (0 / 2) with 0. exists k1. lia.
      * right. replace (2 * k2 + 1 - (2 * k2 + 1)) with 0 by lia.
        change (0 / 2) with 0. exists k2. lia.
  - injection H as <-. split; [|done]. cbn [cv_stack]. intros p Hin.
    apply Hst. by right.
Qed.

Lemma carve_parity rng cols rows :
  forall fuel c c',
    carveParity c -> carve fuel rng cols rows c = Some c' -> carveParity c'.
Proof.
  induction fuel as [|fuel IH]; intros c c' Hc H; simpl in H.
  - destruct (cv_stack c); [|done]. by injection H as <-.
  - destruct (cv_stack c) eqn:Hs; [by injection H as <-|].
    destruct (carveStep rng cols rows c) as [c1|] eqn:Hstep; [|done].
    simpl in H. eapply IH; [|exact H]. by eapply carveStep_parity.
Qed.

(** The carving loop of [generateMaze] and what it leaves, before the two
    cells are forced open. *)
Lemma generateMaze_carved rng cols rows fuel :
  P5.rng_unit rng -> (mazeFuel cols rows <= fuel)%nat ->
  exists m1 m2 c final,
    1 <= m1 /\ 1 <= m2 /\
    mazeDimension cols = 2 * m1 + 1 /\ mazeDimension rows = 2 * m2 + 1 /\
    generateMaze fuel rng cols rows = Some (mkMazeResult final (2 * m1 + 1) (2 * m2 + 1)) /\
    generateMazeDraws fuel rng cols rows = Some (cv_draws c) /\
    (forall x y, grid_lookup final x y = grid_lookup (cv_maze c) x y) /\
    carveParity c /\
    (forall j1 j2, 0 <= j1 < m1 -> 0 <= j2 < m2 ->
       isPath (cv_maze c) (2 * j1 + 1, 2 * j2 + 1)) /\
    grid_dims (2 * m1 + 1) (2 * m2 + 1) (cv_maze c) /\
    (forall x y v, grid_lookup (cv_maze c) x y = Some v -> v = Path \/ v = Wall) /\
    grid_dims (2 * m1 + 1) (2 * m2 + 1) final.
Proof.
  intros Hrng Hfuel. unfold generateMaze, generateMazeDraws, mazeFuel in *.
  destruct (mazeDimension_odd cols) as (m1 & Hm1 & E1).
  destruct (mazeDimension_odd rows) as (m2 & Hm2 & E2).
  rewrite E1, E2 in *.
  destruct (mazeStart_odd rng m1 m2 Hm1 Hm2) as (k1 & k2 & Est & Hk1 & Hk2).
  rewrite Est.
  pose proof (carve_init m1 m2 k1 k2 Hk1 Hk2) as Hinit.
  cbn [fst snd] in Hinit |- *. cbv zeta in Hinit |- *.
  match type of Hinit with CarveInv _ _ _ ?c0 =>
    destruct (carve_ends rng _ _ _ Hrng fuel c0 Hinit) as (c & Hcarve & Hinv & Hs);
    [|assert (carveParity c0) as Hpar0]
  end.
  { cbn [cv_visited cv_stack length].
    pose proof (unvisitedCount_le (2 * m1 + 1) (2 * m2 + 1) _ ltac:(lia) ltac:(lia)
                  (inv_visited_dims _ _ _ _ Hinit)) as Hle.
    cbn [cv_visited] in Hle. lia. }
  { split; cbn [cv_stack cv_maze].
    - intros p [<-|[]]. split; [by exists k1 | by exists k2].
    - intros p Hp. apply isPath_set_inv in Hp as [->|Hp].
      + left. by exists k1.
      + exfalso. unfold isPath in Hp. apply createGrid_lookup in Hp.
        unfold Path in Hp. lia. }
  pose proof (carve_parity _ _ _ _ _ _ Hpar0 Hcarve) as Hpar.
  rewrite Hcarve. cbn [mbind option_bind fmap option_fmap option_map].
  replace ((2 * m1 + 1 >? 2) && (2 * m2 + 1 >? 2)) with true
    by (symmetry; apply andb_true_iff; split; apply Z.gtb_lt; lia).
  pose proof (carve_visits_all m1 m2 k1 k2 c Hinv Hs Hk1 Hk2) as Hall.
  assert (forall j1 j2, 0 <= j1 < m1 -> 0 <= j2 < m2 ->
            isPath (cv_maze c) (2 * j1 + 1, 2 * j2 + 1)) as Hrooms.
  { intros j1 j2 H1 H2. apply (inv_visited _ _ _ _ Hinv). by apply Hall. }
  exists m1, m2, c. eexists. split_and!; try done.
  - intros x y.
    assert (isPath (cv_maze c) (1, 1)) as H11 by (apply (Hrooms 0 0); lia).
    assert (isPath (cv_maze c) (2 * m1 + 1 - 2, 2 * m2 + 1 - 2)) as Hnn.
    { replace (2 * m1 + 1 - 2) with (2 * (m1 - 1) + 1) by lia.
      replace (2 * m2 + 1 - 2) with (2 * (m2 - 1) + 1) by lia.
      apply Hrooms; lia. }
    rewrite grid_set_same; by rewrite ?grid_set_same.
  - apply (inv_maze_dims _ _ _ _ Hinv).
  - apply (inv_cells _ _ _ _ Hinv).
  - do 2 apply grid_set_dims. apply (inv_maze_dims _ _ _ _ Hinv).
Qed.

(** X10.  The dimensions of the generated maze.  Each of [finalCols] and
    [finalRows] is odd and at least 3; it is the requested number if
    that is odd and at least 3, one less if it is even and at least 4,
    and 3 for any smaller request; the grid returned has exactly these
    dimensions and holds nothing but [Path] and [Wall]. *)
Theorem generateMaze_dimensions (rng : P5.Rng) (cols rows : Z) (fuel : nat) :
  P5.rng_unit rng -> (mazeFuel cols rows <= fuel)%nat ->
  exists r,
    generateMaze fuel rng cols rows = Some r /\
    (Z.Odd (finalCols r) /\ 3 <= finalCols r /\
     (3 <= cols -> cols - 1 <= finalCols r <= cols) /\
     (cols < 3 -> finalCols r = 3)) /\
    (Z.Odd (finalRows r) /\ 3 <= finalRows r /\
     (3 <= rows -> rows - 1 <= finalRows r <= rows) /\
     (rows < 3 -> finalRows r = 3)) /\
    grid_dims (finalCols r) (finalRows r) (mr_grid r) /\
    (forall x y, 0 <= x < finalCols r -> 0 <= y < finalRows r ->
       grid_lookup (mr_grid r) x y = Some Path \/
       grid_lookup (mr_grid r) x y = Some Wall).
Proof.
  intros Hrng Hfuel.
  destruct (generateMaze_spec rng cols rows fuel Hrng Hfuel)
    as (r & Hr & Hc & Hrw & Hd & Hcells & _).
  exists r. split; [done|].
  assert (forall n, Z.Odd (mazeDimension n) /\ 3 <= mazeDimension n /\
                    (3 <= n -> n - 1 <= mazeDimension n <= n) /\
                    (n < 3 -> mazeDimension n = 3)) as Hdim.
  { intros n. destruct (mazeDimension_odd n) as (m & Hm & E).
    split; [rewrite E; by exists m|]. split; [lia|].
    unfold mazeDimension in *.
    destruct (Z.rem n 2 =? 0); destruct (Z.ltb_spec (n - 1) 3);
      destruct (Z.ltb_spec n 3); lia. }
  rewrite Hc, Hrw in *. split; [apply Hdim|]. split; [apply Hdim|].
  split; [done|]. intros x y Hx Hy.
  destruct (proj2 (grid_lookup_dims _ _ _ x y Hd) (conj Hx Hy)) as [v Hv].
  rewrite Hv. destruct (Hcells x y v Hv) as [-> | ->]; [by left | by right].
Qed.

(** X11.  Rooms and pillars.  In the generated maze every cell strictly
    inside the border whose coordinates are both odd is [Path] (the
    carving reaches every room), and every cell whose coordinates are
    both even is [Wall] (no pillar is ever opened). *)
Theorem generateMaze_rooms_and_pillars (rng : P5.Rng) (cols rows : Z) (fuel : nat) :
  P5.rng_unit rng -> (mazeFuel cols rows <= fuel)%nat ->
  exists r,
    generateMaze fuel rng cols rows = Some r /\
    (forall p, interior (finalCols r) (finalRows r) p ->
       Z.Odd p.1 -> Z.Odd p.2 -> isPath (mr_grid r) p) /\
    (forall p, 0 <= p.1 < finalCols r -> 0 <= p.2 < finalRows r ->
       Z.Even p.1 -> Z.Even p.2 -> isWall (mr_grid r) p).
Proof.
  intros Hrng Hfuel.
  destruct (generateMaze_carved rng cols rows fuel Hrng Hfuel)
    as (m1 & m2 & c & final & Hm1 & Hm2 & _ & _ & Hr & _ & Hsame & [_ Hpar] & Hrooms
        & Hd & Hcells & _).
  eexists. split; [exact Hr|]. cbn [finalCols finalRows mr_grid]. split.
  - intros [px py] [Hx Hy] [j1 E1] [j2 E2]. simpl in *. subst px py.
    unfold isPath. simpl. rewrite Hsame. apply (Hrooms j1 j2); lia.
  - intros [px py] Hx Hy [j1 E1] [j2 E2]. simpl in *. unfold isWall. simpl.
    rewrite Hsame.
    destruct (proj2 (grid_lookup_dims _ _ _ px py Hd) (conj Hx Hy)) as [v Hv].
    rewrite Hv. destruct (Hcells px py v Hv) as [-> | ->]; [|done].
    exfalso. destruct (Hpar (px, py) Hv) as [[k Hk]|[k Hk]]; simpl in Hk; lia.
Qed.

(** ** Placing twice, and placing on a maze that is too small *)

(** X12.  Placing is idempotent: on a maze of the configured size, a cell
    that [findValidPosition] answers is answered again when it is itself
    the target. *)
Theorem findValidPosition_idempotent (cfg : Config) (maze : grid Z)
    (targetX targetY : Z) (c : Z * Z) :
  grid_dims (GRID_COLS cfg) (GRID_ROWS cfg) maze ->
  0 < GRID_COLS cfg -> 0 < GRID_ROWS cfg ->
  findValidPosition cfg maze targetX targetY = Normal (Some c) ->
  findValidPosition cfg maze c.1 c.2 = Normal (Some c).
Proof.
  intros Hd Hc Hr H.
  rewrite (findValidPosition_placeNear cfg maze targetX targetY Hd Hc Hr) in H.
  injection H as H.
  pose proof (constrainZ_range targetX (GRID_COLS cfg - 1) ltac:(lia)) as Hx.
  pose proof (constrainZ_range targetY (GRID_ROWS cfg - 1) ltac:(lia)) as Hy.
  pose proof (placeNear_spec cfg maze
                (P5.constrainZ targetX 0 (GRID_COLS cfg - 1),
                 P5.constrainZ targetY 0 (GRID_ROWS cfg - 1)) Hd
                ltac:(simpl; lia) ltac:(simpl; lia)) as Hs.
  rewrite H in Hs. destruct Hs as [Ho _].
  apply isOpen_spec in Ho as [[Hx' Hy'] Hp].
  rewrite (findValidPosition_placeNear cfg maze c.1 c.2 Hd Hc Hr).
  rewrite !constrainZ_id by lia. unfold placeNear. cbn [fst snd].
  rewrite bool_decide_eq_true_2 by done. by destruct c.
Qed.

(** X13.  A maze with too few columns makes [findValidPosition] fault:
    when the column of the clamped target is not there, the read of the
    target's cell throws; on the empty maze this happens for every target
    and every configuration. *)
Theorem findValidPosition_faults_on_short_maze (cfg : Config) (maze : grid Z)
    (targetX targetY : Z) :
  Z.of_nat (length maze) <= P5.constrainZ targetX 0 (GRID_COLS cfg - 1) ->
  findValidPosition cfg maze targetX targetY = Throw
  /\ findValidPosition cfg [] targetX targetY = Throw.
Proof.
  intros Hlen.
  assert (forall g : grid Z,
            Z.of_nat (length g) <= P5.constrainZ targetX 0 (GRID_COLS cfg - 1) ->
            findValidPosition cfg g targetX targetY = Throw) as Hg.
  { intros g Hl. unfold findValidPosition, readCell. cbv zeta.
    destruct (0 <=? _); [|done].
    rewrite lookup_ge_None_2 by lia. done. }
  split; [by apply Hg|]. apply Hg. unfold P5.constrainZ. simpl. lia.
Qed.

(** ** Setup *)

Lemma lt_Qceiling (i : Z) (q : Q) : (inject_Z i < q)%Q <-> i < Qceiling q.
Proof.
  pose proof (Qle_ceiling q) as H1. pose proof (Qceiling_lt q) as H2. split.
  - intros H. rewrite Zlt_Qlt. lra.
  - intros H. assert (i <= Qceiling q - 1) as Hle by lia.
    rewrite Zle_Qle in Hle. lra.
Qed.

(** The loop of [spawnInitialAnts] ends, having added the agents it was
    to add and changed nothing else but the count of draws. *)
Lemma spawnLoop_spec trig rng cfg :
  forall fuel i w,
    (Z.to_nat (Qceiling (inject_Z (NUM_ANTS cfg) / 10) - i) <= fuel)%nat ->
    exists new,
      spawnLoop trig rng cfg fuel i w
      = Some (set_draws (draws w + length new) (set_ants (ants w ++ new) w)) /\
      length new = Z.to_nat (Qceiling (inject_Z (NUM_ANTS cfg) / 10) - i) /\
      Forall (freshAt cfg (colonyPos w)) new.
Proof.
  induction fuel as [|fuel IH]; intros i w Hf; simpl;
    destruct (Qlt_le_dec _ _) as [Hlt|Hge].
  - apply lt_Qceiling in Hlt. lia.
  - exists []. rewrite app_nil_r, Nat.add_0_r.
    split; [by destruct w|]. split; [|done].
    assert (~ i < Qceiling (inject_Z (NUM_ANTS cfg) / 10)) as Hn
      by (rewrite <- lt_Qceiling; lra).
    simpl. lia.
  - apply lt_Qceiling in Hlt.
    match goal with |- context [spawnLoop _ _ _ _ _ (set_ants (_ ++ [?a0]) ?w0)] =>
      pose (a := a0);
      destruct (IH (i + 1) (set_ants (ants w ++ [a]) w0) ltac:(lia))
        as (new & Hsp & Hlen & Hall);
      exists (a :: new)
    end.
    cbn [ants colonyPos draws set_ants set_draws] in *.
    split; [|split].
    + etrans; [exact Hsp|]. rewrite <- app_assoc. cbn [app length].
      unfold set_draws, set_ants. simpl. do 2 f_equal. lia.
    + simpl. lia.
    + constructor; [|done]. unfold freshAt. cbn. by destruct (colonyPos w).
  - exists []. rewrite app_nil_r, Nat.add_0_r.
    split; [by destruct w|]. split; [|done].
    assert (~ i < Qceiling (inject_Z (NUM_ANTS cfg) / 10)) as Hn
      by (rewrite <- lt_Qceiling; lra).
    simpl. lia.
Qed.

(** How [setup] runs: the maze is generated, both cells are placed where
    they were asked for, and the agents are made. *)
Lemma setup_runs (trig : P5.Trig) (rng : P5.Rng) (fuel : nat)
    (windowWidth windowHeight now : Q) (cfg : Config) (w : Sim) :
  P5.rng_unit rng -> (setupFuel cfg <= fuel)%nat ->
  exists m1 m2 final cellSize k new,
    1 <= m1 /\ 1 <= m2 /\
    generateMaze fuel rng (GRID_COLS cfg) (GRID_ROWS cfg)
      = Some (mkMazeResult final (2 * m1 + 1) (2 * m2 + 1)) /\
    isPath final (1, 1) /\ isPath final (2 * m1 + 1 - 2, 2 * m2 + 1 - 2) /\
    length new = spawnCount cfg /\
    Forall (freshAt (set_geometry (2 * m1 + 1) (2 * m2 + 1) cellSize cfg) (1, 1)) new /\
    setup trig rng fuel windowWidth windowHeight now cfg w
      = Some (SetupReady
                (set_geometry (2 * m1 + 1) (2 * m2 + 1) cellSize cfg)
                (mkSim final
                       (createGrid (2 * m1 + 1) (2 * m2 + 1) 0%Q)
                       (createGrid (2 * m1 + 1) (2 * m2 + 1) 0%Q)
                       new (1, 1) (2 * m1 + 1 - 2, 2 * m2 + 1 - 2)
                       (foodFoundCount w) now k (canvas w))).
Proof.
  intros Hrng Hfuel. unfold setupFuel in Hfuel.
  destruct (generateMaze_carved rng (GRID_COLS cfg) (GRID_ROWS cfg) fuel Hrng ltac:(lia))
    as (m1 & m2 & c & final & Hm1 & Hm2 & E1 & E2 & Hr & Hk & Hsame & _ & Hrooms
        & _ & _ & Hd).
  unfold setup. rewrite Hr, Hk. cbn [mbind option_bind finalCols finalRows mr_grid].
  cbv zeta.
  match goal with |- context [set_geometry ?a ?b ?s cfg] =>
    set (cfg' := set_geometry a b s cfg) end.
  assert (GRID_COLS cfg' = 2 * m1 + 1) as Ec by done.
  assert (GRID_ROWS cfg' = 2 * m2 + 1) as Er by done.
  assert (grid_dims (GRID_COLS cfg') (GRID_ROWS cfg') final) as Hd'
    by (by rewrite Ec, Er).
  assert (isPath final (1, 1)) as H11.
  { unfold isPath. cbn [fst snd]. rewrite Hsame. apply (Hrooms 0 0); lia. }
  assert (isPath final (2 * m1 + 1 - 2, 2 * m2 + 1 - 2)) as Hnn.
  { unfold isPath. cbn [fst snd]. rewrite Hsame.
    replace (2 * m1 + 1 - 2) with (2 * (m1 - 1) + 1) by lia.
    replace (2 * m2 + 1 - 2) with (2 * (m2 - 1) + 1) by lia.
    apply Hrooms; lia. }
  cbn [maze].
  rewrite !(findValidPosition_placeNear cfg' final _ _ Hd' ltac:(lia) ltac:(lia)).
  rewrite Ec, Er. rewrite !constrainZ_id by lia.
  unfold placeNear. cbn [fst snd].
  rewrite !bool_decide_eq_true_2 by done.
  unfold spawnInitialAnts.
  match goal with |- context [spawnLoop _ _ _ _ _ ?w0] =>
    destruct (spawnLoop_spec trig rng cfg' fuel 0 w0) as (new & -> & Hlen & Hall)
  end.
  { change (NUM_ANTS cfg') with (NUM_ANTS cfg). unfold spawnCount in Hfuel. lia. }
  cbn [mbind option_bind fmap option_fmap option_map].
  change (NUM_ANTS cfg') with (NUM_ANTS cfg) in Hlen. rewrite Z.sub_0_r in Hlen.
  exists m1, m2, final, (CELL_SIZE cfg'), (cv_draws c + length new)%nat, new.
  split_and!; try done.
Qed.

(** X14.  [setup] always ends with the simulation ready; the error branch
    for a colony or food that could not be placed is never taken.  For
    any window, any draws from the unit interval and any requested grid
    size: the maze is the one [generateMaze] returns and the configured
    grid size becomes that of the maze (of the configuration only the
    grid size and the cell size change); both pheromone fields are all 0
    and of that size; the colony is at (1,1) and the food at
    (GRID_COLS-2, GRID_ROWS-2), both on [Path] cells; and the loop of
    [spawnInitialAnts] leaves exactly ceil(NUM_ANTS/10) agents, each as
    the constructor makes it at the colony, standing (for a positive cell
    size) over a cell that is not a wall. *)
Theorem setup_is_ready (trig : P5.Trig) (rng : P5.Rng) (fuel : nat)
    (windowWidth windowHeight now : Q) (cfg : Config) (w : Sim) :
  P5.rng_unit rng -> (setupFuel cfg <= fuel)%nat ->
  exists cfg' w',
    setup trig rng fuel windowWidth windowHeight now cfg w = Some (SetupReady cfg' w') /\
    cfg' = set_geometry (GRID_COLS cfg') (GRID_ROWS cfg') (CELL_SIZE cfg') cfg /\
    generateMaze fuel rng (GRID_COLS cfg) (GRID_ROWS cfg)
      = Some (mkMazeResult (maze w') (GRID_COLS cfg') (GRID_ROWS cfg')) /\
    explorePheromones w' = createGrid (GRID_COLS cfg') (GRID_ROWS cfg') 0%Q /\
    returnPheromones w' = createGrid (GRID_COLS cfg') (GRID_ROWS cfg') 0%Q /\
    colonyPos w' = (1, 1) /\
    foodPos w' = (GRID_COLS cfg' - 2, GRID_ROWS cfg' - 2) /\
    isPath (maze w') (colonyPos w') /\ isPath (maze w') (foodPos w') /\
    length (ants w') = spawnCount cfg /\
    Forall (freshAt cfg' (1, 1)) (ants w') /\
    lastAntSpawnTime w' = now /\ foodFoundCount w' = foodFoundCount w /\
    ((0 < CELL_SIZE cfg')%Q -> Forall (standsOnOpen cfg' w') (ants w')).
Proof.
  intros Hrng Hfuel.
  destruct (setup_runs trig rng fuel windowWidth windowHeight now cfg w Hrng Hfuel)
    as (m1 & m2 & final & cellSize & k & new & Hm1 & Hm2 & Hg & H11 & Hnn & Hlen & Hall
        & ->).
  do 2 eexists. split; [reflexivity|].
  cbn [maze explorePheromones returnPheromones colonyPos foodPos ants lastAntSpawnTime
       foodFoundCount GRID_COLS GRID_ROWS CELL_SIZE set_geometry].
  split_and!; try done.
  intros Hcell. eapply Forall_impl; [exact Hall|]. intros a Ha.
  apply (fresh_stands_open _ _ (1, 1)); [done | done | |].
  - apply isValidGridPos_spec. cbn [fst snd GRID_COLS GRID_ROWS set_geometry]. lia.
  - cbn [maze fst snd]. unfold isPath in H11. cbn [fst snd] in H11. by rewrite H11.
Qed.

(** ** What the sensing steers towards *)

Lemma score_eligible cfg rng a w tp angle cell m b k :
  score cfg rng a w tp angle cell (m, b, k) =
  if eligible cfg a w cell
  then
    let weightedLevel :=
      (default 0%Q (grid_lookup tp cell.1 cell.2) * FOLLOW_STRENGTH_WEIGHT cfg
       + P5.random2 (rng k) 0 (PHEROMONE_MAX cfg * 0.1))%Q in
    if Qlt_le_dec m weightedLevel then (weightedLevel, angle, S k) else (m, b, S k)
  else (m, b, k).
Proof. unfold score, eligible. destruct cell as [x y]. cbn [fst snd]. done. Qed.

Lemma decide_fold cfg rng a w tp cur (L : list Probe) :
  let I := fun acc : Q * Q * nat =>
    (draws w <= acc.2)%nat /\
    ((acc.1.1 = (-1)%Q /\ acc.1.2 = cur) \/
     exists p, In p L /\ eligible cfg a w (probe_cell p) = true /\
               acc.1.2 = (cur + probe_offset p)%Q) in
  forall probes acc,
    (forall p, In p probes -> In p L) -> I acc ->
    I (fold_left (fun acc p =>
                    score cfg rng a w tp (cur + probe_offset p)%Q (probe_cell p) acc)
                 probes acc).
Proof.
  intros I. induction probes as [|p probes IH]; intros acc Hin Hacc; [done|].
  simpl. apply IH; [intros q Hq; apply Hin; by right|].
  destruct acc as [[m b] k]. rewrite score_eligible.
  destruct Hacc as [Hk Hb]. cbn [fst snd] in Hk, Hb.
  destruct (eligible cfg a w (probe_cell p)) eqn:He; [|by split].
  cbv zeta. destruct (Qlt_le_dec _ _).
  - split; [cbn; lia|]. right. exists p. split; [apply Hin; by left|]. done.
  - split; [cbn; lia|]. done.
Qed.

Lemma decide_fold_none cfg rng a w tp cur :
  forall probes acc,
    Forall (fun p => eligible cfg a w (probe_cell p) = false) probes ->
    fold_left (fun acc p =>
                 score cfg rng a w tp (cur + probe_offset p)%Q (probe_cell p) acc)
              probes acc = acc.
Proof.
  induction probes as [|p probes IH]; intros acc Hall; [done|].
  apply Forall_cons in Hall as [Hp Hall]. simpl.
  destruct acc as [[m b] k]. rewrite score_eligible, Hp. by apply IH.
Qed.

(** X15.  Far from its goal, an agent steers only towards cells it may
    enter: the heading [senseAndDecideAngle] answers is either the
    direction of one of the probes whose cell is inside the grid, a
    [Path] cell and not among the cells visited before the newest, or it
    is the current heading with a random turn of at most half
    [TURN_ANGLE] to either side drawn; and when no probe finds such a
    cell it is the latter, from the next draw. *)
Theorem sensing_steers_to_open_cells (cfg : Config) (trig : P5.Trig) (rng : P5.Rng)
    (a : Ant) (w w' : Sim) (fuel : nat) (angle : Q) :
  (0 < SENSE_ANGLE cfg)%Q -> farFromGoal cfg a w -> (6 <= fuel)%nat ->
  senseAndDecideAngle cfg trig rng fuel a w = Some (angle, w') ->
  let currentAngle := P5.heading trig (vel a) in
  let randomTurn k :=
    (currentAngle
     + P5.random2 (rng k) (- TURN_ANGLE cfg * 0.5) (TURN_ANGLE cfg * 0.5))%Q in
  ((exists p, In p (coneProbes cfg trig a) /\
              eligible cfg a w (probe_cell p) = true /\
              angle = (currentAngle + probe_offset p)%Q)
   \/ (exists k, (draws w <= k)%nat /\ angle = randomTurn k /\ w' = set_draws (S k) w))
  /\ (Forall (fun p => eligible cfg a w (probe_cell p) = false) (coneProbes cfg trig a) ->
      angle = randomTurn (draws w) /\ w' = set_draws (S (draws w)) w).
Proof.
  intros Hs Hfar Hfuel H currentAngle randomTurn.
  replace fuel with (6 + (fuel - 6))%nat in H by lia.
  rewrite (senseAndDecideAngle_far cfg trig rng a w _ Hs Hfar) in H.
  injection H as H. unfold decideAngle in H. fold currentAngle in H.
  set (tp := match state a with
             | searching => returnPheromones w
             | returning => explorePheromones w
             end) in H.
  split.
  - pose proof (decide_fold cfg rng a w tp currentAngle (coneProbes cfg trig a)
                  (coneProbes cfg trig a) ((-1)%Q, currentAngle, draws w)
                  ltac:(done)) as Hf.
    cbv zeta in Hf. specialize (Hf ltac:(split; [cbn; lia | by left])).
    destruct (fold_left _ _ _) as [[m b] k]. cbn [fst snd] in Hf.
    destruct Hf as [Hk Hb].
    destruct (Qle_bool m 0) eqn:Hm; injection H as <- <-.
    + right. exists k. done.
    + destruct Hb as [[-> _]|Hp]; [done|]. by left.
  - intros Hall. rewrite decide_fold_none in H by done.
    change (Qle_bool (-1) 0) with true in H. cbv iota in H.
    by injection H as <- <-.
Qed.

(** ** One pass of evaporation, one deposit *)

(** X16.  One pass of [updatePheromones] takes every cell of the explore
    grid, and every cell of the return grid, to its own value times
    [1 - EVAPORATION_RATE], or to 0 when that product is below 0.01; a
    cell that is there stays there and none appears.  So after a pass,
    whatever the grids held and whatever the rate, no cell holds a
    negative value or one strictly between 0 and 0.01. *)
Theorem evaporation_clears_faint_traces (cfg : Config) (w : Sim) (x y : Z) :
  0 <= x < GRID_COLS cfg -> 0 <= y < GRID_ROWS cfg ->
  let pass (before after : option Q) :=
    match before with
    | None => after = None
    | Some v =>
        exists v', after = Some v' /\
          ((v' = 0%Q /\ (v * (1 - EVAPORATION_RATE cfg) < 0.01)%Q) \/
           ((v' == v * (1 - EVAPORATION_RATE cfg))%Q /\ (0.01 <= v')%Q))
    end in
  pass (grid_lookup (explorePheromones w) x y)
       (grid_lookup (explorePheromones (updatePheromones cfg w)) x y)
  /\ pass (grid_lookup (returnPheromones w) x y)
          (grid_lookup (returnPheromones (updatePheromones cfg w)) x y).
Proof.
  intros Hx Hy pass.
  destruct (updatePheromones_lookup cfg w x y Hx Hy) as [E1 E2].
  assert (forall before, pass before (evaporate (EVAPORATION_RATE cfg) <$> before))
    as Hpass.
  { intros [v|]; [|done]. simpl. eexists. split; [reflexivity|].
    destruct (evaporate_cases (EVAPORATION_RATE cfg) v) as [[E Hlt]|[E Hge]];
      rewrite E.
    - by left.
    - right. split; lra. }
  rewrite E1, E2. split; apply Hpass.
Qed.

Lemma deposit_raises cfg amount v :
  (0 <= amount)%Q -> (v <= PHEROMONE_MAX cfg)%Q -> (v <= deposit cfg amount v)%Q.
Proof. intros Ha Hv. unfold deposit. apply Q.min_glb; lra. Qed.

(** What a deposit does to the cell [(x, y)] of either grid. *)
Lemma depositPheromone_cells cfg a w x y :
  let kept (channel : AntState) (before after : option Q) :=
    match before with
    | None => after = None
    | Some v =>
        exists v', after = Some v' /\
          ((x, y) <> gridPos a \/ state a <> channel -> v' = v) /\
          ((v <= PHEROMONE_MAX cfg)%Q -> (v <= v')%Q)
    end in
  kept searching (grid_lookup (explorePheromones w) x y)
       (grid_lookup (explorePheromones (depositPheromone cfg a w)) x y)
  /\ kept returning (grid_lookup (returnPheromones w) x y)
          (grid_lookup (returnPheromones (depositPheromone cfg a w)) x y).
Proof.
  intros kept.
  assert (forall channel before, kept channel before before) as Hkeep.
  { intros channel [v|]; [|done]. simpl. exists v. split; [done|]. split; [done|].
    intros _. lra. }
  assert (forall channel (g : grid Q) c rate,
            state a = channel ->
            kept channel (grid_lookup g x y)
              (grid_lookup (grid_modify (deposit cfg (depositionRate cfg c rate))
                                        (gridPos a).1 (gridPos a).2 g) x y)) as Hmod.
  { intros channel g c rate Hs. rewrite grid_modify_lookup. case_decide as Hd.
    - destruct (grid_lookup g x y) as [v|]; [|done]. simpl. eexists.
      split; [reflexivity|]. split.
      + intros [Hne|Hne]; [|done]. exfalso. apply Hne. rewrite <- Hd.
        by destruct (gridPos a).
      + intros Hle. apply deposit_raises; [apply depositionRate_nonneg | done].
    - apply Hkeep. }
  unfold depositPheromone.
  destruct (gridPos a) as [gx gy] eqn:Hg. cbn [fst snd] in Hmod.
  destruct (charge a <=? 0); [split; apply Hkeep|].
  destruct (isValidGridPos cfg gx gy); [|split; apply Hkeep].
  destruct (state a) eqn:Hs; cbn [explorePheromones returnPheromones set_pheromones];
    split; first [by apply Hmod | apply Hkeep].
Qed.

(** X17.  A step of an agent changes at most one pheromone cell: the
    cell [gridPos] of the agent, in the explore grid if the agent leaves
    the step searching and in the return grid if it leaves it returning.
    Every other cell of both grids keeps its value, no cell appears or
    disappears, and no cell that is at most [PHEROMONE_MAX] is
    lowered. *)
Theorem step_marks_one_cell (cfg : Config) (trig : P5.Trig) (rng : P5.Rng)
    (fuel : nat) (a a' : Ant) (w w' : Sim) (x y : Z) :
  update cfg trig rng fuel a w = Some (a', w') ->
  let kept (channel : AntState) (before after : option Q) :=
    match before with
    | None => after = None
    | Some v =>
        exists v', after = Some v' /\
          ((x, y) <> gridPos a' \/ state a' <> channel -> v' = v) /\
          ((v <= PHEROMONE_MAX cfg)%Q -> (v <= v')%Q)
    end in
  kept searching (grid_lookup (explorePheromones w) x y)
       (grid_lookup (explorePheromones w') x y)
  /\ kept returning (grid_lookup (returnPheromones w) x y)
          (grid_lookup (returnPheromones w') x y).
Proof.
  intros Hu. pose proof (update_fields _ _ _ _ _ _ _ _ Hu) as Hf. cbv zeta in Hf.
  destruct Hf as (He & Hr & Hg & Hs & _ & Hg').
  rewrite He, Hr, Hs, Hg', <- Hg. apply depositPheromone_cells.
Qed.

(** ** The cell an agent records *)

(** X18.  On a grid with at least one column and one row, the cell
    [gridPos] an agent holds after a step lies inside the grid, whatever
    its position was, and so does every entry of its history if those it
    had before did. *)
Theorem recorded_cell_is_in_grid (cfg : Config) (trig : P5.Trig) (rng : P5.Rng)
    (fuel : nat) (a a' : Ant) (w w' : Sim) :
  0 < GRID_COLS cfg -> 0 < GRID_ROWS cfg ->
  update cfg trig rng fuel a w = Some (a', w') ->
  isValidGridPos cfg (gridPos a').1 (gridPos a').2 = true /\
  (Forall (fun c => isValidGridPos cfg c.1 c.2 = true) (history a) ->
   Forall (fun c => isValidGridPos cfg c.1 c.2 = true) (history a')).
Proof.
  intros Hc Hr Hu.
  pose proof (update_fields _ _ _ _ _ _ _ _ Hu) as Hf. cbv zeta in Hf.
  destruct Hf as (_ & _ & _ & _ & _ & Hg).
  assert (isValidGridPos cfg (gridPos a').1 (gridPos a').2 = true) as Hv.
  { rewrite Hg. unfold updateGridPos. cbn [gridPos set_gridPos fst snd].
    apply isValidGridPos_spec.
    pose proof (constrainZ_range
                  (pixelToGrid cfg (P5.vx (pos a)) (P5.vy (pos a))).1
                  (GRID_COLS cfg - 1) ltac:(lia)).
    pose proof (constrainZ_range
                  (pixelToGrid cfg (P5.vx (pos a)) (P5.vy (pos a))).2
                  (GRID_ROWS cfg - 1) ltac:(lia)).
    lia. }
  split; [done|]. intros Hh.
  apply update_history in Hu as (b & Hb & ->).
  destruct (addToHistory_spec cfg b) as [Hgb Hcase]. rewrite Hgb, Hb in *.
  destruct Hcase as [[_ ->]|[_ [[_ ->]|[_ ->]]]]; [done | |].
  - assert (Forall (fun c => isValidGridPos cfg c.1 c.2 = true) (history a ++ [gridPos b]))
      as Hall by (apply Forall_app; split; [done | by apply Forall_singleton]).
    destruct (history a ++ [gridPos b]); [done|]. simpl.
    by apply Forall_cons in Hall as [_ ?].
  - apply Forall_app. split; [done | by apply Forall_singleton].
Qed.

(** ** The further properties on the small world *)

Lemma agent_stays_on_canvas_witness :
  (0 <= CELL_SIZE corridorConfig * inject_Z (GRID_COLS corridorConfig))%Q /\
  (0 <= CELL_SIZE corridorConfig * inject_Z (GRID_ROWS corridorConfig))%Q /\
  exists a' w',
    update corridorConfig axisTrig halfRng 0 firstAnt corridorWorld = Some (a', w') /\
    (0 <= P5.vx (pos a') <= CELL_SIZE corridorConfig * inject_Z (GRID_COLS corridorConfig))%Q /\
    (0 <= P5.vy (pos a') <= CELL_SIZE corridorConfig * inject_Z (GRID_ROWS corridorConfig))%Q.
Proof.
  assert (0 <= CELL_SIZE corridorConfig * inject_Z (GRID_COLS corridorConfig))%Q as h1
    by (by vm_compute).
  assert (0 <= CELL_SIZE corridorConfig * inject_Z (GRID_ROWS corridorConfig))%Q as h2
    by (by vm_compute).
  assert (exists a' w',
            update corridorConfig axisTrig halfRng 0 firstAnt corridorWorld = Some (a', w'))
    as (a' & w' & h3) by (do 2 eexists; by vm_compute).
  do 2 (split; [assumption|]). exists a', w'. split; [assumption|].
  exact (agent_stays_on_canvas corridorConfig axisTrig halfRng 0 firstAnt a'
           corridorWorld w' h1 h2 h3).
Defined.

Lemma history_stays_bounded_witness :
  exists a' w',
    update corridorConfig axisTrig halfRng 0 firstAnt corridorWorld = Some (a', w') /\
    (length (history a')
     <= Nat.max (length (history firstAnt))
                (Z.to_nat (ANT_HISTORY_LENGTH corridorConfig)))%nat /\
    (noRepeat (history firstAnt) -> noRepeat (history a')) /\
    (1 <= ANT_HISTORY_LENGTH corridorConfig -> last (history a') = Some (gridPos a')).
Proof.
  assert (exists a' w',
            update corridorConfig axisTrig halfRng 0 firstAnt corridorWorld = Some (a', w'))
    as (a' & w' & h) by (do 2 eexists; by vm_compute).
  exists a', w'. split; [assumption|].
  exact (history_stays_bounded corridorConfig axisTrig halfRng 0 firstAnt a'
           corridorWorld w' h).
Defined.

Lemma newest_entry_is_not_a_visit_witness :
  exists a' w',
    update corridorConfig axisTrig halfRng 0
           (set_history [(3, 1); (4, 1)] firstAnt) corridorWorld = Some (a', w') /\
    wasRecentlyVisited a' (gridPos a').1 (gridPos a').2 = true /\
    In (gridPos a') (history (set_history [(3, 1); (4, 1)] firstAnt)).
Proof.
  assert (exists a' w',
            update corridorConfig axisTrig halfRng 0
                   (set_history [(3, 1); (4, 1)] firstAnt) corridorWorld = Some (a', w') /\
            wasRecentlyVisited a' (gridPos a').1 (gridPos a').2 = true)
    as (a' & w' & h1 & h2) by (do 2 eexists; split; by vm_compute).
  exists a', w'. do 2 (split; [assumption|]).
  exact (newest_entry_is_not_a_visit corridorConfig axisTrig halfRng 0
           (set_history [(3, 1); (4, 1)] firstAnt) a' corridorWorld w' h1 h2).
Defined.

Lemma state_changes_at_the_goal_witness :
  exists a' w',
    update corridorConfig axisTrig halfRng 0 firstAnt corridorWorld = Some (a', w') /\
    transits corridorConfig corridorWorld firstAnt = false /\
    state a' = state firstAnt /\
    charge a' = Z.max 0 (charge firstAnt - 1) /\
    foodFoundCount w' = foodFoundCount corridorWorld.
Proof.
  assert (exists a' w',
            update corridorConfig axisTrig halfRng 0 firstAnt corridorWorld = Some (a', w'))
    as (a' & w' & h) by (do 2 eexists; by vm_compute).
  exists a', w'. split; [assumption|].
  pose proof (state_changes_at_the_goal corridorConfig axisTrig halfRng 0 firstAnt a'
                corridorWorld w' h) as H.
  assert (transits corridorConfig corridorWorld firstAnt = false) as Ht by (by vm_compute).
  rewrite Ht in H. split; [assumption|]. exact H.
Defined.

Lemma spent_agent_deposits_nothing_witness :
  exists a' w',
    update corridorConfig axisTrig halfRng 0 (set_charge 1 firstAnt) corridorWorld
      = Some (a', w') /\
    transits corridorConfig corridorWorld (set_charge 1 firstAnt) = false /\
    charge (set_charge 1 firstAnt) <= 1 /\
    explorePheromones w' = explorePheromones corridorWorld /\
    returnPheromones w' = returnPheromones corridorWorld /\
    charge a' = 0.
Proof.
  assert (exists a' w',
            update corridorConfig axisTrig halfRng 0 (set_charge 1 firstAnt) corridorWorld
              = Some (a', w'))
    as (a' & w' & h1) by (do 2 eexists; by vm_compute).
  assert (transits corridorConfig corridorWorld (set_charge 1 firstAnt) = false) as h2
    by (by vm_compute).
  assert (charge (set_charge 1 firstAnt) <= 1) as h3 by (simpl; lia).
  exists a', w'. do 3 (split; [assumption|]).
  exact (spent_agent_deposits_nothing corridorConfig axisTrig halfRng 0
           (set_charge 1 firstAnt) a' corridorWorld w' h1 h2 h3).
Defined.

Lemma agents_stay_off_walls_witness :
  (0 < CELL_SIZE corridorConfig)%Q /\
  isValidGridPos corridorConfig (colonyPos corridorWorld).1 (colonyPos corridorWorld).2 = true /\
  grid_lookup (maze corridorWorld) (colonyPos corridorWorld).1 (colonyPos corridorWorld).2
    <> Some Wall /\
  Forall (standsOnOpen corridorConfig corridorWorld) (ants corridorWorld) /\
  exists w',
    draw corridorConfig axisTrig halfRng 0 5000 corridorWorld = Some w' /\
    maze w' = maze corridorWorld /\
    Forall (standsOnOpen corridorConfig w') (ants w').
Proof.
  assert (0 < CELL_SIZE corridorConfig)%Q as h1 by (by vm_compute).
  assert (isValidGridPos corridorConfig (colonyPos corridorWorld).1
            (colonyPos corridorWorld).2 = true) as h2 by (by vm_compute).
  assert (grid_lookup (maze corridorWorld) (colonyPos corridorWorld).1
            (colonyPos corridorWorld).2 <> Some Wall) as h3 by (by vm_compute).
  assert (Forall (standsOnOpen corridorConfig corridorWorld) (ants corridorWorld)) as h4
    by (repeat constructor; by vm_compute).
  assert (exists w', draw corridorConfig axisTrig halfRng 0 5000 corridorWorld = Some w')
    as (w' & h5) by (eexists; by vm_compute).
  do 4 (split; [assumption|]). exists w'. split; [assumption|].
  exact (agents_stay_off_walls corridorConfig axisTrig halfRng 0 5000 corridorWorld w'
           h1 h2 h3 h4 h5).
Defined.

Lemma food_counter_grows_slowly_witness :
  exists w',
    draw corridorConfig axisTrig halfRng 0 5000 corridorWorld = Some w' /\
    foodFoundCount corridorWorld <= foodFoundCount w'
      <= foodFoundCount corridorWorld + Z.of_nat (length (ants corridorWorld)).
Proof.
  assert (exists w', draw corridorConfig axisTrig halfRng 0 5000 corridorWorld = Some w')
    as (w' & h) by (eexists; by vm_compute).
  exists w'. split; [assumption|].
  exact (food_counter_grows_slowly corridorConfig axisTrig halfRng 0 5000 corridorWorld w' h).
Defined.

Lemma frame_admits_one_agent_witness :
  (0 < SENSE_ANGLE corridorConfig)%Q /\
  exists (enough : nat) (w' : Sim),
    (forall fuel, (enough <= fuel)%nat ->
       draw corridorConfig axisTrig halfRng fuel 5000 corridorWorld = Some w') /\
    length (ants w') = 3%nat /\ lastAntSpawnTime w' = 5000%Q.
Proof.
  assert (0 < SENSE_ANGLE corridorConfig)%Q as h by (by vm_compute).
  split; [assumption|].
  destruct (frame_admits_one_agent corridorConfig axisTrig halfRng 5000 corridorWorld h)
    as (enough & w' & Hd & Hdue & _).
  exists enough, w'. split; [exact Hd|].
  destruct Hdue as (Hlen & Hlast & _); [split; by vm_compute|].
  split; [exact Hlen | exact Hlast].
Defined.

Lemma generateMaze_dimensions_witness :
  P5.rng_unit halfRng /\
  (mazeFuel 6 2 <= mazeFuel 6 2)%nat /\
  exists r,
    generateMaze (mazeFuel 6 2) halfRng 6 2 = Some r /\
    finalCols r = 5 /\ finalRows r = 3 /\
    grid_dims (finalCols r) (finalRows r) (mr_grid r).
Proof.
  assert (P5.rng_unit halfRng) as h1 by (intros k; split; by vm_compute).
  assert (mazeFuel 6 2 <= mazeFuel 6 2)%nat as h2 by lia.
  do 2 (split; [assumption|]).
  destruct (generateMaze_dimensions halfRng 6 2 (mazeFuel 6 2) h1 h2)
    as (r & Hr & (_ & _ & Hc & _) & (_ & _ & _ & Hrw) & Hd & _).
  exists r. split; [exact Hr|]. split; [|split; [|exact Hd]].
  - pose proof (generateMaze_spec halfRng 6 2 (mazeFuel 6 2) h1 h2) as (r' & Hr' & E & _).
    rewrite Hr in Hr'. injection Hr' as <-. exact E.
  - apply Hrw. lia.
Defined.

Lemma generateMaze_rooms_and_pillars_witness :
  P5.rng_unit halfRng /\
  (mazeFuel 5 5 <= mazeFuel 5 5)%nat /\
  exists r,
    generateMaze (mazeFuel 5 5) halfRng 5 5 = Some r /\
    (forall p, interior (finalCols r) (finalRows r) p ->
       Z.Odd p.1 -> Z.Odd p.2 -> isPath (mr_grid r) p) /\
    (forall p, 0 <= p.1 < finalCols r -> 0 <= p.2 < finalRows r ->
       Z.Even p.1 -> Z.Even p.2 -> isWall (mr_grid r) p).
Proof.
  assert (P5.rng_unit halfRng) as h1 by (intros k; split; by vm_compute).
  assert (mazeFuel 5 5 <= mazeFuel 5 5)%nat as h2 by lia.
  do 2 (split; [assumption|]).
  exact (generateMaze_rooms_and_pillars halfRng 5 5 (mazeFuel 5 5) h1 h2).
Defined.

Lemma findValidPosition_idempotent_witness :
  grid_dims (GRID_COLS corridorConfig) (GRID_ROWS corridorConfig) corridorMaze /\
  0 < GRID_COLS corridorConfig /\ 0 < GRID_ROWS corridorConfig /\
  findValidPosition corridorConfig corridorMaze 0 0 = Normal (Some (1, 1)) /\
  findValidPosition corridorConfig corridorMaze 1 1 = Normal (Some (1, 1)).
Proof.
  assert (grid_dims (GRID_COLS corridorConfig) (GRID_ROWS corridorConfig) corridorMaze)
    as h1 by (split; [reflexivity | repeat constructor]).
  assert (0 < GRID_COLS corridorConfig) as h2 by (simpl; lia).
  assert (0 < GRID_ROWS corridorConfig) as h3 by (simpl; lia).
  assert (findValidPosition corridorConfig corridorMaze 0 0 = Normal (Some (1, 1))) as h4
    by (by vm_compute).
  do 4 (split; [assumption|]).
  exact (findValidPosition_idempotent corridorConfig corridorMaze 0 0 (1, 1) h1 h2 h3 h4).
Defined.

Lemma findValidPosition_faults_on_short_maze_witness :
  Z.of_nat (length (firstn 3 corridorMaze))
    <= P5.constrainZ 5 0 (GRID_COLS corridorConfig - 1) /\
  findValidPosition corridorConfig (firstn 3 corridorMaze) 5 1 = Throw.
Proof.
  assert (Z.of_nat (length (firstn 3 corridorMaze))
            <= P5.constrainZ 5 0 (GRID_COLS corridorConfig - 1)) as h
    by (by vm_compute).
  split; [assumption|].
  exact (proj1 (findValidPosition_faults_on_short_maze corridorConfig
                  (firstn 3 corridorMaze) 5 1 h)).
Defined.

Lemma setup_is_ready_witness :
  P5.rng_unit halfRng /\
  (setupFuel corridorConfig <= setupFuel corridorConfig)%nat /\
  exists cfg' w',
    setup axisTrig halfRng (setupFuel corridorConfig) 800 600 0 corridorConfig corridorWorld
      = Some (SetupReady cfg' w') /\
    colonyPos w' = (1, 1) /\
    foodPos w' = (GRID_COLS cfg' - 2, GRID_ROWS cfg' - 2) /\
    length (ants w') = spawnCount corridorConfig.
Proof.
  assert (P5.rng_unit halfRng) as h1 by (intros k; split; by vm_compute).
  assert (setupFuel corridorConfig <= setupFuel corridorConfig)%nat as h2 by lia.
  do 2 (split; [assumption|]).
  destruct (setup_is_ready axisTrig halfRng (setupFuel corridorConfig) 800 600 0
              corridorConfig corridorWorld h1 h2)
    as (cfg' & w' & Hs & _ & _ & _ & _ & Hc & Hf & _ & _ & Hn & _).
  exists cfg', w'. auto.
Defined.

Lemma sensing_steers_to_open_cells_witness :
  (0 < SENSE_ANGLE corridorConfig)%Q /\
  farFromGoal corridorConfig farAnt corridorWorld /\
  (6 <= 6)%nat /\
  exists angle w',
    senseAndDecideAngle corridorConfig axisTrig halfRng 6 farAnt corridorWorld
      = Some (angle, w') /\
    ((exists p, In p (coneProbes corridorConfig axisTrig farAnt) /\
                eligible corridorConfig farAnt corridorWorld (probe_cell p) = true /\
                angle = (P5.heading axisTrig (vel farAnt) + probe_offset p)%Q)
     \/ (exists k, (draws corridorWorld <= k)%nat /\
           angle = (P5.heading axisTrig (vel farAnt)
                    + P5.random2 (halfRng k) (- TURN_ANGLE corridorConfig * 0.5)
                                 (TURN_ANGLE corridorConfig * 0.5))%Q /\
           w' = set_draws (S k) corridorWorld)).
Proof.
  assert (0 < SENSE_ANGLE corridorConfig)%Q as h1 by (by vm_compute).
  assert (farFromGoal corridorConfig farAnt corridorWorld) as h2 by (by vm_compute).
  assert (6 <= 6)%nat as h3 by lia.
  assert (exists angle w',
            senseAndDecideAngle corridorConfig axisTrig halfRng 6 farAnt corridorWorld
              = Some (angle, w'))
    as (angle & w' & h4) by (do 2 eexists; by vm_compute).
  do 3 (split; [assumption|]). exists angle, w'. split; [assumption|].
  exact (proj1 (sensing_steers_to_open_cells corridorConfig axisTrig halfRng farAnt
                  corridorWorld w' 6 angle h1 h2 h3 h4)).
Defined.

Lemma evaporation_clears_faint_traces_witness :
  0 <= 3 < GRID_COLS corridorConfig /\ 0 <= 1 < GRID_ROWS corridorConfig /\
  grid_lookup (explorePheromones corridorWorld) 3 1 = Some 200%Q /\
  exists v',
    grid_lookup (explorePheromones (updatePheromones corridorConfig corridorWorld)) 3 1
      = Some v' /\
    ((v' = 0%Q /\ (200 * (1 - EVAPORATION_RATE corridorConfig) < 0.01)%Q) \/
     ((v' == 200 * (1 - EVAPORATION_RATE corridorConfig))%Q /\ (0.01 <= v')%Q)).
Proof.
  assert (0 <= 3 < GRID_COLS corridorConfig) as h1 by (simpl; lia).
  assert (0 <= 1 < GRID_ROWS corridorConfig) as h2 by (simpl; lia).
  assert (grid_lookup (explorePheromones corridorWorld) 3 1 = Some 200%Q) as h3
    by reflexivity.
  do 3 (split; [assumption|]).
  pose proof (proj1 (evaporation_clears_faint_traces corridorConfig corridorWorld 3 1
                       h1 h2)) as H.
  rewrite h3 in H. exact H.
Defined.

Lemma step_marks_one_cell_witness :
  exists a' w',
    update corridorConfig axisTrig halfRng 0 firstAnt corridorWorld = Some (a', w') /\
    grid_lookup (explorePheromones corridorWorld) 4 1 = Some 0%Q /\
    exists v', grid_lookup (explorePheromones w') 4 1 = Some v' /\
      ((4, 1) <> gridPos a' \/ state a' <> searching -> v' = 0%Q) /\
      ((0 <= PHEROMONE_MAX corridorConfig)%Q -> (0 <= v')%Q).
Proof.
  assert (exists a' w',
            update corridorConfig axisTrig halfRng 0 firstAnt corridorWorld = Some (a', w'))
    as (a' & w' & h) by (do 2 eexists; by vm_compute).
  assert (grid_lookup (explorePheromones corridorWorld) 4 1 = Some 0%Q) as h2
    by reflexivity.
  exists a', w'. do 2 (split; [assumption|]).
  pose proof (proj1 (step_marks_one_cell corridorConfig axisTrig halfRng 0 firstAnt a'
                       corridorWorld w' 4 1 h)) as H.
  rewrite h2 in H. exact H.
Defined.

Lemma recorded_cell_is_in_grid_witness :
  0 < GRID_COLS corridorConfig /\ 0 < GRID_ROWS corridorConfig /\
  exists a' w',
    update corridorConfig axisTrig halfRng 0 firstAnt corridorWorld = Some (a', w') /\
    isValidGridPos corridorConfig (gridPos a').1 (gridPos a').2 = true.
Proof.
  assert (0 < GRID_COLS corridorConfig) as h1 by (simpl; lia).
  assert (0 < GRID_ROWS corridorConfig) as h2 by (simpl; lia).
  assert (exists a' w',
            update corridorConfig axisTrig halfRng 0 firstAnt corridorWorld = Some (a', w'))
    as (a' & w' & h3) by (do 2 eexists; by vm_compute).
  do 2 (split; [assumption|]). exists a', w'. split; [assumption|].
  exact (proj1 (recorded_cell_is_in_grid corridorConfig axisTrig halfRng 0 firstAnt a'
                  corridorWorld w' h1 h2 h3)).
Defined.

(** ** A whole run *)

(** What one frame keeps. *)
Lemma draw_frame cfg trig rng fuel now w w' :
  (0 < CELL_SIZE cfg)%Q ->
  isValidGridPos cfg (colonyPos w).1 (colonyPos w).2 = true ->
  grid_lookup (maze w) (colonyPos w).1 (colonyPos w).2 <> Some Wall ->
  Forall (standsOnOpen cfg w) (ants w) ->
  draw cfg trig rng fuel now w = Some w' ->
  maze w' = maze w /\ colonyPos w' = colonyPos w /\ foodPos w' = foodPos w /\
  Forall (standsOnOpen cfg w') (ants w') /\
  (length (ants w) <= length (ants w')
   <= Nat.max (length (ants w)) (Z.to_nat (NUM_ANTS cfg)))%nat /\
  foodFoundCount w <= foodFoundCount w'.
Proof.
  intros Hc Hv Ho Ha H. apply draw_unfold in H as (e & r & w1 & Hu & ->).
  pose proof (updateAndDrawAnts_canvas _ _ _ _ _ _ Hu) as [Hlen _].
  pose proof (updateAndDrawAnts_frame _ _ _ _ _ _ Hu) as (Hm & Hcol & Hfood & _ & Hn).
  apply updateAndDrawAnts_open in Hu; [|done|exact Ha].
  cbn [maze colonyPos foodPos ants foodFoundCount set_pheromones set_canvas]
    in Hlen, Hm, Hcol, Hfood, Hn.
  assert (Forall (standsOnOpen cfg w1) (ants w1)) as Hw1.
  { eapply Forall_impl; [exact Hu|]. intros a. by apply standsOnOpen_maze. }
  unfold spawnNewAnts. destruct (_ && _) eqn:Hsp.
  - apply andb_true_iff in Hsp as [Hlt%Z.ltb_lt _]. unfold newAnt.
    cbn [maze colonyPos foodPos ants foodFoundCount set_lastAntSpawnTime set_ants
         set_draws].
    split_and!; try done.
    + apply Forall_app. split.
      * eapply Forall_impl; [exact Hw1|]. intros a. by apply standsOnOpen_maze.
      * apply Forall_singleton. apply (fresh_stands_open cfg _ (colonyPos w1)).
        -- done.
        -- unfold freshAt. cbn. by destruct (colonyPos w1).
        -- by rewrite Hcol.
        -- change (maze (set_lastAntSpawnTime _ _)) with (maze w1).
           by rewrite Hm, Hcol.
    + rewrite length_app. simpl. lia.
    + rewrite length_app. simpl. lia.
    + lia.
  - split_and!; try done; lia.
Qed.

(** What any number of frames keeps. *)
Lemma frames_keep cfg trig rng fuel :
  (0 < CELL_SIZE cfg)%Q ->
  forall times w w',
    isValidGridPos cfg (colonyPos w).1 (colonyPos w).2 = true ->
    grid_lookup (maze w) (colonyPos w).1 (colonyPos w).2 <> Some Wall ->
    Forall (standsOnOpen cfg w) (ants w) ->
    foldM (draw cfg trig rng fuel) times w = Some w' ->
    maze w' = maze w /\ colonyPos w' = colonyPos w /\ foodPos w' = foodPos w /\
    Forall (standsOnOpen cfg w') (ants w') /\
    (length (ants w) <= length (ants w')
     <= Nat.max (length (ants w)) (Z.to_nat (NUM_ANTS cfg)))%nat /\
    foodFoundCount w <= foodFoundCount w'.
Proof.
  intros Hc. induction times as [|now times IH]; intros w w' Hv Ho Ha H; simpl in H.
  - injection H as <-. split_and!; try done; lia.
  - destruct (draw cfg trig rng fuel now w) as [w1|] eqn:Hd; [|done].
    destruct (draw_frame cfg trig rng fuel now w w1 Hc Hv Ho Ha Hd)
      as (Hm1 & Hc1 & Hf1 & Ha1 & Hl1 & Hn1).
    destruct (IH w1 w') as (Hm & Hcol & Hfood & Hall & Hl & Hn); try done.
    + by rewrite Hc1.
    + by rewrite Hm1, Hc1.
    + split_and!; try congruence; try done; lia.
Qed.

(** X19.  A whole run.  From the state [setup] leaves, with cells of
    positive size, after any number of frames at any times: the maze, the
    colony and the food are where [setup] put them; every agent stands
    over a cell of the grid that is not a wall; the agents are never
    fewer than [setup] made and never more than the larger of that
    number and [NUM_ANTS]; and the counter of food brought home has never
    fallen. *)
Theorem run_keeps_its_shape (trig : P5.Trig) (rng : P5.Rng) (fuel : nat)
    (windowWidth windowHeight now : Q) (cfg : Config) (w : Sim) :
  P5.rng_unit rng -> (setupFuel cfg <= fuel)%nat ->
  exists cfg' w0,
    setup trig rng fuel windowWidth windowHeight now cfg w = Some (SetupReady cfg' w0) /\
    forall (fuel' : nat) (times : list Q) (w' : Sim),
      (0 < CELL_SIZE cfg')%Q ->
      foldM (draw cfg' trig rng fuel') times w0 = Some w' ->
      maze w' = maze w0 /\ colonyPos w' = (1, 1) /\
      foodPos w' = (GRID_COLS cfg' - 2, GRID_ROWS cfg' - 2) /\
      Forall (standsOnOpen cfg' w') (ants w') /\
      (spawnCount cfg <= length (ants w')
       <= Nat.max (spawnCount cfg) (Z.to_nat (NUM_ANTS cfg)))%nat /\
      foodFoundCount w <= foodFoundCount w'.
Proof.
  intros Hrng Hfuel.
  destruct (setup_runs trig rng fuel windowWidth windowHeight now cfg w Hrng Hfuel)
    as (m1 & m2 & final & cellSize & k & new & Hm1 & Hm2 & Hg & H11 & Hnn & Hlen & Hall
        & ->).
  do 2 eexists. split; [reflexivity|]. intros fuel' times w' Hcell Hrun.
  match type of Hrun with foldM (draw ?c _ _ _) _ ?s0 = _ =>
    set (cfg' := c) in *; set (w0 := s0) in *
  end.
  assert (isValidGridPos cfg' (colonyPos w0).1 (colonyPos w0).2 = true) as Hv.
  { apply isValidGridPos_spec. cbn. lia. }
  assert (grid_lookup (maze w0) (colonyPos w0).1 (colonyPos w0).2 <> Some Wall) as Ho.
  { change (grid_lookup final 1 1 <> Some Wall).
    unfold isPath in H11. cbn [fst snd] in H11. by rewrite H11. }
  assert (Forall (standsOnOpen cfg' w0) (ants w0)) as Ha.
  { eapply Forall_impl; [exact Hall|]. intros a Hf.
    by apply (fresh_stands_open _ _ (1, 1)). }
  destruct (frames_keep cfg' trig rng fuel' Hcell times w0 w' Hv Ho Ha Hrun)
    as (Hm & Hc' & Hf' & Hopen & Hl & Hcnt).
  cbn [colonyPos foodPos ants foodFoundCount w0] in Hc', Hf', Hl, Hcnt.
  rewrite Hlen in Hl. change (NUM_ANTS cfg') with (NUM_ANTS cfg) in Hl.
  destruct Hl as [Hl1 Hl2]. split_and!; done.
Qed.

Lemma run_keeps_its_shape_witness :
  P5.rng_unit halfRng /\
  (setupFuel corridorConfig <= setupFuel corridorConfig)%nat /\
  exists cfg' w0,
    setup axisTrig halfRng (setupFuel corridorConfig) 800 600 0 corridorConfig corridorWorld
      = Some (SetupReady cfg' w0) /\
    forall w',
      (0 < CELL_SIZE cfg')%Q ->
      foldM (draw cfg' axisTrig halfRng 400) [100; 250]%Q w0 = Some w' ->
      Forall (standsOnOpen cfg' w') (ants w').
Proof.
  assert (P5.rng_unit halfRng) as h1 by (intros k; split; by vm_compute).
  assert (setupFuel corridorConfig <= setupFuel corridorConfig)%nat as h2 by lia.
  do 2 (split; [assumption|]).
  destruct (run_keeps_its_shape axisTrig halfRng (setupFuel corridorConfig) 800 600 0
              corridorConfig corridorWorld h1 h2) as (cfg' & w0 & Hs & Hrun).
  exists cfg', w0. split; [exact Hs|]. intros w' Hc Hf.
  exact (proj1 (proj2 (proj2 (proj2 (Hrun 400%nat [100; 250]%Q w' Hc Hf))))).
Defined.
